(** * Music-Stream-Sync: a shallow embedding of frontend/src/App.js

    The development follows the three classes of the source file:
    [AudioSyncEngine] (playback clock, drift correction, chunk
    scheduling), [P2PManager] (negotiation and the data channel) and the
    [App] component's glue that forwards ICE candidates to the relay.

    JavaScript numbers are modelled as exact rationals ([Q]); equalities
    between computed times are therefore stated with [==] and hold in the
    source up to floating-point rounding. *)

From Stdlib Require Import QArith Qabs Qminmax Qround Lqa Lia Bool String.
From Stdlib Require Import Ascii DecimalString DecimalZ.
From stdpp Require Import base list option.

(** ** JavaScript completions and mutable object state *)

Module Js.

Inductive Error : Type :=
| TypeError
| RangeError
| NotSupportedError
| InvalidStateError
| EncodingError
| OperationError.

(** A call either returns a value or throws. *)
Inductive Completion (A : Type) : Type :=
| Normal (a : A)
| Throw (err : Error).

Arguments Normal {A} a.
Arguments Throw {A} err.

(** A method of an object whose fields are [S]: it reads and writes the
    fields and completes.  Writes made before a throw are kept, as in
    JavaScript. *)
Definition M (S A : Type) : Type := S -> Completion A * S.

Section Monad.
Context {S : Type}.

Definition ret {A} (a : A) : M S A := fun s => (Normal a, s).

Definition bind {A B} (m : M S A) (k : A -> M S B) : M S B :=
  fun s =>
    match m s with
    | (Normal a, s') => k a s'
    | (Throw err, s') => (Throw err, s')
    end.

Definition get : M S S := fun s => (Normal s, s).

Definition modify (f : S -> S) : M S unit := fun s => (Normal tt, f s).

Definition throw {A} (err : Error) : M S A := fun s => (Throw err, s).

(** The completion of a platform call made from inside the method. *)
Definition lift {A} (c : Completion A) : M S A := fun s => (c, s).

(** [try { body } catch (error) { handler }] *)
Definition try_catch {A} (body : M S A) (handler : Error -> M S A) : M S A :=
  fun s =>
    match body s with
    | (Normal a, s') => (Normal a, s')
    | (Throw err, s') => handler err s'
    end.

(** The fields after the call. *)
Definition exec {A} (m : M S A) (s : S) : S := snd (m s).

(** What the call completed with. *)
Definition eval {A} (m : M S A) (s : S) : Completion A := fst (m s).
End Monad.

(** JavaScript truthiness of an object reference that may be [null]. *)
Definition truthy {A} (o : option A) : bool :=
  match o with Some _ => true | None => false end.

Declare Scope js_scope.
Delimit Scope js_scope with js.

Notation "x <- m ;; k" := (bind m (fun x => k))
  (at level 100, m at next level, right associativity) : js_scope.
Notation "m ;; k" := (bind m (fun _ => k))
  (at level 100, right associativity) : js_scope.

End Js.

Import Js.
Open Scope Q_scope.

(** [x > y] on numbers. *)
Definition Qgtb (x y : Q) : bool := negb (Qle_bool x y).

(** ** The Audio Synchronization Engine ([class AudioSyncEngine]) *)

Module AudioSyncEngine.

Open Scope js_scope.

(** *** Web Audio objects the engine holds *)

(** An [AudioBuffer]: one channel of samples at a sample rate. *)
Record AudioBuffer : Type := {
  buffer_length : nat;
  buffer_sampleRate : Q;
  buffer_channelData : list Q
}.

(** [audioBuffer.duration], in seconds. *)
Definition duration (b : AudioBuffer) : Q :=
  inject_Z (Z.of_nat (buffer_length b)) / buffer_sampleRate b.

(** An [AudioBufferSourceNode] as the engine's calls leave it: the buffer
    assigned to it, whether it was connected to the gain node, the
    arguments of its [start(when, offset)] and whether [stop()] was
    called.  A call on a node is modelled by what it records here. *)
Record AudioBufferSourceNode : Type := {
  node_buffer : option AudioBuffer;
  node_connected : bool;
  node_started : option (Q * Q);
  node_stopped : bool
}.

Definition fresh_node : AudioBufferSourceNode :=
  {| node_buffer := None; node_connected := false;
     node_started := None; node_stopped := false |}.

(** The gain node's [gain] parameter: its automation events
    [(value, startTime)] in the order they were scheduled. *)
Record GainNode : Type := {
  gain_events : list (Q * Q)
}.

(** [gain.setValueAtTime(value, startTime)] *)
Definition setValueAtTime (value startTime : Q) (g : GainNode) : GainNode :=
  {| gain_events := gain_events g ++ [(value, startTime)] |}.

(** The value of the gain parameter at time [t].  The audio clock never
    runs backwards, so events are scheduled in the order of their times:
    the value is that of the last event scheduled at or before [t], and
    the parameter's default, 1, before every event. *)
Definition gain_value (g : GainNode) (t : Q) : Q :=
  fold_left (fun v ev => if Qle_bool (snd ev) t then fst ev else v)
            (gain_events g) 1.

Inductive AudioContext : Type := BaseAudioContext.

(** *** The engine's fields

    [sourceNode] is a reference: source nodes live in [graph], the store
    of every source node created so far, and are mutated there.  The
    fields of the capture side ([mediaStream], [scriptProcessor], ...)
    and the fields no method reads ([clockOffset], [jitterBuffer],
    [audioQueue], ...) are left out: no method below touches them. *)
Record Engine : Type := {
  audioContext : option AudioContext;
  audioBuffer : option AudioBuffer;
  sourceNode : option nat;
  gainNode : option GainNode;
  startTime : Q;
  pauseTime : Q;
  isPlaying : bool;
  nextPlayTime : Q;
  graph : list AudioBufferSourceNode
}.

(** [constructor()] *)
Definition new_engine : Engine :=
  {| audioContext := None; audioBuffer := None; sourceNode := None;
     gainNode := None; startTime := 0; pauseTime := 0; isPlaying := false;
     nextPlayTime := 0; graph := [] |}.

Definition with_audioContext (v : option AudioContext) (e : Engine) : Engine :=
  {| audioContext := v; audioBuffer := audioBuffer e;
     sourceNode := sourceNode e; gainNode := gainNode e;
     startTime := startTime e; pauseTime := pauseTime e;
     isPlaying := isPlaying e; nextPlayTime := nextPlayTime e;
     graph := graph e |}.

Definition with_audioBuffer (v : option AudioBuffer) (e : Engine) : Engine :=
  {| audioContext := audioContext e; audioBuffer := v;
     sourceNode := sourceNode e; gainNode := gainNode e;
     startTime := startTime e; pauseTime := pauseTime e;
     isPlaying := isPlaying e; nextPlayTime := nextPlayTime e;
     graph := graph e |}.

Definition with_sourceNode (v : option nat) (e : Engine) : Engine :=
  {| audioContext := audioContext e; audioBuffer := audioBuffer e;
     sourceNode := v; gainNode := gainNode e;
     startTime := startTime e; pauseTime := pauseTime e;
     isPlaying := isPlaying e; nextPlayTime := nextPlayTime e;
     graph := graph e |}.

Definition with_gainNode (v : option GainNode) (e : Engine) : Engine :=
  {| audioContext := audioContext e; audioBuffer := audioBuffer e;
     sourceNode := sourceNode e; gainNode := v;
     startTime := startTime e; pauseTime := pauseTime e;
     isPlaying := isPlaying e; nextPlayTime := nextPlayTime e;
     graph := graph e |}.

Definition with_startTime (v : Q) (e : Engine) : Engine :=
  {| audioContext := audioContext e; audioBuffer := audioBuffer e;
     sourceNode := sourceNode e; gainNode := gainNode e;
     startTime := v; pauseTime := pauseTime e;
     isPlaying := isPlaying e; nextPlayTime := nextPlayTime e;
     graph := graph e |}.

Definition with_pauseTime (v : Q) (e : Engine) : Engine :=
  {| audioContext := audioContext e; audioBuffer := audioBuffer e;
     sourceNode := sourceNode e; gainNode := gainNode e;
     startTime := startTime e; pauseTime := v;
     isPlaying := isPlaying e; nextPlayTime := nextPlayTime e;
     graph := graph e |}.

Definition with_isPlaying (v : bool) (e : Engine) : Engine :=
  {| audioContext := audioContext e; audioBuffer := audioBuffer e;
     sourceNode := sourceNode e; gainNode := gainNode e;
     startTime := startTime e; pauseTime := pauseTime e;
     isPlaying := v; nextPlayTime := nextPlayTime e;
     graph := graph e |}.

Definition with_nextPlayTime (v : Q) (e : Engine) : Engine :=
  {| audioContext := audioContext e; audioBuffer := audioBuffer e;
     sourceNode := sourceNode e; gainNode := gainNode e;
     startTime := startTime e; pauseTime := pauseTime e;
     isPlaying := isPlaying e; nextPlayTime := v;
     graph := graph e |}.

Definition with_graph (v : list AudioBufferSourceNode) (e : Engine) : Engine :=
  {| audioContext := audioContext e; audioBuffer := audioBuffer e;
     sourceNode := sourceNode e; gainNode := gainNode e;
     startTime := startTime e; pauseTime := pauseTime e;
     isPlaying := isPlaying e; nextPlayTime := nextPlayTime e;
     graph := v |}.

(** The Playback Clock State of the specification. *)
Definition clock_state (e : Engine) : Q * Q * bool :=
  (startTime e, pauseTime e, isPlaying e).

(** *** Calls on the objects the engine references *)

(** [this.audioContext.currentTime], read when the audio clock shows
    [now]; a [TypeError] when there is no context. *)
Definition currentTime (now : Q) : M Engine Q :=
  this <- get ;;
  match audioContext this with
  | Some _ => ret now
  | None => throw TypeError
  end.

(** [this.audioContext.createBufferSource()]: a reference to a new node. *)
Definition createBufferSource : M Engine nat :=
  this <- get ;;
  match audioContext this with
  | Some _ =>
      modify (with_graph (graph this ++ [fresh_node])) ;;
      ret (length (graph this))
  | None => throw TypeError
  end.

Definition on_node (f : AudioBufferSourceNode -> AudioBufferSourceNode)
  (node : nat) : M Engine unit :=
  modify (fun e => with_graph (alter f node (graph e)) e).

(** [node.buffer = b] *)
Definition node_set_buffer (node : nat) (b : option AudioBuffer) : M Engine unit :=
  on_node (fun n => {| node_buffer := b; node_connected := node_connected n;
                       node_started := node_started n;
                       node_stopped := node_stopped n |}) node.

(** [node.connect(this.gainNode)]; a [TypeError] when the gain node is
    [null]. *)
Definition node_connect (node : nat) : M Engine unit :=
  this <- get ;;
  match gainNode this with
  | Some _ =>
      on_node (fun n => {| node_buffer := node_buffer n; node_connected := true;
                           node_started := node_started n;
                           node_stopped := node_stopped n |}) node
  | None => throw TypeError
  end.

(** The node behind a reference has been started. *)
Definition started (e : Engine) (node : nat) : bool :=
  match graph e !! node with
  | Some n => truthy (node_started n)
  | None => false
  end.

(** [node.start(when, offset)]: a [RangeError] for a negative offset.
    The engine starts a node once, right after creating it, and [when]
    is 0 or a time read off the audio clock, which is never negative:
    the errors of a second start and of a negative [when] do not
    arise. *)
Definition node_start (node : nat) (when offset : Q) : M Engine unit :=
  if Qle_bool 0 offset
  then
    on_node (fun n => {| node_buffer := node_buffer n;
                         node_connected := node_connected n;
                         node_started := Some (when, offset);
                         node_stopped := node_stopped n |}) node
  else throw RangeError.

(** [node.stop()]: an [InvalidStateError] on a node that was never
    started.  Stopping a node again is allowed. *)
Definition node_stop (node : nat) : M Engine unit :=
  this <- get ;;
  if started this node
  then
    on_node (fun n => {| node_buffer := node_buffer n;
                         node_connected := node_connected n;
                         node_started := node_started n;
                         node_stopped := true |}) node
  else throw InvalidStateError.

(** *** File playback: [play], [pause], [stop], [getCurrentTime],
    [seek], [setVolume], [syncWithHost] *)

Definition stop : M Engine unit :=
  this <- get ;;
  match sourceNode this with
  | Some node => node_stop node ;; modify (with_sourceNode None)
  | None => ret tt
  end ;;
  modify (with_isPlaying false) ;;
  modify (with_startTime 0) ;;
  modify (with_pauseTime 0).

(** [play(startOffset)], called when the audio clock shows [now]. *)
Definition play (now : Q) (startOffset : Q) : M Engine bool :=
  this <- get ;;
  if negb (truthy (audioBuffer this)) || negb (truthy (audioContext this))
  then ret false
  else
    stop ;;
    node <- createBufferSource ;;
    modify (with_sourceNode (Some node)) ;;
    node_set_buffer node (audioBuffer this) ;;
    node_connect node ;;
    t <- currentTime now ;;
    modify (with_startTime (t - startOffset)) ;;
    node_start node 0 startOffset ;;
    modify (with_isPlaying true) ;;
    ret true.

Definition pause (now : Q) : M Engine unit :=
  this <- get ;;
  match sourceNode this with
  | Some node =>
      if isPlaying this
      then
        t <- currentTime now ;;
        modify (with_pauseTime (t - startTime this)) ;;
        node_stop node ;;
        modify (with_isPlaying false)
      else ret tt
  | None => ret tt
  end.

Definition getCurrentTime (now : Q) : M Engine Q :=
  this <- get ;;
  if negb (isPlaying this)
  then ret (pauseTime this)
  else t <- currentTime now ;; ret (t - startTime this).

Definition setVolume (now : Q) (volume : Q) : M Engine unit :=
  this <- get ;;
  match gainNode this with
  | Some g =>
      t <- currentTime now ;;
      modify (with_gainNode (Some (setValueAtTime volume t g)))
  | None => ret tt
  end.

Definition seek (now : Q) (time : Q) : M Engine unit :=
  this <- get ;;
  if isPlaying this
  then play now time ;; ret tt
  else modify (with_pauseTime time).

(** [syncWithHost(hostTime, hostTimestamp)], called when
    [performance.now()] shows [perfNow] (milliseconds) and the audio
    clock shows [now] (seconds). *)
Definition syncWithHost (perfNow now : Q) (hostTime hostTimestamp : Q)
  : M Engine unit :=
  let networkLatency := (perfNow - hostTimestamp) / 2 in
  let targetTime := hostTime + networkLatency / 1000 in
  current <- getCurrentTime now ;;
  if Qgtb (Qabs (current - targetTime)) 0.05
  then seek now targetTime
  else ret tt.

(** *** Sequences of [play]/[pause]/[seek] calls *)

Inductive PlaybackCall : Type :=
| CallPlay (startOffset : Q)
| CallPause
| CallSeek (time : Q).

(** The call [c] made when the audio clock shows [now]. *)
Definition playback_call (now : Q) (c : PlaybackCall) : M Engine unit :=
  match c with
  | CallPlay startOffset => play now startOffset ;; ret tt
  | CallPause => pause now
  | CallSeek time => seek now time
  end.

Definition run_playback (calls : list (Q * PlaybackCall)) (e : Engine) : Engine :=
  fold_left (fun e c => exec (playback_call (fst c) (snd c)) e) calls e.

(** [getCurrentTime()] returns (a number equal to) [p] when the audio
    clock shows [now]. *)
Definition position_is (e : Engine) (now p : Q) : Prop :=
  exists q, eval (getCurrentTime now) e = Normal q /\ q == p.

(** *** The gain curve *)

(** [f] has no jump at [t]. *)
Definition continuous_at (f : Q -> Q) (t : Q) : Prop :=
  forall eps, 0 < eps ->
    exists delta, 0 < delta /\
      forall t', Qabs (t' - t) < delta -> Qabs (f t' - f t) < eps.

(** The gain the listener hears at time [t]; 1 when the engine has no
    gain node yet. *)
Definition volume_at (e : Engine) (t : Q) : Q :=
  match gainNode e with
  | Some g => gain_value g t
  | None => 1
  end.


(** *** The invariant of the engine's states

    What every state a history of calls can reach satisfies, whatever
    the arguments of the calls and whether or not they threw: a playing
    engine has a source node that was started, a source node was made
    from a loaded buffer, a buffer was decoded by a context, and a
    context comes with its gain node. *)
Definition well_formed (e : Engine) : Prop :=
  (isPlaying e = true ->
   exists node, sourceNode e = Some node /\ started e node = true) /\
  (truthy (sourceNode e) = true -> truthy (audioBuffer e) = true) /\
  (truthy (audioBuffer e) = true -> truthy (audioContext e) = true) /\
  (truthy (audioContext e) = truthy (gainNode e)).

(** The current source node, if there is one, was started: [stop()]
    can stop it.  A [play] whose [start] threw leaves a current node
    that was not. *)
Definition intact (e : Engine) : bool :=
  match sourceNode e with
  | Some node => started e node
  | None => true
  end.

(** The offset of a call is not negative. *)
Definition offset_ok (c : PlaybackCall) : Prop :=
  match c with
  | CallPlay startOffset => 0 <= startOffset
  | CallPause => True
  | CallSeek time => 0 <= time
  end.

(** *** Loading a file and playing received chunks

    The browser decides what decodes and which buffers it can create:
    [file_arrayBuffer] and [decodeAudioData] stand for the two promises
    [loadAudioFile] awaits, [rateSupported] for the sample rates
    [createBuffer] accepts. *)

Class Browser : Type := {
  File : Type;
  ArrayBuffer : Type;
  file_arrayBuffer : File -> Completion ArrayBuffer;
  decodeAudioData : ArrayBuffer -> Completion AudioBuffer;
  rateSupported : Q -> bool
}.

Section Platform.

Context {browser : Browser}.

(** [initialize()]; [newAudioContext] is how the [AudioContext]
    constructor completes in this browser. *)
Definition initialize (newAudioContext : Completion AudioContext)
  : M Engine bool :=
  try_catch
    (ctx <- lift newAudioContext ;;
     modify (with_audioContext (Some ctx)) ;;
     modify (with_gainNode (Some {| gain_events := [] |})) ;;
     ret true)
    (fun _ => ret false).

Definition loadAudioFile (file : File) : M Engine bool :=
  try_catch
    (arrayBuffer <- lift (file_arrayBuffer file) ;;
     this <- get ;;
     match audioContext this with
     | Some _ =>
         decoded <- lift (decodeAudioData arrayBuffer) ;;
         modify (with_audioBuffer (Some decoded)) ;;
         ret true
     | None => throw TypeError
     end)
    (fun _ => ret false).

(** [this.audioContext.createBuffer(1, length, sampleRate)]: a silent
    buffer, or [NotSupportedError] for an empty buffer or a sample rate
    the browser does not support. *)
Definition createBuffer (len : nat) (rate : Q) : M Engine AudioBuffer :=
  this <- get ;;
  match audioContext this with
  | Some _ =>
      if (0 <? len)%nat && rateSupported rate
      then ret {| buffer_length := len; buffer_sampleRate := rate;
                  buffer_channelData := replicate len 0 |}
      else throw NotSupportedError
  | None => throw TypeError
  end.

(** [for (let i = 0; i < audioData.length; i++) channelData[i] = audioData[i]] *)
Definition copy_samples (audioData channelData : list Q) : list Q :=
  fold_left
    (fun cd i => match audioData !! i with
                 | Some x => <[i := x]> cd
                 | None => cd
                 end)
    (seq 0 (length audioData)) channelData.

Definition with_channelData (cd : list Q) (b : AudioBuffer) : AudioBuffer :=
  {| buffer_length := buffer_length b;
     buffer_sampleRate := buffer_sampleRate b;
     buffer_channelData := cd |}.

(** [sampleRate || 44100]: the default replaces a missing or zero rate. *)
Definition or_default (sampleRate : option Q) (default : Q) : Q :=
  match sampleRate with
  | Some r => if Qeq_bool r 0 then default else r
  | None => default
  end.

(** [playAudioChunk(audioData, timestamp, sampleRate)], called when the
    audio clock shows [now].  The [onended] handler it installs only
    disconnects the node once it has played; it writes no field. *)
Definition playAudioChunk (now : Q) (audioData : list Q) (timestamp : Q)
  (sampleRate : option Q) : M Engine unit :=
  this <- get ;;
  if negb (truthy (audioContext this))
  then ret tt
  else
    try_catch
      (audioBuffer <- createBuffer (length audioData)
                                   (or_default sampleRate 44100) ;;
       let audioBuffer :=
         with_channelData
           (copy_samples audioData (buffer_channelData audioBuffer))
           audioBuffer in
       sourceNode <- createBufferSource ;;
       node_set_buffer sourceNode (Some audioBuffer) ;;
       node_connect sourceNode ;;
       currentTime <- currentTime now ;;
       this <- get ;;
       let playTime := Qmax currentTime (nextPlayTime this) in
       node_start sourceNode playTime 0 ;;
       modify (with_nextPlayTime (playTime + duration audioBuffer)))
      (fun _ => ret tt).

(** *** Histories of calls *)

Inductive Call : Type :=
| Initialize (newAudioContext : Completion AudioContext)
| LoadAudioFile (file : File)
| Play (now startOffset : Q)
| Pause (now : Q)
| Stop
| SetVolume (now volume : Q)
| SyncWithHost (perfNow now hostTime hostTimestamp : Q)
| Seek (now time : Q)
| PlayAudioChunk (now : Q) (audioData : list Q) (timestamp : Q)
                 (sampleRate : option Q).

Definition call (c : Call) : M Engine unit :=
  match c with
  | Initialize newAudioContext => initialize newAudioContext ;; ret tt
  | LoadAudioFile file => loadAudioFile file ;; ret tt
  | Play now startOffset => play now startOffset ;; ret tt
  | Pause now => pause now
  | Stop => stop
  | SetVolume now volume => setVolume now volume
  | SyncWithHost perfNow now hostTime hostTimestamp =>
      syncWithHost perfNow now hostTime hostTimestamp
  | Seek now time => seek now time
  | PlayAudioChunk now audioData timestamp sampleRate =>
      playAudioChunk now audioData timestamp sampleRate
  end.

(** The states an engine can be in: what a history of calls makes of a
    newly constructed one. *)
Inductive reachable : Engine -> Prop :=
| reachable_new : reachable new_engine
| reachable_call e c : reachable e -> reachable (exec (call c) e).

(** *** Sequences of received chunks *)

Record Chunk : Type := {
  audioData : list Q;
  timestamp : Q;
  sampleRate : option Q
}.

(** [createBuffer] accepts the chunk: it has samples, and its effective
    sample rate is one the browser supports. *)
Definition acceptable (c : Chunk) : bool :=
  (0 <? length (audioData c))%nat &&
  rateSupported (or_default (sampleRate c) 44100).

(** The chunk's playing time: sample count over effective sample rate. *)
Definition chunk_duration (c : Chunk) : Q :=
  inject_Z (Z.of_nat (length (audioData c))) / or_default (sampleRate c) 44100.

(** The source node [playAudioChunk] builds for a chunk it starts at
    [playTime]. *)
Definition chunk_node (c : Chunk) (playTime : Q) : AudioBufferSourceNode :=
  {| node_buffer :=
       Some {| buffer_length := length (audioData c);
               buffer_sampleRate := or_default (sampleRate c) 44100;
               buffer_channelData := audioData c |};
     node_connected := true;
     node_started := Some (playTime, 0);
     node_stopped := false |}.

(** The chunk [c] arriving when the audio clock shows [now]. *)
Definition ingest (arrival : Q * Chunk) : M Engine unit :=
  playAudioChunk (fst arrival) (audioData (snd arrival))
                 (timestamp (snd arrival)) (sampleRate (snd arrival)).

Definition run_chunks (arrivals : list (Q * Chunk)) (e : Engine) : Engine :=
  fold_left (fun e a => exec (ingest a) e) arrivals e.

(** The scheduling rule in the specification's words: a chunk starts at
    [max(outputClockNow, nextFreeSlot)], and [nextFreeSlot] moves to that
    start plus the chunk's duration.  The result lists each chunk's
    [(start, end)] in arrival order. *)
Fixpoint schedule (nextFreeSlot : Q) (arrivals : list (Q * Chunk))
  : list (Q * Q) :=
  match arrivals with
  | [] => []
  | (outputClockNow, c) :: rest =>
      let start := Qmax outputClockNow nextFreeSlot in
      let nextFreeSlot' := start + chunk_duration c in
      (start, nextFreeSlot') :: schedule nextFreeSlot' rest
  end.

(** The source nodes a schedule asks for, one per chunk, in order. *)
Fixpoint scheduled_nodes (arrivals : list (Q * Chunk)) (slots : list (Q * Q))
  : list AudioBufferSourceNode :=
  match arrivals, slots with
  | (_, c) :: arrivals', (start, _) :: slots' =>
      chunk_node c start :: scheduled_nodes arrivals' slots'
  | _, _ => []
  end.

(** Where [nextFreeSlot] stands after a schedule. *)
Fixpoint final_slot (nextFreeSlot : Q) (slots : list (Q * Q)) : Q :=
  match slots with
  | [] => nextFreeSlot
  | (_, stop) :: slots' => final_slot stop slots'
  end.

End Platform.

(** *** Concrete engines *)

(** A browser that supports the sample rates every implementation must
    support. *)
Definition standard_rates (r : Q) : bool := Qle_bool 8000 r && Qle_bool r 96000.

(** A browser in which a file either holds audio that decodes to a
    given buffer or does not decode at all. *)
Definition standard_browser : Browser :=
  {| File := option AudioBuffer;
     ArrayBuffer := option AudioBuffer;
     file_arrayBuffer := fun file => Normal file;
     decodeAudioData := fun bytes =>
       match bytes with
       | Some decoded => Normal decoded
       | None => Throw EncodingError
       end;
     rateSupported := standard_rates |}.

(** An engine after [initialize()]. *)
Definition initialized_engine : Engine :=
  exec (initialize (Normal BaseAudioContext)) new_engine.

(** Ten seconds of decoded audio. *)
Definition ten_seconds : AudioBuffer :=
  {| buffer_length := 100; buffer_sampleRate := 10;
     buffer_channelData := [] |}.

(** An engine after [initialize()] and a successful [loadAudioFile]. *)
Definition loaded_engine : Engine :=
  exec (loadAudioFile (browser := standard_browser) (Some ten_seconds))
       initialized_engine.

End AudioSyncEngine.

(** ** The Peer Connection Manager ([class P2PManager]) *)

Module P2PManager.

Open Scope js_scope.
Open Scope string_scope.
Open Scope list_scope.

(** *** WebRTC objects the manager holds *)

(** [RTCPeerConnection.connectionState] *)
Inductive RTCPeerConnectionState : Type :=
| pc_new | pc_connecting | pc_connected | pc_disconnected | pc_failed
| pc_closed.

(** [RTCDataChannel.readyState] *)
Inductive RTCDataChannelState : Type :=
| channel_connecting | channel_open | channel_closing | channel_closed.

Definition SessionDescription : Type := string.
Definition IceCandidate : Type := string.

(** A peer connection as the manager's calls and the browser leave it:
    its connection state, the descriptions set on it and the remote
    candidates it has taken. *)
Record RTCPeerConnection : Type := {
  pc_connectionState : RTCPeerConnectionState;
  localDescription : option SessionDescription;
  remoteDescription : option SessionDescription;
  remoteCandidates : list IceCandidate
}.

Definition is_closed (pc : RTCPeerConnection) : bool :=
  match pc_connectionState pc with pc_closed => true | _ => false end.

(** [new RTCPeerConnection(configuration)] *)
Definition new_RTCPeerConnection : RTCPeerConnection :=
  {| pc_connectionState := pc_new; localDescription := None;
     remoteDescription := None; remoteCandidates := [] |}.

(** [pc.setLocalDescription(d)] and [pc.setRemoteDescription(d)]: an
    [InvalidStateError] on a closed connection. *)
Definition setLocalDescription (d : SessionDescription) (pc : RTCPeerConnection)
  : Completion RTCPeerConnection :=
  if is_closed pc then Throw InvalidStateError
  else Normal {| pc_connectionState := pc_connectionState pc;
                 localDescription := Some d;
                 remoteDescription := remoteDescription pc;
                 remoteCandidates := remoteCandidates pc |}.

Definition setRemoteDescription (d : SessionDescription) (pc : RTCPeerConnection)
  : Completion RTCPeerConnection :=
  if is_closed pc then Throw InvalidStateError
  else Normal {| pc_connectionState := pc_connectionState pc;
                 localDescription := localDescription pc;
                 remoteDescription := Some d;
                 remoteCandidates := remoteCandidates pc |}.

(** [pc.addIceCandidate(candidate)]: the promise rejects with
    [InvalidStateError] on a closed connection or before a remote
    description is set; otherwise the connection takes the candidate. *)
Definition pc_addIceCandidate (candidate : IceCandidate) (pc : RTCPeerConnection)
  : Completion RTCPeerConnection :=
  if is_closed pc then Throw InvalidStateError
  else match remoteDescription pc with
       | None => Throw InvalidStateError
       | Some _ =>
           Normal {| pc_connectionState := pc_connectionState pc;
                     localDescription := localDescription pc;
                     remoteDescription := remoteDescription pc;
                     remoteCandidates := remoteCandidates pc ++ [candidate] |}
       end.

(** [pc.close()] *)
Definition pc_close (pc : RTCPeerConnection) : RTCPeerConnection :=
  {| pc_connectionState := pc_closed;
     localDescription := localDescription pc;
     remoteDescription := remoteDescription pc;
     remoteCandidates := remoteCandidates pc |}.

Section Manager.

(** What the application sends over the data channel. *)
Variable Data : Type.

(** A data channel: its ready state and the messages handed to
    [send], oldest first; each goes out as its [JSON.stringify] text. *)
Record RTCDataChannel : Type := {
  readyState : RTCDataChannelState;
  sent : list Data
}.

(** [pc.createDataChannel('audio-sync', ...)] *)
Definition new_RTCDataChannel : RTCDataChannel :=
  {| readyState := channel_connecting; sent := [] |}.

(** [channel.send(message)]: an [InvalidStateError] unless open. *)
Definition channel_send (message : Data) (ch : RTCDataChannel)
  : Completion RTCDataChannel :=
  match readyState ch with
  | channel_open => Normal {| readyState := channel_open;
                              sent := sent ch ++ [message] |}
  | _ => Throw InvalidStateError
  end.

(** [channel.close()] *)
Definition channel_close (ch : RTCDataChannel) : RTCDataChannel :=
  match readyState ch with
  | channel_closed => ch
  | _ => {| readyState := channel_closing; sent := sent ch |}
  end.

(** *** The manager's fields *)
Record Manager : Type := {
  peerConnection : option RTCPeerConnection;
  dataChannel : option RTCDataChannel;
  isHost : bool;
  connectionState : RTCPeerConnectionState
}.

(** [constructor(onMessage, onStateChange)]; the two callbacks are the
    application's and are modelled where a handler calls them. *)
Definition new_manager : Manager :=
  {| peerConnection := None; dataChannel := None; isHost := false;
     connectionState := pc_disconnected |}.

Definition with_peerConnection (v : option RTCPeerConnection) (m : Manager)
  : Manager :=
  {| peerConnection := v; dataChannel := dataChannel m; isHost := isHost m;
     connectionState := connectionState m |}.

Definition with_dataChannel (v : option RTCDataChannel) (m : Manager)
  : Manager :=
  {| peerConnection := peerConnection m; dataChannel := v; isHost := isHost m;
     connectionState := connectionState m |}.

Definition with_isHost (v : bool) (m : Manager) : Manager :=
  {| peerConnection := peerConnection m; dataChannel := dataChannel m;
     isHost := v; connectionState := connectionState m |}.

Definition with_connectionState (v : RTCPeerConnectionState) (m : Manager)
  : Manager :=
  {| peerConnection := peerConnection m; dataChannel := dataChannel m;
     isHost := isHost m; connectionState := v |}.

(** *** What the manager calls on the application *)

Inductive CallbackData : Type :=
| candidate_data (candidate : IceCandidate)
| channel_data (data : Data).

Inductive Upcall : Type :=
| onMessage (type : string) (data : CallbackData)
| onStateChange (state : string).

(** *** Methods *)

Definition initialize (host : bool) : M Manager unit :=
  modify (with_isHost host) ;;
  modify (with_peerConnection (Some new_RTCPeerConnection)) ;;
  if host
  then modify (with_dataChannel (Some new_RTCDataChannel))
  else ret tt.

(** [createOffer()]; [offer] is the description the browser generates. *)
Definition createOffer (offer : SessionDescription)
  : M Manager (option SessionDescription) :=
  this <- get ;;
  match peerConnection this with
  | None => ret None
  | Some pc =>
      pc' <- lift (setLocalDescription offer pc) ;;
      modify (with_peerConnection (Some pc')) ;;
      ret (Some offer)
  end.

(** [createAnswer(offer)]; [answer] is the description the browser
    generates. *)
Definition createAnswer (offer answer : SessionDescription)
  : M Manager (option SessionDescription) :=
  this <- get ;;
  match peerConnection this with
  | None => ret None
  | Some pc =>
      pc1 <- lift (setRemoteDescription offer pc) ;;
      modify (with_peerConnection (Some pc1)) ;;
      pc2 <- lift (setLocalDescription answer pc1) ;;
      modify (with_peerConnection (Some pc2)) ;;
      ret (Some answer)
  end.

Definition handleAnswer (answer : SessionDescription) : M Manager unit :=
  this <- get ;;
  match peerConnection this with
  | Some pc =>
      pc' <- lift (setRemoteDescription answer pc) ;;
      modify (with_peerConnection (Some pc'))
  | None => ret tt
  end.

Definition addIceCandidate (candidate : IceCandidate) : M Manager unit :=
  this <- get ;;
  match peerConnection this with
  | Some pc =>
      pc' <- lift (pc_addIceCandidate candidate pc) ;;
      modify (with_peerConnection (Some pc'))
  | None => ret tt
  end.

Definition sendData (data : Data) : M Manager unit :=
  this <- get ;;
  match dataChannel this with
  | Some ch =>
      match readyState ch with
      | channel_open =>
          ch' <- lift (channel_send data ch) ;;
          modify (with_dataChannel (Some ch'))
      | _ => ret tt
      end
  | None => ret tt
  end.

Definition close : M Manager unit :=
  this <- get ;;
  match dataChannel this with
  | Some ch => modify (with_dataChannel (Some (channel_close ch)))
  | None => ret tt
  end ;;
  match peerConnection this with
  | Some pc => modify (with_peerConnection (Some (pc_close pc)))
  | None => ret tt
  end.

(** *** Event handlers

    A handler returns the calls it makes on the application. *)

(** [peerConnection.onicecandidate]; [candidate] is [event.candidate],
    [None] when gathering has ended. *)
Definition onicecandidate (candidate : option IceCandidate) : list Upcall :=
  match candidate with
  | Some c => [onMessage "ice-candidate" (candidate_data c)]
  | None => []
  end.

Definition state_name (s : RTCPeerConnectionState) : string :=
  match s with
  | pc_new => "new"
  | pc_connecting => "connecting"
  | pc_connected => "connected"
  | pc_disconnected => "disconnected"
  | pc_failed => "failed"
  | pc_closed => "closed"
  end.

(** [peerConnection.onconnectionstatechange] *)
Definition onconnectionstatechange : M Manager (list Upcall) :=
  this <- get ;;
  match peerConnection this with
  | Some pc =>
      modify (with_connectionState (pc_connectionState pc)) ;;
      ret [onStateChange (state_name (pc_connectionState pc))]
  | None => throw TypeError
  end.

(** [peerConnection.ondatachannel] on the client; [channel] is
    [event.channel]. *)
Definition ondatachannel (channel : RTCDataChannel) : M Manager unit :=
  modify (with_dataChannel (Some channel)).

(** [dataChannel.onopen] and [dataChannel.onclose] *)
Definition onopen : list Upcall := [onStateChange "connected"].
Definition onclose : list Upcall := [onStateChange "disconnected"].

(** *** The phases of the negotiation

    The source keeps no phase field: the idle, negotiating, connected
    and closed of the specification are read off the manager's objects. *)
Inductive Phase : Type := idle | negotiating | connected | closed.

Definition channel_is_open (m : Manager) : bool :=
  match dataChannel m with
  | Some ch => match readyState ch with channel_open => true | _ => false end
  | None => false
  end.

Definition phase (m : Manager) : Phase :=
  match peerConnection m with
  | None => idle
  | Some pc =>
      if is_closed pc then closed
      else if channel_is_open m then connected
      else negotiating
  end.

(** The messages handed to the data channel so far. *)
Definition transmitted (m : Manager) : list Data :=
  match dataChannel m with
  | Some ch => sent ch
  | None => []
  end.

(** Candidates applied one after the other, as they arrive; a rejected
    one leaves an unhandled rejection behind and the next is applied to
    the fields as they are. *)
Definition apply_candidates (candidates : list IceCandidate) (m : Manager)
  : Manager :=
  fold_left (fun m c => exec (addIceCandidate c) m) candidates m.

End Manager.

Arguments readyState {Data} r.
Arguments sent {Data} r.
Arguments channel_send {Data} message ch.
Arguments channel_close {Data} ch.
Arguments peerConnection {Data} m.
Arguments dataChannel {Data} m.
Arguments isHost {Data} m.
Arguments connectionState {Data} m.
Arguments with_peerConnection {Data} v m.
Arguments with_dataChannel {Data} v m.
Arguments with_isHost {Data} v m.
Arguments with_connectionState {Data} v m.
Arguments candidate_data {Data} candidate.
Arguments channel_data {Data} data.
Arguments onMessage {Data} type data.
Arguments onStateChange {Data} state.
Arguments initialize {Data} host.
Arguments createOffer {Data} offer.
Arguments createAnswer {Data} offer answer.
Arguments handleAnswer {Data} answer.
Arguments addIceCandidate {Data} candidate.
Arguments sendData {Data} data.
Arguments close {Data}.
Arguments onicecandidate {Data} candidate.
Arguments onconnectionstatechange {Data}.
Arguments ondatachannel {Data} channel.
Arguments onopen {Data}.
Arguments onclose {Data}.
Arguments channel_is_open {Data} m.
Arguments phase {Data} m.
Arguments transmitted {Data} m.
Arguments apply_candidates {Data} candidates m.

End P2PManager.

(** ** The session glue ([function App]): forwarding to the relay *)

Module App.

Import P2PManager.

Open Scope js_scope.
Open Scope string_scope.
Open Scope list_scope.

Section Glue.

(** What peers exchange over the data channel. *)
Variable Data : Type.

(** [WebSocket.readyState] *)
Inductive WebSocketState : Type :=
| CONNECTING | OPEN | CLOSING | CLOSED.

(** The negotiation envelopes the component sends to the relay. *)
Inductive Envelope : Type :=
| webrtc_offer (offer : option SessionDescription) (target_id : string)
| webrtc_answer (answer : option SessionDescription) (target_id : string)
| webrtc_ice_candidate (candidate : CallbackData Data) (target_id : string).

Definition envelope_type (message : Envelope) : string :=
  match message with
  | webrtc_offer _ _ => "webrtc_offer"
  | webrtc_answer _ _ => "webrtc_answer"
  | webrtc_ice_candidate _ _ => "webrtc_ice_candidate"
  end.

Definition target_id (message : Envelope) : string :=
  match message with
  | webrtc_offer _ t => t
  | webrtc_answer _ t => t
  | webrtc_ice_candidate _ t => t
  end.

(** The socket to the relay: its ready state and the envelopes handed
    to [send], oldest first; each goes out as its [JSON.stringify] text. *)
Record WebSocket : Type := {
  ws_readyState : WebSocketState;
  ws_sent : list Envelope
}.

(** The part of the component's state the forwarding touches:
    [wsConnection.current] and the [connectionState] React state. *)
Record State : Type := {
  wsConnection : option WebSocket;
  connectionState : string
}.

Definition with_wsConnection (v : option WebSocket) (s : State) : State :=
  {| wsConnection := v; connectionState := connectionState s |}.

Definition setConnectionState (v : string) : M State unit :=
  modify (fun s => {| wsConnection := wsConnection s; connectionState := v |}).

(** [handleP2PData], the handler of messages from the data channel. *)
Variable handleP2PData : CallbackData Data -> M State unit.

Definition sendWebSocketMessage (message : Envelope) : M State unit :=
  this <- get ;;
  match wsConnection this with
  | Some ws =>
      match ws_readyState ws with
      | OPEN =>
          modify (with_wsConnection
                    (Some {| ws_readyState := OPEN;
                             ws_sent := ws_sent ws ++ [message] |}))
      | _ => ret tt
      end
  | None => ret tt
  end.

(** The two callbacks [initializeP2P] gives to [new P2PManager]. *)
Definition p2p_onMessage (type : string) (data : CallbackData Data)
  : M State unit :=
  if String.eqb type "ice-candidate"
  then sendWebSocketMessage (webrtc_ice_candidate data "broadcast")
  else if String.eqb type "data"
       then handleP2PData data
       else ret tt.

Definition p2p_onStateChange (state : string) : M State unit :=
  setConnectionState state.

(** The manager calling the application. *)
Definition upcall (u : Upcall Data) : M State unit :=
  match u with
  | onMessage type data => p2p_onMessage type data
  | onStateChange state => p2p_onStateChange state
  end.

Fixpoint upcalls (us : list (Upcall Data)) : M State unit :=
  match us with
  | [] => ret tt
  | u :: us' => upcall u ;; upcalls us'
  end.

(** The browser reporting an ICE candidate of the peer connection
    ([None]: gathering has ended). *)
Definition ice_candidate_event (candidate : option IceCandidate)
  : M State unit :=
  upcalls (onicecandidate candidate).

(** The envelopes handed to the relay socket so far. *)
Definition outbox (s : State) : list Envelope :=
  match wsConnection s with
  | Some ws => ws_sent ws
  | None => []
  end.

Definition socket_is_open (s : State) : bool :=
  match wsConnection s with
  | Some ws => match ws_readyState ws with OPEN => true | _ => false end
  | None => false
  end.

End Glue.

Arguments webrtc_offer {Data} offer target_id.
Arguments webrtc_answer {Data} answer target_id.
Arguments webrtc_ice_candidate {Data} candidate target_id.
Arguments envelope_type {Data} message.
Arguments target_id {Data} message.
Arguments ws_readyState {Data} w.
Arguments ws_sent {Data} w.
Arguments wsConnection {Data} s.
Arguments connectionState {Data} s.
Arguments with_wsConnection {Data} v s.
Arguments setConnectionState {Data} v.
Arguments sendWebSocketMessage {Data} message.
Arguments p2p_onStateChange {Data} state.
Arguments outbox {Data} s.
Arguments socket_is_open {Data} s.

End App.

(** ** Further notions about the engine's states and streams *)

Module EngineStates.

Import AudioSyncEngine.

Open Scope js_scope.

(** [node.stop()] as it shows on the node. *)
Definition stopped_node (n : AudioBufferSourceNode) : AudioBufferSourceNode :=
  {| node_buffer := node_buffer n; node_connected := node_connected n;
     node_started := node_started n; node_stopped := true |}.

(** The node [play(startOffset)] creates for the loaded buffer. *)
Definition file_node (b : option AudioBuffer) (startOffset : Q)
  : AudioBufferSourceNode :=
  {| node_buffer := b; node_connected := true;
     node_started := Some (0, startOffset); node_stopped := false |}.

(** The graph with the engine's current source node stopped. *)
Definition graph_after_stop (e : Engine) : list AudioBufferSourceNode :=
  match sourceNode e with
  | Some i => alter stopped_node i (graph e)
  | None => graph e
  end.

(** The engine as a [stop()] that did not throw leaves it. *)
Definition stopped (e : Engine) : Engine :=
  with_pauseTime 0
    (with_startTime 0
       (with_isPlaying false
          (with_sourceNode None (with_graph (graph_after_stop e) e)))).

(** The node [play] has created, given its buffer and connected when
    [start] is called on it. *)
Definition unstarted_node (b : option AudioBuffer) : AudioBufferSourceNode :=
  {| node_buffer := b; node_connected := true;
     node_started := None; node_stopped := false |}.

(** The engine as [play(startOffset)] leaves it when the audio clock
    shows [now]: with the new node started and [isPlaying] set, or, when
    [start] threw, with the new node current but never started. *)
Definition restarted (now startOffset : Q) (e : Engine) : Engine :=
  {| audioContext := audioContext e; audioBuffer := audioBuffer e;
     sourceNode := Some (length (graph e)); gainNode := gainNode e;
     startTime := now - startOffset; pauseTime := 0; isPlaying := true;
     nextPlayTime := nextPlayTime e;
     graph := graph_after_stop e ++ [file_node (audioBuffer e) startOffset] |}.

Definition start_failed (now startOffset : Q) (e : Engine) : Engine :=
  {| audioContext := audioContext e; audioBuffer := audioBuffer e;
     sourceNode := Some (length (graph e)); gainNode := gainNode e;
     startTime := now - startOffset; pauseTime := 0; isPlaying := false;
     nextPlayTime := nextPlayTime e;
     graph := graph_after_stop e ++ [unstarted_node (audioBuffer e)] |}.

(** The engine as [pause()] leaves a playing engine. *)
Definition paused (now : Q) (e : Engine) : Engine :=
  with_isPlaying false
    (with_graph (graph_after_stop e)
       (with_pauseTime (now - startTime e) e)).

(** The [isPlaying] flag agrees with the node [sourceNode] refers to:
    the reference points into the store, and the engine is playing
    exactly when that node has been started and not stopped; with no
    current node it is not playing. *)
Definition current_node_agrees (e : Engine) : Prop :=
  match sourceNode e with
  | Some i =>
      exists n, graph e !! i = Some n /\
                isPlaying e = truthy (node_started n) && negb (node_stopped n)
  | None => isPlaying e = false
  end.

(** The playing time of a sequence of chunks. *)
Fixpoint total_duration (arrivals : list (Q * Chunk)) : Q :=
  match arrivals with
  | [] => 0
  | (_, c) :: rest => chunk_duration c + total_duration rest
  end.

(** No chunk after the first arrives later than the end of the one
    before it: the stream never starves. *)
Fixpoint never_starves (previousEnd : Q)
  (arrivals : list (Q * Chunk)) : Prop :=
  match arrivals with
  | [] => True
  | (now, c) :: rest =>
      now <= previousEnd /\
      never_starves (previousEnd + chunk_duration c) rest
  end.

(** An engine as a short history of calls leaves it: initialised, a
    file of ten seconds loaded, playing from offset 2 since the audio
    clock showed 5. *)
Definition playing_engine : Engine :=
  exec (call (Play (browser := standard_browser) 5 2))
    (exec (call (LoadAudioFile (browser := standard_browser)
                   (Some ten_seconds)))
       (exec (call (Initialize (browser := standard_browser)
                      (Normal BaseAudioContext)))
             new_engine)).

(** That engine after a [play] with a negative offset. *)
Definition broken_engine : Engine :=
  exec (call (Play (browser := standard_browser) 6 (-1))) playing_engine.

(** Two chunks that arrive together on an initialised engine. *)
Definition first_chunk : Chunk :=
  {| audioData := [0.5; 0.25]; timestamp := 0; sampleRate := Some 8000 |}.

Definition second_chunk : Chunk :=
  {| audioData := [0.125]; timestamp := 1; sampleRate := None |}.

Definition streaming_engine : Engine :=
  run_chunks (browser := standard_browser)
    [(3, first_chunk); (3, second_chunk)] initialized_engine.

End EngineStates.

(** ** Runs of the manager *)

Module ManagerRuns.

Import P2PManager.

(** Payloads handed to [sendData] one after the other. *)
Definition send_all {Data : Type} (payloads : list Data) (m : Manager Data)
  : Manager Data :=
  fold_left (fun m d => exec (sendData d) m) payloads m.

End ManagerRuns.

(** ** Live capture: the host side of [class AudioSyncEngine] *)

Module LiveCapture.

Import AudioSyncEngine.

Open Scope js_scope.

(** A method of an object held in a field: it runs on the field's value
    and the result is stored back. *)
Definition zoom {S T A : Type} (view : S -> T) (update : T -> S -> S)
  (m : M T A) : M S A :=
  fun s => let (c, t') := m (view s) in (c, update t' s).

(** A [MediaStream]: for each of its tracks, whether [stop()] has been
    called on it. *)
Record MediaStream : Type := {
  tracks_stopped : list bool
}.

(** [stream.getTracks().forEach(track => track.stop())] *)
Definition stop_tracks (stream : MediaStream) : MediaStream :=
  {| tracks_stopped := map (fun _ => true) (tracks_stopped stream) |}.

(** The [MediaStreamAudioSourceNode] and the [ScriptProcessorNode] of
    the capture chain, with what they are connected to. *)
Record MediaStreamAudioSourceNode : Type := {
  source_stream : nat;
  source_to_processor : bool
}.

Record ScriptProcessorNode : Type := {
  bufferSize : nat;
  processor_to_gain : bool
}.

Section Capture.

(** The application's [onAudioChunk] functions. *)
Variable Callback : Type.

(** The engine with its capture fields.  [playback] holds the fields of
    file and chunk playback; [mediaStream] is a reference into
    [streams], the store of the streams the microphone has handed out. *)
Record Broadcaster : Type := {
  playback : Engine;
  mediaStream : option nat;
  isLiveBroadcasting : bool;
  onAudioChunk : option Callback;
  scriptProcessor : option ScriptProcessorNode;
  sourceAudioNode : option MediaStreamAudioSourceNode;
  streams : list MediaStream
}.

(** [constructor()] *)
Definition new_broadcaster : Broadcaster :=
  {| playback := new_engine; mediaStream := None;
     isLiveBroadcasting := false; onAudioChunk := None;
     scriptProcessor := None; sourceAudioNode := None; streams := [] |}.

Definition with_playback (v : Engine) (b : Broadcaster) : Broadcaster :=
  {| playback := v; mediaStream := mediaStream b;
     isLiveBroadcasting := isLiveBroadcasting b;
     onAudioChunk := onAudioChunk b; scriptProcessor := scriptProcessor b;
     sourceAudioNode := sourceAudioNode b; streams := streams b |}.

Definition with_mediaStream (v : option nat) (b : Broadcaster) : Broadcaster :=
  {| playback := playback b; mediaStream := v;
     isLiveBroadcasting := isLiveBroadcasting b;
     onAudioChunk := onAudioChunk b; scriptProcessor := scriptProcessor b;
     sourceAudioNode := sourceAudioNode b; streams := streams b |}.

Definition with_isLiveBroadcasting (v : bool) (b : Broadcaster) : Broadcaster :=
  {| playback := playback b; mediaStream := mediaStream b;
     isLiveBroadcasting := v;
     onAudioChunk := onAudioChunk b; scriptProcessor := scriptProcessor b;
     sourceAudioNode := sourceAudioNode b; streams := streams b |}.

Definition with_onAudioChunk (v : option Callback) (b : Broadcaster)
  : Broadcaster :=
  {| playback := playback b; mediaStream := mediaStream b;
     isLiveBroadcasting := isLiveBroadcasting b;
     onAudioChunk := v; scriptProcessor := scriptProcessor b;
     sourceAudioNode := sourceAudioNode b; streams := streams b |}.

Definition with_scriptProcessor (v : option ScriptProcessorNode)
  (b : Broadcaster) : Broadcaster :=
  {| playback := playback b; mediaStream := mediaStream b;
     isLiveBroadcasting := isLiveBroadcasting b;
     onAudioChunk := onAudioChunk b; scriptProcessor := v;
     sourceAudioNode := sourceAudioNode b; streams := streams b |}.

Definition with_sourceAudioNode (v : option MediaStreamAudioSourceNode)
  (b : Broadcaster) : Broadcaster :=
  {| playback := playback b; mediaStream := mediaStream b;
     isLiveBroadcasting := isLiveBroadcasting b;
     onAudioChunk := onAudioChunk b; scriptProcessor := scriptProcessor b;
     sourceAudioNode := v; streams := streams b |}.

Definition with_streams (v : list MediaStream) (b : Broadcaster) : Broadcaster :=
  {| playback := playback b; mediaStream := mediaStream b;
     isLiveBroadcasting := isLiveBroadcasting b;
     onAudioChunk := onAudioChunk b; scriptProcessor := scriptProcessor b;
     sourceAudioNode := sourceAudioNode b; streams := v |}.

(** A playback method called on the engine. *)
Definition on_playback {A : Type} (m : M Engine A) : M Broadcaster A :=
  zoom playback with_playback m.

(** [requestMicrophoneAccess()]; [getUserMedia] is how the browser's
    [navigator.mediaDevices.getUserMedia] promise settles. *)
Definition requestMicrophoneAccess (getUserMedia : Completion MediaStream)
  : M Broadcaster bool :=
  try_catch
    (stream <- lift getUserMedia ;;
     this <- get ;;
     modify (with_streams (streams this ++ [stream])) ;;
     modify (with_mediaStream (Some (length (streams this)))) ;;
     ret true)
    (fun _ => ret false).

(** [startLiveBroadcast(onAudioChunk)]; [sourceCreated] and
    [processorCreated] are how [createMediaStreamSource] and
    [createScriptProcessor] complete in this browser. *)
Definition startLiveBroadcast (sourceCreated processorCreated : Completion unit)
  (callback : Callback) : M Broadcaster bool :=
  this <- get ;;
  match mediaStream this, audioContext (playback this) with
  | Some stream, Some _ =>
      try_catch
        (modify (with_onAudioChunk (Some callback)) ;;
         modify (with_isLiveBroadcasting true) ;;
         lift sourceCreated ;;
         modify (with_sourceAudioNode
                   (Some {| source_stream := stream;
                            source_to_processor := false |})) ;;
         lift processorCreated ;;
         modify (with_scriptProcessor
                   (Some {| bufferSize := 4096;
                            processor_to_gain := false |})) ;;
         modify (with_sourceAudioNode
                   (Some {| source_stream := stream;
                            source_to_processor := true |})) ;;
         match gainNode (playback this) with
         | Some _ =>
             modify (with_scriptProcessor
                       (Some {| bufferSize := 4096;
                                processor_to_gain := true |}))
         | None => throw TypeError
         end ;;
         ret true)
        (fun _ => ret false)
  | _, _ => ret false
  end.

(** [stopLiveBroadcast()]: the two nodes are disconnected and dropped,
    the tracks of the stream stopped and the stream dropped. *)
Definition stopLiveBroadcast : M Broadcaster unit :=
  modify (with_isLiveBroadcasting false) ;;
  this <- get ;;
  match scriptProcessor this with
  | Some _ => modify (with_scriptProcessor None)
  | None => ret tt
  end ;;
  match sourceAudioNode this with
  | Some _ => modify (with_sourceAudioNode None)
  | None => ret tt
  end ;;
  match mediaStream this with
  | Some stream =>
      modify (with_streams (alter stop_tracks stream (streams this))) ;;
      modify (with_mediaStream None)
  | None => ret tt
  end.

(** [scriptProcessor.onaudioprocess], the handler [startLiveBroadcast]
    installs.  [inputData] is channel 0 of the event's input buffer,
    [perfNow] what [performance.now()] shows and [contextRate] the
    audio context's [sampleRate].  It returns the call it makes on the
    application: the callback and the chunk handed to it. *)
Definition onaudioprocess (inputData : list Q) (perfNow contextRate : Q)
  : M Broadcaster (option (Callback * Chunk)) :=
  this <- get ;;
  if negb (isLiveBroadcasting this)
  then ret None
  else
    match onAudioChunk this with
    | Some callback =>
        match audioContext (playback this) with
        | Some _ =>
            ret (Some (callback,
                       {| audioData := inputData; timestamp := perfNow;
                          sampleRate := Some contextRate |}))
        | None => throw TypeError
        end
    | None => ret None
    end.

(** Every track of the stream has been stopped: the microphone behind
    it is released. *)
Definition stream_released (stream : MediaStream) : Prop :=
  Forall (fun stopped => stopped = true) (tracks_stopped stream).

End Capture.

Arguments playback {Callback} b.
Arguments mediaStream {Callback} b.
Arguments isLiveBroadcasting {Callback} b.
Arguments onAudioChunk {Callback} b.
Arguments scriptProcessor {Callback} b.
Arguments sourceAudioNode {Callback} b.
Arguments streams {Callback} b.
Arguments with_playback {Callback} v b.
Arguments with_mediaStream {Callback} v b.
Arguments with_isLiveBroadcasting {Callback} v b.
Arguments with_onAudioChunk {Callback} v b.
Arguments with_scriptProcessor {Callback} v b.
Arguments with_sourceAudioNode {Callback} v b.
Arguments with_streams {Callback} v b.
Arguments on_playback {Callback A} m.
Arguments requestMicrophoneAccess {Callback} getUserMedia.
Arguments startLiveBroadcast {Callback} sourceCreated processorCreated callback.
Arguments stopLiveBroadcast {Callback}.
Arguments onaudioprocess {Callback} inputData perfNow contextRate.

(** An initialised engine that holds a microphone stream with one
    track. *)
Definition armed_broadcaster : Broadcaster unit :=
  exec (requestMicrophoneAccess (Normal {| tracks_stopped := [false] |}))
       (with_playback initialized_engine (new_broadcaster unit)).

End LiveCapture.

(** ** The session component ([function App]): its handlers *)

Module Session.

Import P2PManager.
Import App.
Import LiveCapture.

Open Scope js_scope.
Open Scope string_scope.
Open Scope list_scope.
Open Scope Q_scope.

(** *** [formatTime] *)

(** [Math.trunc]: rounding towards zero. *)
Definition Qtruncate (x : Q) : Z :=
  if Qle_bool 0 x then Qfloor x else Qceiling x.

(** [x % y] on numbers: the remainder has the sign of [x]. *)
Definition js_remainder (x y : Q) : Q :=
  x - y * inject_Z (Qtruncate (x / y)).

(** [n.toString()] of an integer. *)
Definition toString (n : Z) : string :=
  NilEmpty.string_of_int (Z.to_int n).

Fixpoint repeat_char (n : nat) (c : ascii) : string :=
  match n with
  | O => EmptyString
  | S n' => String c (repeat_char n' c)
  end.

(** [s.padStart(targetLength, c)] with a one-character pad. *)
Definition padStart (targetLength : nat) (c : ascii) (s : string) : string :=
  repeat_char (targetLength - String.length s) c ++ s.

(** [formatTime(seconds)].  Numbers are exact here.  For a time of at
    most 2^53 seconds the source's doubles show the same digits: the
    remainder is exact, the division by 60 cannot round across a whole
    minute, and both fields are integers that print digit for digit. *)
Definition formatTime (seconds : Q) : string :=
  let mins := Qfloor (seconds / 60) in
  let secs := Qfloor (js_remainder seconds 60) in
  toString mins ++ ":" ++ padStart 2 "0"%char (toString secs).

(** Reading a decimal integer back. *)
Definition parseInt (s : string) : option Z :=
  option_map Z.of_int (NilEmpty.int_of_string s).

Section Handlers.

Context {browser : AudioSyncEngine.Browser}.

Abbreviation Engine := AudioSyncEngine.Engine.
Abbreviation File := AudioSyncEngine.File.

(** *** What travels over the data channel *)

Inductive DataMessage : Type :=
| sync_state (playback_position : Q) (is_playing : bool) (timestamp : Q)
| audio_chunk (audioData : list Q) (timestamp : Q) (sampleRate : option Q)
| other_data (type : string).

(** The function [startLiveBroadcast] hands to the engine as
    [onAudioChunk]. *)
Inductive ChunkCallback : Type := send_chunk_to_peers.

(** *** The component's state: React state and refs

    [audioEngine], [p2pManager] and [relay] (the relay socket with the
    connection state shown) are the refs; the other fields are React
    state.  A handler reads the React state of the render that created
    it and sees its own [set...] calls only in the next render, so each
    handler below reads the state once, on entry. *)
Record Component : Type := {
  mode : string;
  isPlaying : bool;
  currentTime : Q;
  duration : Q;
  volume : Q;
  audioFile : option File;
  hasMicrophoneAccess : bool;
  isLiveBroadcasting : bool;
  broadcastMode : string;
  audioEngine : Broadcaster ChunkCallback;
  p2pManager : option (Manager DataMessage);
  relay : State DataMessage
}.

Definition with_mode (v : string) (s : Component) : Component :=
  {| mode := v;
     isPlaying := isPlaying s;
     currentTime := currentTime s;
     duration := duration s;
     volume := volume s;
     audioFile := audioFile s;
     hasMicrophoneAccess := hasMicrophoneAccess s;
     isLiveBroadcasting := isLiveBroadcasting s;
     broadcastMode := broadcastMode s;
     audioEngine := audioEngine s;
     p2pManager := p2pManager s;
     relay := relay s |}.

Definition with_isPlaying (v : bool) (s : Component) : Component :=
  {| mode := mode s;
     isPlaying := v;
     currentTime := currentTime s;
     duration := duration s;
     volume := volume s;
     audioFile := audioFile s;
     hasMicrophoneAccess := hasMicrophoneAccess s;
     isLiveBroadcasting := isLiveBroadcasting s;
     broadcastMode := broadcastMode s;
     audioEngine := audioEngine s;
     p2pManager := p2pManager s;
     relay := relay s |}.

Definition with_currentTime (v : Q) (s : Component) : Component :=
  {| mode := mode s;
     isPlaying := isPlaying s;
     currentTime := v;
     duration := duration s;
     volume := volume s;
     audioFile := audioFile s;
     hasMicrophoneAccess := hasMicrophoneAccess s;
     isLiveBroadcasting := isLiveBroadcasting s;
     broadcastMode := broadcastMode s;
     audioEngine := audioEngine s;
     p2pManager := p2pManager s;
     relay := relay s |}.

Definition with_duration (v : Q) (s : Component) : Component :=
  {| mode := mode s;
     isPlaying := isPlaying s;
     currentTime := currentTime s;
     duration := v;
     volume := volume s;
     audioFile := audioFile s;
     hasMicrophoneAccess := hasMicrophoneAccess s;
     isLiveBroadcasting := isLiveBroadcasting s;
     broadcastMode := broadcastMode s;
     audioEngine := audioEngine s;
     p2pManager := p2pManager s;
     relay := relay s |}.

Definition with_volume (v : Q) (s : Component) : Component :=
  {| mode := mode s;
     isPlaying := isPlaying s;
     currentTime := currentTime s;
     duration := duration s;
     volume := v;
     audioFile := audioFile s;
     hasMicrophoneAccess := hasMicrophoneAccess s;
     isLiveBroadcasting := isLiveBroadcasting s;
     broadcastMode := broadcastMode s;
     audioEngine := audioEngine s;
     p2pManager := p2pManager s;
     relay := relay s |}.

Definition with_audioFile (v : option File) (s : Component) : Component :=
  {| mode := mode s;
     isPlaying := isPlaying s;
     currentTime := currentTime s;
     duration := duration s;
     volume := volume s;
     audioFile := v;
     hasMicrophoneAccess := hasMicrophoneAccess s;
     isLiveBroadcasting := isLiveBroadcasting s;
     broadcastMode := broadcastMode s;
     audioEngine := audioEngine s;
     p2pManager := p2pManager s;
     relay := relay s |}.

Definition with_hasMicrophoneAccess (v : bool) (s : Component) : Component :=
  {| mode := mode s;
     isPlaying := isPlaying s;
     currentTime := currentTime s;
     duration := duration s;
     volume := volume s;
     audioFile := audioFile s;
     hasMicrophoneAccess := v;
     isLiveBroadcasting := isLiveBroadcasting s;
     broadcastMode := broadcastMode s;
     audioEngine := audioEngine s;
     p2pManager := p2pManager s;
     relay := relay s |}.

Definition with_isLiveBroadcasting (v : bool) (s : Component) : Component :=
  {| mode := mode s;
     isPlaying := isPlaying s;
     currentTime := currentTime s;
     duration := duration s;
     volume := volume s;
     audioFile := audioFile s;
     hasMicrophoneAccess := hasMicrophoneAccess s;
     isLiveBroadcasting := v;
     broadcastMode := broadcastMode s;
     audioEngine := audioEngine s;
     p2pManager := p2pManager s;
     relay := relay s |}.

Definition with_broadcastMode (v : string) (s : Component) : Component :=
  {| mode := mode s;
     isPlaying := isPlaying s;
     currentTime := currentTime s;
     duration := duration s;
     volume := volume s;
     audioFile := audioFile s;
     hasMicrophoneAccess := hasMicrophoneAccess s;
     isLiveBroadcasting := isLiveBroadcasting s;
     broadcastMode := v;
     audioEngine := audioEngine s;
     p2pManager := p2pManager s;
     relay := relay s |}.

Definition with_audioEngine (v : Broadcaster ChunkCallback) (s : Component) : Component :=
  {| mode := mode s;
     isPlaying := isPlaying s;
     currentTime := currentTime s;
     duration := duration s;
     volume := volume s;
     audioFile := audioFile s;
     hasMicrophoneAccess := hasMicrophoneAccess s;
     isLiveBroadcasting := isLiveBroadcasting s;
     broadcastMode := broadcastMode s;
     audioEngine := v;
     p2pManager := p2pManager s;
     relay := relay s |}.

Definition with_p2pManager (v : option (Manager DataMessage)) (s : Component) : Component :=
  {| mode := mode s;
     isPlaying := isPlaying s;
     currentTime := currentTime s;
     duration := duration s;
     volume := volume s;
     audioFile := audioFile s;
     hasMicrophoneAccess := hasMicrophoneAccess s;
     isLiveBroadcasting := isLiveBroadcasting s;
     broadcastMode := broadcastMode s;
     audioEngine := audioEngine s;
     p2pManager := v;
     relay := relay s |}.

Definition with_relay (v : State DataMessage) (s : Component) : Component :=
  {| mode := mode s;
     isPlaying := isPlaying s;
     currentTime := currentTime s;
     duration := duration s;
     volume := volume s;
     audioFile := audioFile s;
     hasMicrophoneAccess := hasMicrophoneAccess s;
     isLiveBroadcasting := isLiveBroadcasting s;
     broadcastMode := broadcastMode s;
     audioEngine := audioEngine s;
     p2pManager := p2pManager s;
     relay := v |}.

(** The React state setters. *)
Definition setMode (v : string) : M Component unit :=
  modify (with_mode v).

Definition setIsPlaying (v : bool) : M Component unit :=
  modify (with_isPlaying v).

Definition setCurrentTime (v : Q) : M Component unit :=
  modify (with_currentTime v).

Definition setDuration (v : Q) : M Component unit :=
  modify (with_duration v).

Definition setVolume (v : Q) : M Component unit :=
  modify (with_volume v).

Definition setAudioFile (v : option File) : M Component unit :=
  modify (with_audioFile v).

Definition setHasMicrophoneAccess (v : bool) : M Component unit :=
  modify (with_hasMicrophoneAccess v).

Definition setIsLiveBroadcasting (v : bool) : M Component unit :=
  modify (with_isLiveBroadcasting v).

Definition setBroadcastMode (v : string) : M Component unit :=
  modify (with_broadcastMode v).

(** *** Calls on the objects behind the refs *)

Definition on_engine {A : Type} (m : M (Broadcaster ChunkCallback) A)
  : M Component A :=
  zoom audioEngine with_audioEngine m.

Definition on_player {A : Type} (m : M Engine A) : M Component A :=
  on_engine (on_playback m).

Definition on_relay {A : Type} (m : M (State DataMessage) A) : M Component A :=
  zoom relay with_relay m.

(** A method called on [p2pManager.current]; a [TypeError] when the ref
    is [null]. *)
Definition on_manager {A : Type} (m : M (Manager DataMessage) A)
  : M Component A :=
  fun s =>
    match p2pManager s with
    | Some manager =>
        let (c, manager') := m manager in
        (c, with_p2pManager (Some manager') s)
    | None => (Throw TypeError, s)
    end.

(** *** Playback controls of the host *)

(** [togglePlayback], clicked when the audio clock shows [now]. *)
Definition togglePlayback (now : Q) : M Component unit :=
  this <- get ;;
  if negb (String.eqb (mode this) "host")
  then ret tt
  else if isPlaying this
       then on_player (AudioSyncEngine.pause now) ;; setIsPlaying false
       else
         success <- on_player (AudioSyncEngine.play now (currentTime this)) ;;
         if success then setIsPlaying true else ret tt.

(** The two skip buttons:
    [seek(Math.max(0, currentTime - 10))] and
    [seek(Math.min(duration, currentTime + 10))]. *)
Definition skipBack (now : Q) : M Component unit :=
  this <- get ;;
  on_player (AudioSyncEngine.seek now (Qmax 0 (currentTime this - 10))).

Definition skipForward (now : Q) : M Component unit :=
  this <- get ;;
  on_player (AudioSyncEngine.seek now
               (Qmin (duration this) (currentTime this + 10))).

Definition handleVolumeChange (now : Q) (newVolume : Q) : M Component unit :=
  setVolume newVolume ;;
  on_player (AudioSyncEngine.setVolume now newVolume).

(** [handleFileUpload]; [upload] is [event.target.files[0]] with its
    MIME type, [None] when no file was chosen. *)
Definition handleFileUpload (upload : option (string * File))
  : M Component unit :=
  match upload with
  | Some (type, file) =>
      if String.prefix "audio/" type
      then
        setAudioFile (Some file) ;;
        success <- on_player (AudioSyncEngine.loadAudioFile file) ;;
        if success
        then
          this <- get ;;
          match AudioSyncEngine.audioBuffer (playback (audioEngine this)) with
          | Some loaded => setDuration (AudioSyncEngine.duration loaded)
          | None => throw TypeError
          end
        else ret tt
      else ret tt
  | None => ret tt
  end.

(** The interval the host runs while it plays: [syncInterval] gives the
    tick for the render it was set up in, if that render set one up
    (host mode, playing).  A tick runs when [performance.now()] shows
    [perfNow] and the audio clock [now]. *)
Definition sync_tick (render : Component) (perfNow now : Q) : M Component unit :=
  time <- on_player (AudioSyncEngine.getCurrentTime now) ;;
  setCurrentTime time ;;
  this <- get ;;
  match p2pManager this with
  | Some _ => on_manager (sendData (sync_state time (isPlaying render) perfNow))
  | None => ret tt
  end.

Definition syncInterval (render : Component)
  : option (Q -> Q -> M Component unit) :=
  if String.eqb (mode render) "host" && isPlaying render
  then Some (sync_tick render)
  else None.

(** *** Messages from the data channel *)

(** [handleP2PData(data)]; [mode] is the mode of the render whose
    handler was given to the manager. *)
Definition handleP2PData (mode : string) (perfNow now : Q) (data : DataMessage)
  : M Component unit :=
  match data with
  | sync_state playback_position is_playing timestamp =>
      if String.eqb mode "client"
      then
        on_player (AudioSyncEngine.syncWithHost perfNow now
                     playback_position timestamp) ;;
        setCurrentTime playback_position ;;
        setIsPlaying is_playing
      else ret tt
  | audio_chunk audioData timestamp sampleRate =>
      if String.eqb mode "client"
      then on_player (AudioSyncEngine.playAudioChunk now audioData timestamp
                        sampleRate)
      else ret tt
  | other_data _ => ret tt
  end.

(** *** Live broadcasting *)

(** The callback given to the engine: every captured chunk goes to the
    peers. *)
Definition chunk_callback (callback : ChunkCallback)
  (audioChunk : AudioSyncEngine.Chunk) : M Component unit :=
  this <- get ;;
  match p2pManager this with
  | Some _ =>
      on_manager (sendData (audio_chunk (AudioSyncEngine.audioData audioChunk)
                                        (AudioSyncEngine.timestamp audioChunk)
                                        (AudioSyncEngine.sampleRate audioChunk)))
  | None => ret tt
  end.

(** The browser delivering a captured frame to the script processor. *)
Definition capture_event (inputData : list Q) (perfNow contextRate : Q)
  : M Component unit :=
  emitted <- on_engine (onaudioprocess inputData perfNow contextRate) ;;
  match emitted with
  | Some (callback, audioChunk) => chunk_callback callback audioChunk
  | None => ret tt
  end.

Definition requestMicrophoneAccess (getUserMedia : Completion MediaStream)
  : M Component bool :=
  success <- on_engine (LiveCapture.requestMicrophoneAccess getUserMedia) ;;
  setHasMicrophoneAccess success ;;
  (if success then setBroadcastMode "live" else ret tt) ;;
  ret success.

Definition startLiveBroadcast (getUserMedia : Completion MediaStream)
  (sourceCreated processorCreated : Completion unit) : M Component unit :=
  this <- get ;;
  granted <- (if negb (hasMicrophoneAccess this)
              then requestMicrophoneAccess getUserMedia
              else ret true) ;;
  if negb granted
  then ret tt
  else
    success <- on_engine (LiveCapture.startLiveBroadcast
                            sourceCreated processorCreated
                            send_chunk_to_peers) ;;
    if success
    then setIsLiveBroadcasting true ;; setIsPlaying true
    else ret tt.

Definition stopLiveBroadcast : M Component unit :=
  on_engine LiveCapture.stopLiveBroadcast ;;
  setIsLiveBroadcasting false ;;
  setIsPlaying false.

Definition toggleLiveBroadcast (getUserMedia : Completion MediaStream)
  (sourceCreated processorCreated : Completion unit) : M Component unit :=
  this <- get ;;
  if isLiveBroadcasting this
  then stopLiveBroadcast
  else startLiveBroadcast getUserMedia sourceCreated processorCreated.

(** *** Negotiation through the relay *)

(** [initializeP2P(isHost)]; [offer] is the description the browser
    generates for the host. *)
Definition initializeP2P (host : bool) (offer : SessionDescription)
  : M Component unit :=
  modify (with_p2pManager (Some (new_manager DataMessage))) ;;
  on_manager (initialize host) ;;
  if host
  then
    created <- on_manager (createOffer offer) ;;
    on_relay (sendWebSocketMessage (webrtc_offer created "broadcast"))
  else ret tt.

(** [handleWebRTCOffer(offer, fromId)]; [mode] is the mode of the render
    whose handler the relay socket calls, [answer] the description the
    browser generates. *)
Definition handleWebRTCOffer (mode : string) (offer : SessionDescription)
  (fromId : string) (answer : SessionDescription) : M Component unit :=
  this <- get ;;
  match p2pManager this with
  | Some _ =>
      if String.eqb mode "client"
      then
        created <- on_manager (createAnswer offer answer) ;;
        on_relay (sendWebSocketMessage (webrtc_answer created fromId))
      else ret tt
  | None => ret tt
  end.

Definition handleWebRTCAnswer (answer : SessionDescription) : M Component unit :=
  this <- get ;;
  match p2pManager this with
  | Some _ => on_manager (handleAnswer answer)
  | None => ret tt
  end.

Definition handleWebRTCIceCandidate (candidate : IceCandidate)
  : M Component unit :=
  this <- get ;;
  match p2pManager this with
  | Some _ => on_manager (addIceCandidate candidate)
  | None => ret tt
  end.

(** *** What the component shows of its objects *)

(** The engine's playback fields. *)
Definition player (s : Component) : Engine := playback (audioEngine s).

(** What has been handed to the data channel so far. *)
Definition sent_to_peers (s : Component) : list DataMessage :=
  match p2pManager s with
  | Some manager => transmitted manager
  | None => []
  end.

End Handlers.

(** *** A concrete session *)

(** The component as [App] first renders it, once the effect that
    initialises the engine has run. *)
Definition initial_component
  : Component (browser := AudioSyncEngine.standard_browser) :=
  {| mode := "selector"; isPlaying := false; currentTime := 0;
     duration := 0; volume := 0.8; audioFile := None;
     hasMicrophoneAccess := false; isLiveBroadcasting := false;
     broadcastMode := "file";
     audioEngine :=
       with_playback AudioSyncEngine.initialized_engine
                     (new_broadcaster ChunkCallback);
     p2pManager := None;
     relay := {| wsConnection := None;
                 App.connectionState := "disconnected" |} |}.

(** A manager whose data channel has opened. *)
Definition open_manager : Manager DataMessage :=
  {| peerConnection := Some new_RTCPeerConnection;
     dataChannel := Some {| readyState := channel_open; sent := [] |};
     isHost := true;
     P2PManager.connectionState := pc_connected |}.

(** A host with an open channel to its listener, and a listener. *)
Definition host_component : Component :=
  with_p2pManager (Some open_manager) (with_mode "host" initial_component).

Definition client_component : Component :=
  with_mode "client" initial_component.

(** A microphone stream with one track. *)
Definition microphone : MediaStream := {| tracks_stopped := [false] |}.

(** The host after it has switched live broadcasting on. *)
Definition live_host : Component :=
  exec (toggleLiveBroadcast (Normal microphone) (Normal tt) (Normal tt))
       host_component.

(** The host with a file of ten seconds loaded, showing 0:04. *)
Definition file_host : Component :=
  with_currentTime 4
    (exec (handleFileUpload (browser := AudioSyncEngine.standard_browser)
             (Some ("audio/mpeg", Some AudioSyncEngine.ten_seconds)))
          host_component).

(** The host after it has pressed play when the audio clock showed 5. *)
Definition playing_host : Component := exec (togglePlayback 5) file_host.

End Session.
(** * Properties *)

(** ** The Audio Synchronization Engine *)

Module AudioSyncEngineFacts.

Import AudioSyncEngine.
Import EngineStates.

Open Scope js_scope.

(** *** Comparisons *)


Lemma Qgtb_false (x y : Q) : Qgtb x y = false <-> x <= y.
Proof.
  unfold Qgtb. rewrite negb_false_iff. apply Qle_bool_iff.
Qed.

Lemma Qle_bool_true (x y : Q) : x <= y -> Qle_bool x y = true.
Proof.
  apply Qle_bool_iff.
Qed.

Lemma Qle_bool_false (x y : Q) : y < x -> Qle_bool x y = false.
Proof.
  intros H. destruct (Qle_bool x y) eqn:E; [| reflexivity].
  apply Qle_bool_iff in E. lra.
Qed.

(** *** Symbolic execution of the methods *)

Arguments Qplus : simpl never.
Arguments Qminus : simpl never.
Arguments Qmult : simpl never.
Arguments Qdiv : simpl never.
Arguments Qabs : simpl never.
Arguments Qmax : simpl never.
Arguments Qle_bool : simpl never.
Arguments Qeq_bool : simpl never.
Arguments inject_Z : simpl never.
Arguments setValueAtTime : simpl never.
Arguments gain_value : simpl never.
Arguments copy_samples : simpl never.
Arguments started : simpl never.

Ltac js_unfold :=
  unfold exec, eval, play, seek, pause, stop, setVolume, syncWithHost,
    getCurrentTime, createBufferSource, currentTime, node_set_buffer,
    node_connect, node_start, node_stop, on_node, try_catch, bind, ret,
    get, modify, throw, lift.

Ltac js_unfold_platform :=
  unfold initialize, loadAudioFile, playAudioChunk, createBuffer; js_unfold.

Ltac js_fields e :=
  let ctx := fresh "ctx" in let buf := fresh "buf" in
  let src := fresh "src" in let gn := fresh "gn" in
  let st := fresh "st" in let pt := fresh "pt" in
  let playing := fresh "playing" in let npt := fresh "npt" in
  let g := fresh "g" in
  destruct e as [ctx buf src gn st pt playing npt g].

(** *** Started nodes *)

Lemma started_grown (e e' : Engine) (new : list AudioBufferSourceNode)
  (node : nat) :
  graph e' = graph e ++ new -> started e node = true ->
  started e' node = true.
Proof.
  unfold started. intros ->.
  destruct (graph e !! node) as [n |] eqn:Hn; [| discriminate].
  rewrite lookup_app_l by (eapply lookup_lt_Some, Hn). rewrite Hn.
  exact (fun H => H).
Qed.

Lemma length_graph_after_stop (e : Engine) :
  length (graph_after_stop e) = length (graph e).
Proof.
  unfold graph_after_stop. destruct (sourceNode e); [| reflexivity].
  apply length_alter.
Qed.

Lemma alter_new_node (f : AudioBufferSourceNode -> AudioBufferSourceNode)
  (g : list AudioBufferSourceNode) (n : AudioBufferSourceNode) :
  alter f (length g) (g ++ [n]) = g ++ [f n].
Proof.
  replace (length g) with (length g + 0)%nat at 1 by lia.
  rewrite alter_app_r. reflexivity.
Qed.

(** *** What [stop], [pause] and [play] do *)

Lemma stop_intact (e : Engine) :
  intact e = true -> stop e = (Normal tt, stopped e).
Proof.
  unfold intact, stopped, graph_after_stop. js_fields e. js_unfold. cbn.
  destruct src as [node |]; cbn; [| reflexivity].
  intros ->. reflexivity.
Qed.

Lemma stop_broken (e : Engine) :
  intact e = false -> stop e = (Throw InvalidStateError, e).
Proof.
  unfold intact. js_fields e. js_unfold. cbn.
  destruct src as [node |]; cbn; [| discriminate].
  intros ->. reflexivity.
Qed.

Lemma intact_stopped (e : Engine) : intact (stopped e) = true.
Proof.
  reflexivity.
Qed.

Lemma pause_paused (now : Q) (e : Engine) :
  isPlaying e = false -> pause now e = (Normal tt, e).
Proof.
  js_fields e. js_unfold. cbn. intros ->. destruct src; reflexivity.
Qed.

Lemma pause_playing (now : Q) (e : Engine) :
  well_formed e -> isPlaying e = true ->
  pause now e = (Normal tt, paused now e).
Proof.
  unfold well_formed, paused, graph_after_stop. js_fields e. cbn.
  intros (Hplay & Hsrc & Hbuf & Hctx) ->.
  destruct (Hplay eq_refl) as (node & -> & Hst).
  specialize (Hbuf (Hsrc eq_refl)). destruct ctx; [| discriminate].
  js_unfold. unfold started in *. cbn in *.
  rewrite Hst. reflexivity.
Qed.

Lemma play_guard (now offset : Q) (e : Engine) :
  truthy (audioBuffer e) = false \/ truthy (audioContext e) = false ->
  play now offset e = (Normal false, e).
Proof.
  intros H. unfold play, bind, get, ret.
  destruct (audioBuffer e), (audioContext e); cbn in *;
    destruct H; congruence.
Qed.

(** [play] after its guard and its [stop()]. *)
Lemma play_from_stopped (now offset : Q) (e : Engine) :
  well_formed e -> intact e = true -> truthy (audioBuffer e) = true ->
  play now offset e =
  if Qle_bool 0 offset
  then (Normal true, restarted now offset e)
  else (Throw RangeError, start_failed now offset e).
Proof.
  unfold well_formed, intact, restarted, start_failed, graph_after_stop,
    file_node, unstarted_node.
  js_fields e. cbn. intros (_ & _ & Hbuf & Hctx) Hin Hb.
  specialize (Hbuf Hb).
  destruct buf; [| discriminate]. destruct ctx; [| discriminate].
  destruct gn; [| discriminate].
  js_unfold. cbn.
  destruct src as [node |]; cbn.
  - rewrite Hin. cbn. rewrite !alter_new_node. cbn.
    destruct (Qle_bool 0 offset); cbn;
      rewrite ?alter_new_node, ?length_alter; reflexivity.
  - rewrite !alter_new_node. cbn.
    destruct (Qle_bool 0 offset); cbn; rewrite ?alter_new_node; reflexivity.
Qed.

Lemma play_ok (now offset : Q) (e : Engine) :
  well_formed e -> intact e = true -> truthy (audioBuffer e) = true ->
  0 <= offset ->
  play now offset e = (Normal true, restarted now offset e).
Proof.
  intros Hwf Hin Hb Hoff. rewrite play_from_stopped by assumption.
  rewrite Qle_bool_true by exact Hoff. reflexivity.
Qed.

Lemma play_negative (now offset : Q) (e : Engine) :
  well_formed e -> intact e = true -> truthy (audioBuffer e) = true ->
  offset < 0 ->
  play now offset e = (Throw RangeError, start_failed now offset e).
Proof.
  intros Hwf Hin Hb Hoff. rewrite play_from_stopped by assumption.
  rewrite Qle_bool_false by exact Hoff. reflexivity.
Qed.

Lemma play_broken (now offset : Q) (e : Engine) :
  well_formed e -> intact e = false -> truthy (audioBuffer e) = true ->
  play now offset e = (Throw InvalidStateError, e).
Proof.
  unfold well_formed, intact. js_fields e. cbn.
  intros (_ & _ & Hbuf & Hctx) Hin Hb. specialize (Hbuf Hb).
  destruct buf; [| discriminate]. destruct ctx; [| discriminate].
  destruct src as [node |]; [| discriminate].
  js_unfold. cbn. rewrite Hin. reflexivity.
Qed.

(** A playing engine can be stopped. *)
Lemma playing_intact (e : Engine) :
  well_formed e -> isPlaying e = true -> intact e = true.
Proof.
  intros (Hplay & _) Hp. destruct (Hplay Hp) as (node & Hsrc & Hst).
  unfold intact. rewrite Hsrc. exact Hst.
Qed.

Lemma playing_loaded (e : Engine) :
  well_formed e -> isPlaying e = true -> truthy (audioBuffer e) = true.
Proof.
  intros (Hplay & Hsrc & _) Hp. destruct (Hplay Hp) as (node & Hnode & _).
  apply Hsrc. rewrite Hnode. reflexivity.
Qed.

Lemma started_new_node (e : Engine) (b : option AudioBuffer) (offset : Q)
  (g : list AudioBufferSourceNode) :
  graph e = g ++ [file_node b offset] -> started e (length g) = true.
Proof.
  unfold started. intros ->.
  rewrite lookup_app_r by lia. rewrite Nat.sub_diag. reflexivity.
Qed.

Lemma intact_restarted (now offset : Q) (e : Engine) :
  intact (restarted now offset e) = true.
Proof.
  unfold intact. cbn [sourceNode restarted].
  rewrite <- (length_graph_after_stop e).
  eapply started_new_node. reflexivity.
Qed.

Lemma intact_start_failed (now offset : Q) (e : Engine) :
  intact (start_failed now offset e) = false.
Proof.
  unfold intact, started. cbn [sourceNode graph start_failed].
  rewrite <- (length_graph_after_stop e).
  rewrite lookup_app_r by lia. rewrite Nat.sub_diag. reflexivity.
Qed.

Lemma intact_paused (now : Q) (e : Engine) :
  intact e = true -> intact (paused now e) = true.
Proof.
  unfold intact, paused, graph_after_stop, started. js_fields e. cbn.
  destruct src as [node |]; [| reflexivity].
  rewrite list_lookup_alter, decide_True by reflexivity.
  destruct (g !! node); exact (fun H => H).
Qed.

(** *** The invariant is kept *)

Lemma well_formed_new : well_formed new_engine.
Proof.
  unfold well_formed; cbn; intuition congruence.
Qed.

Lemma well_formed_stopped (e : Engine) :
  well_formed e -> well_formed (stopped e).
Proof.
  unfold well_formed. js_fields e. cbn. intuition congruence.
Qed.

Lemma well_formed_restarted (now offset : Q) (e : Engine) :
  well_formed e -> truthy (audioBuffer e) = true ->
  well_formed (restarted now offset e).
Proof.
  intros (_ & _ & Hbuf & Hctx) Hb. unfold well_formed.
  cbn [isPlaying sourceNode audioBuffer audioContext gainNode restarted].
  repeat split; auto.
  intros _. exists (length (graph e)). split; [reflexivity |].
  apply (intact_restarted now offset e).
Qed.

Lemma well_formed_start_failed (now offset : Q) (e : Engine) :
  well_formed e -> truthy (audioBuffer e) = true ->
  well_formed (start_failed now offset e).
Proof.
  intros (_ & _ & Hbuf & Hctx) Hb. unfold well_formed.
  cbn [isPlaying sourceNode audioBuffer audioContext gainNode start_failed].
  repeat split; auto. discriminate.
Qed.

Lemma well_formed_paused (now : Q) (e : Engine) :
  well_formed e -> well_formed (paused now e).
Proof.
  unfold well_formed. js_fields e. cbn. intuition congruence.
Qed.

Lemma well_formed_stop (e : Engine) :
  well_formed e -> well_formed (exec stop e).
Proof.
  intros Hwf. unfold exec. destruct (intact e) eqn:Hin.
  - rewrite stop_intact by exact Hin. apply well_formed_stopped, Hwf.
  - rewrite stop_broken by exact Hin. exact Hwf.
Qed.

Lemma well_formed_play (now offset : Q) (e : Engine) :
  well_formed e -> well_formed (exec (play now offset) e).
Proof.
  intros Hwf. unfold exec.
  destruct (truthy (audioBuffer e)) eqn:Hb;
    [| rewrite play_guard by (left; exact Hb); exact Hwf].
  destruct (intact e) eqn:Hin;
    [| rewrite play_broken by assumption; exact Hwf].
  rewrite play_from_stopped by assumption.
  destruct (Qle_bool 0 offset); cbn [snd].
  - apply well_formed_restarted; assumption.
  - apply well_formed_start_failed; assumption.
Qed.

Lemma well_formed_pause (now : Q) (e : Engine) :
  well_formed e -> well_formed (exec (pause now) e).
Proof.
  intros Hwf. unfold exec. destruct (isPlaying e) eqn:Hp.
  - rewrite pause_playing by assumption. apply well_formed_paused, Hwf.
  - rewrite pause_paused by exact Hp. exact Hwf.
Qed.

(** [seek] is [play] on a playing engine and a write to [pauseTime] on a
    paused one. *)
Lemma seek_playing (now time : Q) (e : Engine) :
  isPlaying e = true ->
  exec (seek now time) e = exec (play now time) e /\
  eval (seek now time) e =
  match eval (play now time) e with
  | Normal _ => Normal tt
  | Throw err => Throw err
  end.
Proof.
  intros Hp. unfold seek, exec, eval, bind, get, ret. rewrite Hp.
  destruct (play now time e) as [[b | err] e']; split; reflexivity.
Qed.

Lemma seek_paused (now time : Q) (e : Engine) :
  isPlaying e = false ->
  seek now time e = (Normal tt, with_pauseTime time e).
Proof.
  intros Hp. unfold seek, bind, get, modify. rewrite Hp. reflexivity.
Qed.

Lemma well_formed_seek (now time : Q) (e : Engine) :
  well_formed e -> well_formed (exec (seek now time) e).
Proof.
  intros Hwf. destruct (isPlaying e) eqn:Hp.
  - destruct (seek_playing now time e Hp) as [-> _].
    apply well_formed_play, Hwf.
  - unfold exec. rewrite seek_paused by exact Hp. cbn [snd].
    revert Hwf Hp. unfold well_formed. js_fields e. cbn.
    intuition congruence.
Qed.

Lemma well_formed_setVolume (now volume : Q) (e : Engine) :
  well_formed e -> well_formed (exec (setVolume now volume) e).
Proof.
  unfold well_formed. js_fields e. js_unfold. cbn.
  destruct gn, ctx; cbn in *; intuition congruence.
Qed.

(** Reading the position writes no field. *)
Lemma getCurrentTime_pure (now : Q) (e : Engine) :
  exec (getCurrentTime now) e = e.
Proof.
  js_unfold. destruct (isPlaying e); cbn; [| reflexivity].
  destruct (audioContext e); reflexivity.
Qed.

(** [syncWithHost] either leaves the fields alone (also when reading the
    position throws) or does what [seek] does. *)
Lemma syncWithHost_cases (perfNow now hostTime hostTimestamp : Q) (e : Engine) :
  exec (syncWithHost perfNow now hostTime hostTimestamp) e = e \/
  exec (syncWithHost perfNow now hostTime hostTimestamp) e =
  exec (seek now (hostTime + (perfNow - hostTimestamp) / 2 / 1000)) e.
Proof.
  pose proof (getCurrentTime_pure now e) as Hpure.
  unfold syncWithHost, exec, bind in *.
  destruct (getCurrentTime now e) as [[q | err] e']; cbn in Hpure; subst e'.
  - destruct (Qgtb _ _); [right | left]; reflexivity.
  - left. reflexivity.
Qed.

Lemma well_formed_syncWithHost (perfNow now hostTime hostTimestamp : Q)
  (e : Engine) :
  well_formed e ->
  well_formed (exec (syncWithHost perfNow now hostTime hostTimestamp) e).
Proof.
  intros H.
  destruct (syncWithHost_cases perfNow now hostTime hostTimestamp e) as [-> | ->];
    [exact H | apply well_formed_seek, H].
Qed.

Lemma exec_discard {A} (m : M Engine A) (e : Engine) :
  exec (m ;; ret tt) e = exec m e.
Proof.
  unfold exec, bind, ret. destruct (m e) as [[a | err] e']; reflexivity.
Qed.

Lemma eval_discard {A} (m : M Engine A) (e : Engine) (a : A) :
  eval m e = Normal a -> eval (m ;; ret tt) e = Normal tt.
Proof.
  unfold eval, bind, ret. destruct (m e) as [[a' | err] e']; cbn;
    [reflexivity | discriminate].
Qed.

(** *** The playback clock *)

Lemma playing_context (e : Engine) :
  well_formed e -> isPlaying e = true -> truthy (audioContext e) = true.
Proof.
  intros Hwf Hp. pose proof (playing_loaded e Hwf Hp) as Hb.
  destruct Hwf as (_ & _ & Hbuf & _). auto.
Qed.

Lemma getCurrentTime_well_formed (t : Q) (e : Engine) :
  well_formed e ->
  eval (getCurrentTime t) e =
  Normal (if isPlaying e then t - startTime e else pauseTime e).
Proof.
  intros Hwf. pose proof (playing_context e Hwf) as Hctx.
  js_unfold. destruct (isPlaying e); cbn; [| reflexivity].
  destruct (audioContext e); [reflexivity | discriminate (Hctx eq_refl)].
Qed.

Lemma position_is_well_formed (e : Engine) (t p : Q) :
  well_formed e ->
  position_is e t p <->
  (if isPlaying e then t - startTime e else pauseTime e) == p.
Proof.
  intros H. unfold position_is. rewrite (getCurrentTime_well_formed t e H).
  split.
  - intros (q & [= <-] & Hq). exact Hq.
  - intros Hq. eexists. split; [reflexivity | exact Hq].
Qed.

Lemma play_loaded (now offset : Q) (e : Engine) :
  well_formed e -> intact e = true -> truthy (audioBuffer e) = true ->
  0 <= offset ->
  eval (play now offset) e = Normal true /\
  startTime (exec (play now offset) e) = now - offset /\
  isPlaying (exec (play now offset) e) = true /\
  intact (exec (play now offset) e) = true.
Proof.
  intros Hwf Hin Hb Hoff. unfold eval, exec.
  rewrite play_ok by assumption. cbn [fst snd].
  repeat split. apply intact_restarted.
Qed.

Lemma audioBuffer_play (now offset : Q) (e : Engine) :
  well_formed e -> audioBuffer (exec (play now offset) e) = audioBuffer e.
Proof.
  intros Hwf. unfold exec.
  destruct (truthy (audioBuffer e)) eqn:Hb;
    [| rewrite play_guard by (left; exact Hb); reflexivity].
  destruct (intact e) eqn:Hin;
    [| rewrite play_broken by assumption; reflexivity].
  rewrite play_from_stopped by assumption.
  destruct (Qle_bool 0 offset); reflexivity.
Qed.

Lemma audioBuffer_pause (now : Q) (e : Engine) :
  well_formed e -> audioBuffer (exec (pause now) e) = audioBuffer e.
Proof.
  intros Hwf. unfold exec. destruct (isPlaying e) eqn:Hp.
  - rewrite pause_playing by assumption. reflexivity.
  - rewrite pause_paused by exact Hp. reflexivity.
Qed.

Lemma audioBuffer_seek (now time : Q) (e : Engine) :
  well_formed e -> audioBuffer (exec (seek now time) e) = audioBuffer e.
Proof.
  intros Hwf. destruct (isPlaying e) eqn:Hp.
  - destruct (seek_playing now time e Hp) as [-> _].
    apply audioBuffer_play, Hwf.
  - unfold exec. rewrite seek_paused by exact Hp. reflexivity.
Qed.

Lemma audioBuffer_playback_call (now : Q) (c : PlaybackCall) (e : Engine) :
  well_formed e ->
  audioBuffer (exec (playback_call now c) e) = audioBuffer e.
Proof.
  intros Hwf. destruct c; cbn [playback_call]; rewrite ?exec_discard;
    auto using audioBuffer_play, audioBuffer_pause, audioBuffer_seek.
Qed.

Lemma well_formed_playback_call (now : Q) (c : PlaybackCall) (e : Engine) :
  well_formed e -> well_formed (exec (playback_call now c) e).
Proof.
  destruct c; cbn [playback_call]; rewrite ?exec_discard;
    auto using well_formed_play, well_formed_pause, well_formed_seek.
Qed.

Lemma intact_pause (now : Q) (e : Engine) :
  well_formed e -> intact e = true -> intact (exec (pause now) e) = true.
Proof.
  intros Hwf Hin. unfold exec. destruct (isPlaying e) eqn:Hp.
  - rewrite pause_playing by assumption. apply intact_paused, Hin.
  - rewrite pause_paused by exact Hp. exact Hin.
Qed.

Lemma intact_seek (now time : Q) (e : Engine) :
  well_formed e -> intact e = true -> 0 <= time ->
  intact (exec (seek now time) e) = true.
Proof.
  intros Hwf Hin Htime. destruct (isPlaying e) eqn:Hp.
  - destruct (seek_playing now time e Hp) as [-> _].
    apply play_loaded; try assumption. apply playing_loaded; assumption.
  - unfold exec. rewrite seek_paused by exact Hp. exact Hin.
Qed.

Lemma intact_playback_call (now : Q) (c : PlaybackCall) (e : Engine) :
  well_formed e -> intact e = true -> truthy (audioBuffer e) = true ->
  offset_ok c -> intact (exec (playback_call now c) e) = true.
Proof.
  intros Hwf Hin Hb Hok.
  destruct c; cbn [playback_call offset_ok] in *; rewrite ?exec_discard.
  - apply play_loaded; assumption.
  - apply intact_pause; assumption.
  - apply intact_seek; assumption.
Qed.

Lemma run_playback_invariant (calls : list (Q * PlaybackCall)) (e : Engine) :
  well_formed e -> intact e = true -> truthy (audioBuffer e) = true ->
  Forall (fun call => offset_ok (snd call)) calls ->
  well_formed (run_playback calls e) /\
  intact (run_playback calls e) = true /\
  truthy (audioBuffer (run_playback calls e)) = true.
Proof.
  revert e. induction calls as [| [now c] calls IH]; intros e Hwf Hin Hbuf Hok.
  - split; [| split]; assumption.
  - apply Forall_cons_1 in Hok as [Hc Hok]. cbn in Hc. cbn. apply IH.
    + apply well_formed_playback_call, Hwf.
    + apply intact_playback_call; assumption.
    + rewrite audioBuffer_playback_call by exact Hwf. exact Hbuf.
    + exact Hok.
Qed.

Lemma pause_freezes (now : Q) (e : Engine) :
  well_formed e ->
  eval (pause now) e = Normal tt /\
  isPlaying (exec (pause now) e) = false /\
  pauseTime (exec (pause now) e) =
  (if isPlaying e then now - startTime e else pauseTime e).
Proof.
  intros Hwf. unfold eval, exec. destruct (isPlaying e) eqn:Hp.
  - rewrite pause_playing by assumption. repeat split.
  - rewrite pause_paused by exact Hp. repeat split. exact Hp.
Qed.

Lemma seek_sets_position (now time : Q) (e : Engine) :
  well_formed e -> isPlaying e = false \/ 0 <= time ->
  eval (seek now time) e = Normal tt /\
  isPlaying (exec (seek now time) e) = isPlaying e /\
  (if isPlaying e
   then startTime (exec (seek now time) e) = now - time
   else pauseTime (exec (seek now time) e) = time).
Proof.
  intros Hwf Hok. destruct (isPlaying e) eqn:Hp.
  - destruct Hok as [Hok | Hok]; [discriminate |].
    destruct (seek_playing now time e Hp) as [-> ->].
    destruct (play_loaded now time e Hwf (playing_intact e Hwf Hp)
                (playing_loaded e Hwf Hp) Hok) as (-> & Hst & Hpl & _).
    auto.
  - unfold eval, exec. rewrite seek_paused by exact Hp. cbn.
    repeat split. exact Hp.
Qed.

Lemma run_playback_well_formed (calls : list (Q * PlaybackCall)) (e : Engine) :
  well_formed e -> well_formed (run_playback calls e).
Proof.
  revert e. induction calls as [| [now c] calls IH]; intros e Hwf.
  - exact Hwf.
  - cbn. apply IH, well_formed_playback_call, Hwf.
Qed.

(** C1 (as amended).  On an engine with a loaded buffer, after every
    call of a sequence of play(t)/pause()/seek(t) calls the playback
    clock invariant holds: getCurrentTime() returns (now - startTime)
    while isPlaying and pauseTime otherwise, and while playing the
    position advances with the audio clock, second for second.  When
    no offset of the sequence is negative (and the current source node,
    if the engine starts with one, was started), every call returns
    normally, right after play(t) or seek(t) the position is t, and
    pause() freezes the position it found. *)
Theorem C1_playback_clock_invariant
  (e0 : Engine) (history : list (Q * PlaybackCall))
  (now : Q) (c : PlaybackCall) :
  well_formed e0 -> truthy (audioBuffer e0) = true ->
  let e := run_playback history e0 in
  let e' := exec (playback_call now c) e in
  (forall t, eval (getCurrentTime t) e' =
             Normal (if isPlaying e' then t - startTime e' else pauseTime e')) /\
  (intact e0 = true ->
   Forall (fun call => offset_ok (snd call)) history -> offset_ok c ->
   match c with
   | CallPlay offset =>
       eval (play now offset) e = Normal true /\
       isPlaying e' = true /\ position_is e' now offset
   | CallSeek offset =>
       eval (seek now offset) e = Normal tt /\
       isPlaying e' = isPlaying e /\ position_is e' now offset
   | CallPause =>
       eval (pause now) e = Normal tt /\
       isPlaying e' = false /\
       forall p t, position_is e now p -> position_is e' t p
   end) /\
  (isPlaying e' = true ->
   forall t d p, position_is e' t p -> position_is e' (t + d) (p + d)).
Proof.
  intros Hwf0 Hbuf0 e e'.
  assert (Hwf : well_formed e) by apply run_playback_well_formed, Hwf0.
  assert (Hwf' : well_formed e') by apply well_formed_playback_call, Hwf.
  split; [| split].
  - intros t. apply getCurrentTime_well_formed, Hwf'.
  - intros Hin0 Hhistory Hc.
    destruct (run_playback_invariant history e0 Hwf0 Hin0 Hbuf0 Hhistory)
      as (_ & Hin & Hbuf).
    fold e in Hin, Hbuf.
    destruct c as [offset | | offset]; subst e';
      cbn [playback_call offset_ok] in *.
    + rewrite exec_discard in *.
      destruct (play_loaded now offset e Hwf Hin Hbuf Hc)
        as (Hret & Hst & Hpl & _).
      repeat split; [exact Hret | exact Hpl |].
      apply position_is_well_formed; [exact Hwf' |].
      rewrite Hpl, Hst. lra.
    + destruct (pause_freezes now e Hwf) as (Hret & Hpl & Hpt).
      split; [exact Hret |]. split; [exact Hpl |]. intros p t Hp.
      apply position_is_well_formed in Hp; [| exact Hwf].
      apply position_is_well_formed; [exact Hwf' |].
      rewrite Hpl, Hpt. exact Hp.
    + destruct (seek_sets_position now offset e Hwf (or_intror Hc))
        as (Hret & Hpl & Hpos).
      split; [exact Hret |]. split; [exact Hpl |].
      apply position_is_well_formed; [exact Hwf' |].
      rewrite Hpl. destruct (isPlaying e); rewrite Hpos; lra.
  - intros Hpl t d p Hp.
    apply position_is_well_formed in Hp; [| exact Hwf'].
    apply position_is_well_formed; [exact Hwf' |].
    rewrite Hpl in *. lra.
Qed.

(** *** Drift correction against the host *)


Lemma Qabs_le (x y : Q) : Qabs x <= y <-> - y <= x /\ x <= y.
Proof.
  apply Qabs_case; intros H; split; intros H'; try lra;
    destruct H'; lra.
Qed.

Lemma seek_position (now time : Q) (e : Engine) :
  well_formed e -> isPlaying e = false \/ 0 <= time ->
  position_is (exec (seek now time) e) now time.
Proof.
  intros Hwf Hok.
  apply position_is_well_formed; [apply well_formed_seek, Hwf |].
  destruct (seek_sets_position now time e Hwf Hok) as (_ & Hpl & Hpos).
  rewrite Hpl. destruct (isPlaying e); rewrite Hpos; lra.
Qed.


Lemma syncWithHost_reseek (perfNow now hostTime hostTimestamp current : Q)
  (e : Engine) :
  eval (getCurrentTime now) e = Normal current ->
  Qgtb (Qabs (current - (hostTime + (perfNow - hostTimestamp) / 2 / 1000)))
       0.05 = true ->
  exec (syncWithHost perfNow now hostTime hostTimestamp) e =
  exec (seek now (hostTime + (perfNow - hostTimestamp) / 2 / 1000)) e.
Proof.
  intros Hcur Hgt.
  pose proof (getCurrentTime_pure now e) as Hpure.
  unfold syncWithHost, exec, eval, bind in *.
  destruct (getCurrentTime now e) as [[q | err] e']; cbn in *;
    [| discriminate].
  injection Hcur as ->. subst e'. rewrite Hgt. reflexivity.
Qed.

Lemma syncWithHost_keep (perfNow now hostTime hostTimestamp current : Q)
  (e : Engine) :
  eval (getCurrentTime now) e = Normal current ->
  Qgtb (Qabs (current - (hostTime + (perfNow - hostTimestamp) / 2 / 1000)))
       0.05 = false ->
  exec (syncWithHost perfNow now hostTime hostTimestamp) e = e.
Proof.
  intros Hcur Hle.
  pose proof (getCurrentTime_pure now e) as Hpure.
  unfold syncWithHost, exec, eval, bind in *.
  destruct (getCurrentTime now e) as [[q | err] e']; cbn in *;
    [| discriminate].
  injection Hcur as ->. subst e'. rewrite Hle. reflexivity.
Qed.

Lemma syncWithHost_reseek_eval
  (perfNow now hostTime hostTimestamp current : Q) (e : Engine) :
  eval (getCurrentTime now) e = Normal current ->
  Qgtb (Qabs (current - (hostTime + (perfNow - hostTimestamp) / 2 / 1000)))
       0.05 = true ->
  eval (syncWithHost perfNow now hostTime hostTimestamp) e =
  eval (seek now (hostTime + (perfNow - hostTimestamp) / 2 / 1000)) e.
Proof.
  intros Hcur Hgt.
  pose proof (getCurrentTime_pure now e) as Hpure.
  unfold syncWithHost, exec, eval, bind in *.
  destruct (getCurrentTime now e) as [[q | err] e']; cbn in *;
    [| discriminate].
  injection Hcur as ->. subst e'. rewrite Hgt. reflexivity.
Qed.

Lemma syncWithHost_keep_eval
  (perfNow now hostTime hostTimestamp current : Q) (e : Engine) :
  eval (getCurrentTime now) e = Normal current ->
  Qgtb (Qabs (current - (hostTime + (perfNow - hostTimestamp) / 2 / 1000)))
       0.05 = false ->
  eval (syncWithHost perfNow now hostTime hostTimestamp) e = Normal tt.
Proof.
  intros Hcur Hle.
  pose proof (getCurrentTime_pure now e) as Hpure.
  unfold syncWithHost, exec, eval, bind, ret in *.
  destruct (getCurrentTime now e) as [[q | err] e']; cbn in *;
    [| discriminate].
  injection Hcur as ->. subst e'. rewrite Hle. reflexivity.
Qed.


(** *** Pausing twice *)

Lemma pause_pause (now1 now2 : Q) (e : Engine) :
  well_formed e ->
  exec (pause now2) (exec (pause now1) e) = exec (pause now1) e.
Proof.
  intros Hwf. destruct (pause_freezes now1 e Hwf) as (_ & Hpl & _).
  unfold exec at 1. rewrite pause_paused by exact Hpl. reflexivity.
Qed.

(** C5.  pause() on a paused engine is a no-op, and pausing twice in a
    row is pausing once: the second pause() changes no field, the
    position after it is the position after the first, at whatever time
    it is read, and the stored pauseTime is the media time that had
    elapsed when the first pause() was called. *)
Theorem C5_pause_idempotent (e : Engine) (now1 now2 : Q) :
  well_formed e ->
  let once := exec (pause now1) e in
  let twice := exec (pause now2) once in
  (isPlaying e = false -> pause now1 e = (Normal tt, e)) /\
  pause now2 once = (Normal tt, once) /\
  twice = once /\
  (forall t1 t2,
     eval (getCurrentTime t2) twice = eval (getCurrentTime t1) once) /\
  position_is e now1 (pauseTime twice).
Proof.
  intros Hwf once twice.
  destruct (pause_freezes now1 e Hwf) as (_ & Hpl & Hpt).
  fold once in Hpl, Hpt.
  assert (Hwf1 : well_formed once) by apply well_formed_pause, Hwf.
  assert (Htwice : twice = once) by apply pause_pause, Hwf.
  split; [apply pause_paused |]. split; [apply pause_paused, Hpl |].
  split; [exact Htwice |]. split.
  - intros t1 t2. rewrite Htwice.
    rewrite !getCurrentTime_well_formed by exact Hwf1.
    rewrite Hpl. reflexivity.
  - rewrite Htwice. apply position_is_well_formed; [exact Hwf |].
    rewrite Hpt. reflexivity.
Qed.

(** *** [play] without a buffer or a context *)

(** C10.  With no audio buffer loaded or no audio context, play(t)
    returns false and changes nothing: the playback clock state, the
    source node reference and every node in the graph stay as they
    were. *)
Theorem C10_play_unloaded (e : Engine) (now startOffset : Q) :
  truthy (audioBuffer e) = false \/ truthy (audioContext e) = false ->
  play now startOffset e = (Normal false, e).
Proof.
  intros H. unfold play, bind, get, ret.
  destruct (audioBuffer e), (audioContext e); cbn in *;
    destruct H; congruence.
Qed.

(** *** Volume *)

Lemma gain_value_setValueAtTime (value startTime : Q) (g : GainNode) (t : Q) :
  gain_value (setValueAtTime value startTime g) t =
  if Qle_bool startTime t then value else gain_value g t.
Proof.
  unfold gain_value, setValueAtTime. cbn [gain_events].
  rewrite fold_left_app. reflexivity.
Qed.

(** C6 (as amended).  setVolume schedules the level with
    setValueAtTime at the current audio time: the gain is the new level
    from that instant on and what it was before that instant - a step,
    not a ramp.  Without a gain node setVolume does nothing. *)
Theorem C6_setVolume_steps (e : Engine) (now volume : Q) :
  well_formed e ->
  let e' := exec (setVolume now volume) e in
  match gainNode e with
  | Some g =>
      e' = with_gainNode (Some (setValueAtTime volume now g)) e /\
      (forall t, now <= t -> volume_at e' t = volume) /\
      (forall t, t < now -> volume_at e' t = volume_at e t)
  | None => e' = e
  end.
Proof.
  intros (_ & _ & _ & Hctx) e'. subst e'. unfold volume_at.
  js_fields e. js_unfold. cbn in *.
  destruct gn as [gnode |]; [| reflexivity].
  destruct ctx; [| discriminate]. cbn.
  split; [reflexivity |]. split; intros t Ht;
    rewrite gain_value_setValueAtTime.
  - apply Qle_bool_iff in Ht. rewrite Ht. reflexivity.
  - destruct (Qle_bool now t) eqn:E; [| reflexivity].
    apply Qle_bool_iff in E. lra.
Qed.

(** The claim C6 as stated fails: on a freshly initialised engine (gain
    1), setVolume(0.5) at audio time 2 makes the gain jump from 1 to 0.5
    at that instant. *)
Lemma C6_counterexample :
  let e := exec (initialize (Normal BaseAudioContext)) new_engine in
  ~ continuous_at (volume_at (exec (setVolume 2 0.5) e)) 2.
Proof.
  cbn zeta. intros Hcont.
  destruct (Hcont 0.25 ltac:(lra)) as (delta & Hdelta & Hnear).
  specialize (Hnear (2 - delta * 0.5)).
  assert (Hclose : Qabs (2 - delta * 0.5 - 2) < delta)
    by (apply Qabs_case; intros; lra).
  apply Hnear in Hclose. clear Hnear Hcont.
  change (volume_at (exec (setVolume 2 0.5)
                          (exec (initialize (Normal BaseAudioContext)) new_engine)))
    with (gain_value (setValueAtTime 0.5 2 {| gain_events := [] |})) in Hclose.
  rewrite !gain_value_setValueAtTime in Hclose.
  change (gain_value {| gain_events := [] |}) with (fun _ : Q => 1) in Hclose.
  cbv beta in Hclose.
  assert (Hat : Qle_bool 2 2 = true) by reflexivity.
  assert (Hbefore : Qle_bool 2 (2 - delta * 0.5) = false).
  { destruct (Qle_bool 2 (2 - delta * 0.5)) eqn:E; [| reflexivity].
    apply Qle_bool_iff in E. lra. }
  rewrite Hat, Hbefore in Hclose.
  revert Hclose. apply Qabs_case; intros; lra.
Qed.

(** *** Facts that depend on the browser *)

Section PlatformFacts.

Context {browser : Browser}.

Lemma well_formed_grown (e e' : Engine) (new : list AudioBufferSourceNode) :
  well_formed e ->
  audioContext e' = audioContext e -> audioBuffer e' = audioBuffer e ->
  sourceNode e' = sourceNode e -> gainNode e' = gainNode e ->
  isPlaying e' = isPlaying e -> graph e' = graph e ++ new ->
  well_formed e'.
Proof.
  unfold well_formed. intros (H1 & H2 & H3 & H4) -> -> -> -> -> Hg.
  repeat split; auto.
  intros Hp. destruct (H1 Hp) as (node & Hs & Hst).
  exists node. split; [exact Hs |]. eapply started_grown; eassumption.
Qed.

Lemma well_formed_initialize (c : Completion AudioContext) (e : Engine) :
  well_formed e -> well_formed (exec (initialize c) e).
Proof.
  unfold well_formed, started. js_fields e. js_unfold_platform. cbn.
  destruct c; cbn; intuition congruence.
Qed.

Lemma loadAudioFile_cases (file : File) (e : Engine) :
  (exists decoded,
     loadAudioFile file e = (Normal true, with_audioBuffer (Some decoded) e)) \/
  loadAudioFile file e = (Normal false, e).
Proof.
  js_unfold_platform.
  destruct (file_arrayBuffer file) as [ab | err1]; cbn; [| right; reflexivity].
  destruct (audioContext e); cbn; [| right; reflexivity].
  destruct (decodeAudioData ab); cbn; [left; eauto | right; reflexivity].
Qed.

Lemma well_formed_loadAudioFile (file : File) (e : Engine) :
  well_formed e -> well_formed (exec (loadAudioFile file) e).
Proof.
  unfold well_formed, started. js_fields e. js_unfold_platform. cbn.
  destruct (file_arrayBuffer file) as [ab | err]; cbn; [| intuition congruence].
  destruct ctx; cbn; [| intuition congruence].
  destruct (decodeAudioData ab); cbn; intuition congruence.
Qed.

(** What one chunk does to an engine, in every state. *)
Lemma ingest_cases (now : Q) (c : Chunk) (e : Engine) :
  let e' := exec (ingest (now, c)) e in
  eval (ingest (now, c)) e = Normal tt /\
  clock_state e' = clock_state e /\
  sourceNode e' = sourceNode e /\
  audioBuffer e' = audioBuffer e /\
  audioContext e' = audioContext e /\
  gainNode e' = gainNode e /\
  (exists new, graph e' = graph e ++ new) /\
  (nextPlayTime e' = nextPlayTime e \/
   acceptable c = true /\
   nextPlayTime e' = Qmax now (nextPlayTime e) + chunk_duration c).
Proof.
  destruct c as [data ts rate]. unfold ingest, acceptable, chunk_duration.
  cbn [fst snd audioData timestamp sampleRate].
  js_fields e. js_unfold_platform. change (Qle_bool 0 0) with true. cbn.
  destruct ctx; cbn;
    [| repeat split; [exists []; rewrite app_nil_r |left]; reflexivity].
  destruct (_ && _) eqn:Hok; cbn;
    [| repeat split; [exists []; rewrite app_nil_r |left]; reflexivity].
  destruct gn; cbn; rewrite ?alter_new_node; cbn;
    (repeat split; [eexists; reflexivity |]).
  - right. split; reflexivity.
  - left. reflexivity.
Qed.

Lemma well_formed_playAudioChunk (now : Q) (audioData : list Q) (ts : Q)
  (rate : option Q) (e : Engine) :
  well_formed e -> well_formed (exec (playAudioChunk now audioData ts rate) e).
Proof.
  intros Hwf.
  destruct (ingest_cases now {| audioData := audioData; timestamp := ts;
                                sampleRate := rate |} e)
    as (_ & Hclock & Hsrc & Hbuf & Hctx & Hgn & (new & Hg) & _).
  cbn zeta in *. injection Hclock as _ _ Hpl.
  eapply well_formed_grown; eassumption.
Qed.

Lemma well_formed_call (e : Engine) (c : Call) :
  well_formed e -> well_formed (exec (call c) e).
Proof.
  destruct c; cbn [call]; rewrite ?exec_discard;
    auto using well_formed_initialize, well_formed_loadAudioFile,
      well_formed_play, well_formed_pause, well_formed_stop,
      well_formed_setVolume, well_formed_syncWithHost, well_formed_seek,
      well_formed_playAudioChunk.
Qed.

Lemma reachable_well_formed (e : Engine) : reachable e -> well_formed e.
Proof.
  induction 1 as [| e c _ IH];
    [apply well_formed_new | apply well_formed_call, IH].
Qed.

(** *** Loading a file *)


(** *** Scheduling received chunks *)

Lemma copy_loop_lookup (audioData : list Q) (n k : nat) (cd : list Q) (i : nat) :
  length cd = length audioData ->
  (k + n <= length audioData)%nat ->
  fold_left
    (fun cd i => match audioData !! i with
                 | Some x => <[i := x]> cd
                 | None => cd
                 end)
    (seq k n) cd !! i =
  if bool_decide (k <= i < k + n)%nat then audioData !! i else cd !! i.
Proof.
  revert k cd. induction n as [| n IH]; intros k cd Hlen Hk; cbn.
  - rewrite bool_decide_eq_false_2 by lia. reflexivity.
  - destruct (lookup_lt_is_Some_2 audioData k ltac:(lia)) as [x Hx].
    rewrite Hx, IH by (rewrite ?length_insert; lia).
    destruct (decide (i = k)) as [-> | Hne].
    + rewrite bool_decide_eq_false_2 by lia.
      rewrite bool_decide_eq_true_2 by lia.
      rewrite list_lookup_insert_eq by lia. congruence.
    + rewrite list_lookup_insert_ne by congruence.
      destruct (decide (S k <= i < S k + n)%nat).
      * rewrite !bool_decide_eq_true_2 by lia. reflexivity.
      * rewrite !bool_decide_eq_false_2 by lia. reflexivity.
Qed.

(** The copy loop fills the new buffer with exactly the received samples. *)
Lemma copy_samples_all (audioData : list Q) :
  copy_samples audioData (replicate (length audioData) 0) = audioData.
Proof.
  apply list_eq. intros i. unfold copy_samples.
  rewrite copy_loop_lookup by (rewrite ?length_replicate; lia).
  destruct (decide (i < length audioData)%nat) as [Hi | Hi].
  - rewrite bool_decide_eq_true_2 by lia. reflexivity.
  - rewrite bool_decide_eq_false_2 by lia.
    rewrite !lookup_ge_None_2 by (rewrite ?length_replicate; lia).
    reflexivity.
Qed.

(** One chunk on an engine with a context and a gain node: a node that
    carries the chunk's samples is started at [max(now, nextPlayTime)],
    and [nextPlayTime] moves to the end of the chunk. *)
Lemma playAudioChunk_scheduled (now : Q) (c : Chunk) (e : Engine) :
  truthy (audioContext e) = true -> truthy (gainNode e) = true ->
  acceptable c = true ->
  ingest (now, c) e =
  (Normal tt,
   with_nextPlayTime (Qmax now (nextPlayTime e) + chunk_duration c)
     (with_graph (graph e ++ [chunk_node c (Qmax now (nextPlayTime e))]) e)).
Proof.
  unfold acceptable, ingest, chunk_duration, chunk_node, duration.
  destruct c as [data ts rate]. js_fields e. cbn.
  intros Hctx Hgn Hok. js_unfold_platform. change (Qle_bool 0 0) with true.
  cbn.
  destruct ctx; [| discriminate]. destruct gn; [| discriminate]. cbn.
  rewrite Hok. cbn.
  rewrite !alter_new_node. cbn.
  unfold with_nextPlayTime, with_channelData. cbn.
  rewrite copy_samples_all. reflexivity.
Qed.

(** A chunk that reaches an engine without an audio context is dropped. *)
Lemma playAudioChunk_no_context (now : Q) (c : Chunk) (e : Engine) :
  truthy (audioContext e) = false -> ingest (now, c) e = (Normal tt, e).
Proof.
  unfold ingest, playAudioChunk, bind, get, ret. intros ->. reflexivity.
Qed.

(** A chunk [createBuffer] refuses is dropped. *)
Lemma playAudioChunk_refused (now : Q) (c : Chunk) (e : Engine) :
  acceptable c = false -> ingest (now, c) e = (Normal tt, e).
Proof.
  unfold acceptable, ingest. destruct c as [data ts rate]. js_fields e. cbn.
  intros Hno. js_unfold_platform. cbn. destruct ctx; cbn; [| reflexivity].
  rewrite Hno. reflexivity.
Qed.

Lemma run_chunks_scheduled (arrivals : list (Q * Chunk)) (e : Engine) :
  truthy (audioContext e) = true -> truthy (gainNode e) = true ->
  Forall (fun a => acceptable (snd a) = true) arrivals ->
  run_chunks arrivals e =
  with_nextPlayTime
    (final_slot (nextPlayTime e) (schedule (nextPlayTime e) arrivals))
    (with_graph
       (graph e ++
        scheduled_nodes arrivals (schedule (nextPlayTime e) arrivals)) e).
Proof.
  revert e. induction arrivals as [| [now c] arrivals IH];
    intros e Hctx Hgn Hall.
  - cbn. rewrite app_nil_r. destruct e; reflexivity.
  - apply Forall_cons_1 in Hall as [Hc Hall]. cbn in Hc.
    unfold run_chunks in *. cbn [fold_left]. unfold exec at 2.
    rewrite (playAudioChunk_scheduled now c e Hctx Hgn Hc). cbn [snd].
    rewrite IH by first [exact Hctx | exact Hgn | exact Hall].
    cbn [schedule scheduled_nodes final_slot].
    destruct e; cbn. unfold with_nextPlayTime, with_graph. cbn.
    rewrite <- app_assoc. reflexivity.
Qed.

Lemma schedule_length (next : Q) (arrivals : list (Q * Chunk)) :
  length (schedule next arrivals) = length arrivals.
Proof.
  revert next. induction arrivals as [| [now c] arrivals IH]; intros next;
    cbn; [reflexivity | rewrite IH; reflexivity].
Qed.

Lemma scheduled_nodes_length (next : Q) (arrivals : list (Q * Chunk)) :
  length (scheduled_nodes arrivals (schedule next arrivals)) = length arrivals.
Proof.
  revert next. induction arrivals as [| [now c] arrivals IH]; intros next;
    cbn; [reflexivity | rewrite IH; reflexivity].
Qed.

(** The [k]-th node carries the [k]-th chunk: arrival order is playback
    order. *)
Lemma scheduled_nodes_lookup (next : Q) (arrivals : list (Q * Chunk))
  (k : nat) (now : Q) (c : Chunk) :
  arrivals !! k = Some (now, c) ->
  exists start stop,
    schedule next arrivals !! k = Some (start, stop) /\
    stop = start + chunk_duration c /\
    scheduled_nodes arrivals (schedule next arrivals) !! k =
    Some (chunk_node c start).
Proof.
  revert next k. induction arrivals as [| [now0 c0] arrivals IH];
    intros next k Hk; [discriminate |].
  destruct k as [| k]; cbn in *.
  - injection Hk as -> ->. eauto.
  - apply IH, Hk.
Qed.

Lemma schedule_first (next : Q) (arrivals : list (Q * Chunk)) (now : Q)
  (c : Chunk) :
  arrivals !! 0%nat = Some (now, c) ->
  schedule next arrivals !! 0%nat =
  Some (Qmax now next, Qmax now next + chunk_duration c).
Proof.
  destruct arrivals as [| [now0 c0] arrivals]; [discriminate |].
  cbn. intros [= -> ->]. reflexivity.
Qed.

Lemma schedule_next (next : Q) (arrivals : list (Q * Chunk)) (k : nat)
  (now : Q) (c : Chunk) (start stop : Q) :
  schedule next arrivals !! k = Some (start, stop) ->
  arrivals !! S k = Some (now, c) ->
  schedule next arrivals !! S k =
  Some (Qmax now stop, Qmax now stop + chunk_duration c).
Proof.
  revert next k. induction arrivals as [| [now0 c0] arrivals IH];
    intros next k Hk HSk; [discriminate |].
  destruct k as [| k]; cbn in *.
  - injection Hk as <- <-. apply schedule_first, HSk.
  - apply IH; assumption.
Qed.

Section Durations.

Hypothesis rateSupported_positive : forall r, rateSupported r = true -> 0 < r.

Lemma chunk_duration_nonneg (c : Chunk) :
  acceptable c = true -> 0 <= chunk_duration c.
Proof.
  unfold acceptable, chunk_duration. intros H.
  apply andb_true_iff in H as [_ H]. apply rateSupported_positive in H.
  apply Qle_shift_div_l; [exact H |].
  rewrite Qmult_0_l. change 0 with (inject_Z 0).
  rewrite <- Zle_Qle. lia.
Qed.

Lemma schedule_bounds (next : Q) (arrivals : list (Q * Chunk)) (k : nat)
  (start stop : Q) :
  Forall (fun a => acceptable (snd a) = true) arrivals ->
  schedule next arrivals !! k = Some (start, stop) ->
  next <= start /\ start <= stop.
Proof.
  revert next k. induction arrivals as [| [now c] arrivals IH];
    intros next k Hall Hk; [discriminate |].
  apply Forall_cons_1 in Hall as [Hc Hall]. cbn in Hc.
  apply chunk_duration_nonneg in Hc.
  pose proof (Q.le_max_r now next) as Hmax.
  destruct k as [| k]; cbn in Hk.
  - injection Hk as <- <-. split; lra.
  - destruct (IH _ _ Hall Hk) as [H1 H2]. split; lra.
Qed.

Lemma schedule_no_overlap (next : Q) (arrivals : list (Q * Chunk)) (i j : nat)
  (start1 stop1 start2 stop2 : Q) :
  Forall (fun a => acceptable (snd a) = true) arrivals ->
  (i < j)%nat ->
  schedule next arrivals !! i = Some (start1, stop1) ->
  schedule next arrivals !! j = Some (start2, stop2) ->
  stop1 <= start2.
Proof.
  revert next i j. induction arrivals as [| [now c] arrivals IH];
    intros next i j Hall Hij Hi Hj; [discriminate |].
  apply Forall_cons_1 in Hall as [Hc Hall].
  destruct j as [| j]; [lia |]. destruct i as [| i]; cbn in Hi, Hj.
  - injection Hi as <- <-.
    apply (schedule_bounds _ _ _ _ _ Hall) in Hj. tauto.
  - apply (IH (Qmax now next + chunk_duration c) i j Hall);
      [lia | assumption | assumption].
Qed.

End Durations.

(** C3 (as amended).  On an engine that has its audio context and gain
    node, chunks that createBuffer accepts (non-empty, with a supported
    effective sample rate, 44100 standing in for a missing rate) are
    scheduled by the rule: a chunk starts at max(currentTime,
    nextPlayTime) and nextPlayTime moves to that start plus the chunk's
    duration (sample count over effective sample rate).  Every chunk
    gets its own source node, in arrival order, carrying its samples;
    the playing intervals never overlap; a chunk that arrives before its
    predecessor ends starts exactly at that end, and one that arrives
    later starts at its arrival. *)
Theorem C3_chunk_schedule (e : Engine) (arrivals : list (Q * Chunk)) :
  (forall r, rateSupported r = true -> 0 < r) ->
  truthy (audioContext e) = true -> truthy (gainNode e) = true ->
  Forall (fun a => acceptable (snd a) = true) arrivals ->
  let e' := run_chunks arrivals e in
  let slots := schedule (nextPlayTime e) arrivals in
  graph e' = graph e ++ scheduled_nodes arrivals slots /\
  nextPlayTime e' = final_slot (nextPlayTime e) slots /\
  length (graph e') = (length (graph e) + length arrivals)%nat /\
  (forall k now c,
     arrivals !! k = Some (now, c) ->
     exists start,
       slots !! k = Some (start, start + chunk_duration c) /\
       graph e' !! (length (graph e) + k)%nat = Some (chunk_node c start)) /\
  (forall now c,
     arrivals !! 0%nat = Some (now, c) ->
     slots !! 0%nat = Some (Qmax now (nextPlayTime e),
                            Qmax now (nextPlayTime e) + chunk_duration c)) /\
  (forall i j start1 stop1 start2 stop2,
     (i < j)%nat ->
     slots !! i = Some (start1, stop1) ->
     slots !! j = Some (start2, stop2) ->
     stop1 <= start2) /\
  (forall k now c start stop start' stop',
     slots !! k = Some (start, stop) ->
     arrivals !! S k = Some (now, c) ->
     slots !! S k = Some (start', stop') ->
     (now <= stop -> start' == stop) /\ (stop <= now -> start' == now)).
Proof.
  intros Hrate Hctx Hgn Hall e' slots.
  assert (He' : e' = with_nextPlayTime (final_slot (nextPlayTime e) slots)
                       (with_graph (graph e ++ scheduled_nodes arrivals slots) e))
    by exact (run_chunks_scheduled arrivals e Hctx Hgn Hall).
  assert (Hgraph : graph e' = graph e ++ scheduled_nodes arrivals slots)
    by (rewrite He'; reflexivity).
  split; [exact Hgraph |].
  split; [rewrite He'; reflexivity |].
  split; [| split; [| split; [| split]]].
  - rewrite Hgraph, length_app. unfold slots.
    rewrite scheduled_nodes_length. reflexivity.
  - intros k now c Hk.
    destruct (scheduled_nodes_lookup (nextPlayTime e) arrivals k now c Hk)
      as (start & stop & Hslot & -> & Hnode).
    exists start. split; [exact Hslot |].
    rewrite Hgraph, lookup_app_r by lia.
    replace (length (graph e) + k - length (graph e))%nat with k by lia.
    exact Hnode.
  - intros now c H0. apply schedule_first, H0.
  - intros i j start1 stop1 start2 stop2.
    apply schedule_no_overlap; assumption.
  - intros k now c start stop start' stop' Hk HSk Hslot.
    unfold slots in *.
    rewrite (schedule_next _ _ _ _ _ _ _ Hk HSk) in Hslot.
    injection Hslot as <- <-. split; intros Hle.
    + apply Q.max_r, Hle.
    + apply Q.max_l, Hle.
Qed.

End PlatformFacts.

(** *** Facts about the concrete engines *)

Lemma standard_rates_positive (r : Q) : standard_rates r = true -> 0 < r.
Proof.
  unfold standard_rates. intros H. apply andb_true_iff in H as [H _].
  apply Qle_bool_iff in H. lra.
Defined.

Lemma well_formed_loaded_engine : well_formed loaded_engine.
Proof.
  unfold well_formed. cbn. intuition congruence.
Defined.

Lemma C1_witness :
  well_formed loaded_engine /\
  intact loaded_engine = true /\
  truthy (audioBuffer loaded_engine) = true /\
  Forall (fun call => offset_ok (snd call)) [(0, CallPlay 0); (1, CallPause)] /\
  offset_ok (CallSeek 5) /\
  position_is
    (exec (seek 2 5) (run_playback [(0, CallPlay 0); (1, CallPause)] loaded_engine))
    2 5.
Proof.
  assert (Hhistory : Forall (fun call => offset_ok (snd call))
                       [(0, CallPlay 0); (1, CallPause)])
    by (repeat constructor; cbn; lra).
  assert (Hseek : offset_ok (CallSeek 5)) by (cbn; lra).
  split; [exact well_formed_loaded_engine |]. split; [reflexivity |].
  split; [reflexivity |]. split; [exact Hhistory |]. split; [exact Hseek |].
  pose proof (C1_playback_clock_invariant loaded_engine
                [(0, CallPlay 0); (1, CallPause)] 2 (CallSeek 5)
                well_formed_loaded_engine eq_refl) as H.
  cbn zeta in H. destruct H as (_ & H & _).
  destruct (H eq_refl Hhistory Hseek) as (_ & _ & Hposition).
  exact Hposition.
Defined.

(** The claim C1 as stated fails for a negative offset.  On a loaded
    engine play(-1) throws the RangeError of start(0, -1) before
    isPlaying is set: the engine is not playing and the position reads
    0, not -1.  The new source node stays current without having been
    started, so stop() throws on it, and with it every later play: a
    play(2) after it throws too and the position is still 0. *)
Lemma C1_counterexample :
  let e := exec (play 0 (-1)) loaded_engine in
  let e' := exec (play 1 2) e in
  (eval (play 0 (-1)) loaded_engine = Throw RangeError /\
   isPlaying e = false /\
   position_is e 0 0 /\ ~ position_is e 0 (-1)) /\
  (eval (play 1 2) e = Throw InvalidStateError /\
   e' = e /\
   position_is e' 1 0 /\ ~ position_is e' 1 2).
Proof.
  cbn zeta. split; (split; [reflexivity |]); (split; [reflexivity |]).
  - split; [exists 0; split; reflexivity |].
    intros (q & [= <-] & Hq). revert Hq. vm_compute. discriminate.
  - split; [exists 0; split; reflexivity |].
    intros (q & [= <-] & Hq). revert Hq. vm_compute. discriminate.
Qed.



(** The claim C3 as stated fails in two ways.  A chunk that reaches an
    engine without an audio context is dropped: no node is started and
    [nextPlayTime] stays where it was.  So is a chunk [createBuffer]
    refuses, here one without samples, on an initialised engine. *)
Lemma C3_counterexample :
  let c := {| audioData := [0.5; 0.25]; timestamp := 0;
              sampleRate := Some 44100 |} in
  let empty := {| audioData := []; timestamp := 0;
                  sampleRate := Some 44100 |} in
  let e1 := run_chunks (browser := standard_browser) [(3, c)] new_engine in
  let e2 := run_chunks (browser := standard_browser) [(3, empty)]
                       initialized_engine in
  (e1 = new_engine /\
   graph e1 <>
   graph new_engine ++
   scheduled_nodes [(3, c)] (schedule (nextPlayTime new_engine) [(3, c)])) /\
  (e2 = initialized_engine /\
   graph e2 <>
   graph initialized_engine ++
   scheduled_nodes [(3, empty)]
     (schedule (nextPlayTime initialized_engine) [(3, empty)])).
Proof.
  cbn zeta. split; (split; [reflexivity | vm_compute; discriminate]).
Qed.

Lemma C3_witness :
  let c1 := {| audioData := [0.5; 0.25]; timestamp := 0;
               sampleRate := Some 8000 |} in
  let c2 := {| audioData := [0.125]; timestamp := 1; sampleRate := None |} in
  let arrivals := [(3, c1); (3, c2)] in
  (forall r, rateSupported (Browser := standard_browser) r = true -> 0 < r) /\
  truthy (audioContext initialized_engine) = true /\
  truthy (gainNode initialized_engine) = true /\
  Forall (fun a => acceptable (browser := standard_browser) (snd a) = true) arrivals /\
  graph (run_chunks (browser := standard_browser) arrivals initialized_engine) =
  [chunk_node c1 3; chunk_node c2 (Qmax 3 (Qmax 3 0 + chunk_duration c1))].
Proof.
  cbn zeta.
  split; [exact standard_rates_positive |].
  split; [reflexivity |]. split; [reflexivity |].
  assert (Hall : Forall (fun a => acceptable (browser := standard_browser) (snd a) = true)
                   [(3, {| audioData := [0.5; 0.25]; timestamp := 0;
                           sampleRate := Some 8000 |});
                    (3, {| audioData := [0.125]; timestamp := 1;
                           sampleRate := None |})])
    by (repeat constructor).
  split; [exact Hall |].
  destruct (C3_chunk_schedule (browser := standard_browser) initialized_engine _
              standard_rates_positive eq_refl eq_refl Hall) as (H & _).
  exact H.
Defined.

Lemma C5_witness :
  let e := exec (play 5 2) loaded_engine in
  well_formed e /\
  exec (pause 9) (exec (pause 7) e) = exec (pause 7) e.
Proof.
  cbn zeta.
  assert (Hwf : well_formed (exec (play 5 2) loaded_engine))
    by (apply well_formed_play, well_formed_loaded_engine).
  split; [exact Hwf |].
  destruct (C5_pause_idempotent (exec (play 5 2) loaded_engine) 7 9 Hwf)
    as (_ & _ & H & _).
  exact H.
Defined.

Lemma C6_witness :
  well_formed initialized_engine /\
  forall t, 2 <= t -> volume_at (exec (setVolume 2 0.5) initialized_engine) t = 0.5.
Proof.
  assert (Hwf : well_formed initialized_engine)
    by (unfold well_formed; cbn; intuition congruence).
  split; [exact Hwf |].
  pose proof (C6_setVolume_steps initialized_engine 2 0.5 Hwf) as H.
  cbn zeta in H. change (gainNode initialized_engine)
    with (Some {| gain_events := [] |}) in H.
  destruct H as (_ & H & _). exact H.
Defined.

Lemma C10_witness :
  truthy (audioBuffer new_engine) = false /\
  play 0 0 new_engine = (Normal false, new_engine).
Proof.
  split; [reflexivity |].
  apply (C10_play_unloaded new_engine 0 0). left. reflexivity.
Defined.

End AudioSyncEngineFacts.

(** ** The Peer Connection Manager *)

Module P2PManagerFacts.

Import P2PManager.

Open Scope js_scope.

Section ManagerFacts.

Variable Data : Type.

(** *** The phases are the specification's *)

Lemma phase_walk (host : bool) :
  let m0 := new_manager Data in
  let m1 := exec (initialize host) m0 in
  let m2 := exec (ondatachannel {| readyState := channel_open; sent := [] |}) m1 in
  let m3 := exec close m2 in
  phase m0 = idle /\ phase m1 = negotiating /\ phase m2 = connected /\
  phase m3 = closed.
Proof.
  destruct host; repeat split; reflexivity.
Qed.

(** *** Sending is best effort *)

Ltac p2p_unfold :=
  unfold exec, eval, sendData, addIceCandidate, channel_send,
    pc_addIceCandidate, transmitted, channel_is_open, phase, bind, ret, get,
    modify, throw, lift.

(** C4.  sendData(d) hands d to the data channel if and only if the
    channel exists and its readyState is open; otherwise the payload is
    dropped: the call returns normally and no field of the manager
    changes, so nothing is queued. *)
Theorem C4_sendData_best_effort (m : Manager Data) (d : Data) :
  let m' := exec (sendData d) m in
  eval (sendData d) m = Normal tt /\
  (channel_is_open m = true ->
   transmitted m' = transmitted m ++ [d] /\
   channel_is_open m' = true /\
   peerConnection m' = peerConnection m /\
   isHost m' = isHost m /\
   connectionState m' = connectionState m) /\
  (channel_is_open m = false -> m' = m) /\
  (transmitted m' = transmitted m ++ [d] <-> channel_is_open m = true).
Proof.
  destruct m as [pc [[[] log] |] host state]; p2p_unfold; cbn;
    repeat split; try reflexivity; try discriminate; intros H;
    try (symmetry in H; apply app_cons_not_nil in H; contradiction);
    try (rewrite <- (app_nil_r log) in H at 1;
         apply app_inv_head in H; discriminate).
Qed.

(** *** Candidates never close the connection *)

Lemma addIceCandidate_fields (m : Manager Data) (c : IceCandidate) :
  connectionState (exec (addIceCandidate c) m) = connectionState m /\
  dataChannel (exec (addIceCandidate c) m) = dataChannel m /\
  isHost (exec (addIceCandidate c) m) = isHost m /\
  phase (exec (addIceCandidate c) m) = phase m.
Proof.
  destruct m as [[[pcs ld [rd |] cands] |] ch host state]; p2p_unfold; cbn;
    try (repeat split; reflexivity);
    destruct pcs; cbn; repeat split; reflexivity.
Qed.

(** C9.  addIceCandidate never faults the negotiation: whatever the
    manager's phase - uninitialised, negotiating, connected, closed -
    and however many stray, duplicate or late candidates arrive, the
    phase stays what it was (in particular it does not become closed)
    and connectionState, dataChannel and isHost are not written.  On an
    uninitialised manager the call does nothing, and a candidate the
    browser rejects changes no field. *)
Theorem C9_addIceCandidate_harmless (m : Manager Data)
  (candidates : list IceCandidate) (c : IceCandidate) :
  let m' := apply_candidates candidates m in
  phase m' = phase m /\
  connectionState m' = connectionState m /\
  dataChannel m' = dataChannel m /\
  isHost m' = isHost m /\
  (phase m <> closed -> phase (exec (addIceCandidate c) m) <> closed) /\
  (peerConnection m = None -> addIceCandidate c m = (Normal tt, m)) /\
  (forall err, eval (addIceCandidate c) m = Throw err ->
               exec (addIceCandidate c) m = m).
Proof.
  cbn zeta. split; [| split; [| split; [| split; [| split; [| split]]]]].
  1-4: revert m; induction candidates as [| c' cs IH]; intros m;
    [reflexivity |];
    change (apply_candidates (c' :: cs) m)
      with (apply_candidates cs (exec (addIceCandidate c') m));
    rewrite IH; apply addIceCandidate_fields.
  - destruct (addIceCandidate_fields m c) as (_ & _ & _ & ->). auto.
  - unfold addIceCandidate, bind, get, ret. intros ->. reflexivity.
  - intros err. destruct m as [[[pcs ld [rd |] cands] |] ch host state];
      p2p_unfold; cbn; try reflexivity; try discriminate.
    all: destruct pcs; cbn; try reflexivity; discriminate.
Qed.

End ManagerFacts.

End P2PManagerFacts.

(** ** The session glue *)

Module AppFacts.

Import P2PManager.
Import App.

Open Scope js_scope.
Open Scope string_scope.
Open Scope list_scope.

Section GlueFacts.

Variable Data : Type.
Variable handleP2PData : CallbackData Data -> M (State Data) unit.

(** C8.  Every ICE candidate the peer connection produces is forwarded
    to the relay as one webrtc_ice_candidate envelope whose target_id is
    'broadcast': it is addressed to all other members of the session,
    not to one peer.  (Nothing is sent while the relay socket is not
    open, and the end-of-candidates event sends nothing.) *)
Theorem C8_ice_candidates_broadcast (s : State Data) (c : IceCandidate) :
  let s' := exec (ice_candidate_event Data handleP2PData (Some c)) s in
  (exists forwarded,
     outbox s' = outbox s ++ forwarded /\
     Forall (fun message =>
               envelope_type message = "webrtc_ice_candidate" /\
               target_id message = "broadcast") forwarded) /\
  (socket_is_open s = true ->
   outbox s' =
   outbox s ++ [webrtc_ice_candidate (candidate_data c) "broadcast"]) /\
  (socket_is_open s = false -> s' = s) /\
  exec (ice_candidate_event Data handleP2PData None) s = s.
Proof.
  unfold ice_candidate_event, onicecandidate, upcalls, upcall, p2p_onMessage,
    sendWebSocketMessage, outbox, socket_is_open, exec, bind, ret, get, modify.
  destruct s as [[[[] log] |] state]; cbn.
  all: split;
    [ first [ exists [webrtc_ice_candidate (candidate_data c) "broadcast"];
              split; [reflexivity | repeat constructor]
            | exists []; split;
              [rewrite ?app_nil_r; reflexivity | constructor] ]
    | repeat split; try reflexivity; discriminate ].
Qed.

End GlueFacts.

End AppFacts.
(** ** Further properties of the engine *)

Module EngineLaws.

Import AudioSyncEngine.
Import EngineStates.
Import AudioSyncEngineFacts.

Open Scope js_scope.

(** *** [stop] and restarting *)

Lemma stop_stopped (e : Engine) : stop (stopped e) = (Normal tt, stopped e).
Proof.
  rewrite stop_intact by apply intact_stopped.
  unfold stopped, graph_after_stop. js_fields e. reflexivity.
Qed.

Lemma play_after_stop (now startOffset : Q) (e : Engine) :
  intact e = true ->
  truthy (audioBuffer e) = true -> truthy (audioContext e) = true ->
  play now startOffset (stopped e) = play now startOffset e.
Proof.
  unfold intact, stopped, graph_after_stop. js_fields e. cbn.
  intros Hin Hb Hc. destruct buf; [| discriminate].
  destruct ctx; [| discriminate].
  js_unfold. unfold started in *. cbn in *.
  destruct src as [node |]; cbn; [rewrite Hin; cbn |]; reflexivity.
Qed.

(** stop() rewinds an engine whose current source node, if any, was
    started, and never throws on it: the clock state is (0, 0, paused),
    the position reads 0 whatever the time, and the source node
    reference is dropped after that node is stopped.  A second stop()
    changes nothing, and on an engine with a buffer and a context
    play(t) after stop() is play(t).  On a current node that was never
    started stop() throws InvalidStateError and changes nothing. *)
Theorem stop_rewinds (e : Engine) (now startOffset : Q) :
  let e' := exec stop e in
  (intact e = true ->
   eval stop e = Normal tt /\
   clock_state e' = (0, 0, false) /\
   sourceNode e' = None /\
   graph e' = graph_after_stop e /\
   (forall t, eval (getCurrentTime t) e' = Normal 0) /\
   stop e' = (Normal tt, e') /\
   (truthy (audioBuffer e) = true -> truthy (audioContext e) = true ->
    play now startOffset e' = play now startOffset e)) /\
  (intact e = false -> stop e = (Throw InvalidStateError, e)).
Proof.
  cbn zeta. split; [| apply stop_broken].
  intros Hin. unfold exec, eval. rewrite stop_intact by exact Hin.
  cbn [fst snd].
  split; [reflexivity |]. split; [reflexivity |]. split; [reflexivity |].
  split; [reflexivity |]. split; [reflexivity |].
  split; [apply stop_stopped |].
  intros Hb Hc. apply play_after_stop; assumption.
Qed.

(** play(t) on a loaded engine whose current source node, if any, was
    started.  For an offset that is not negative it restarts cleanly:
    the node that was current is stopped, exactly one node is added -
    connected, holding the loaded buffer, started at offset t - and
    becomes current.  For a negative offset start throws RangeError:
    the added node becomes current without having been started, the
    engine is left not playing at position 0, and from then on stop()
    and every play throw InvalidStateError and change nothing.  Either
    way every other node and the chunk schedule are left alone. *)
Theorem play_restarts_or_breaks (e : Engine) (now startOffset : Q) :
  well_formed e -> truthy (audioBuffer e) = true -> intact e = true ->
  let e' := exec (play now startOffset) e in
  (0 <= startOffset ->
   eval (play now startOffset) e = Normal true /\
   graph e' = graph_after_stop e ++ [file_node (audioBuffer e) startOffset] /\
   isPlaying e' = true /\ intact e' = true) /\
  (startOffset < 0 ->
   eval (play now startOffset) e = Throw RangeError /\
   graph e' = graph_after_stop e ++ [unstarted_node (audioBuffer e)] /\
   isPlaying e' = false /\
   (forall t, eval (getCurrentTime t) e' = Normal 0) /\
   stop e' = (Throw InvalidStateError, e') /\
   (forall later offset, play later offset e' = (Throw InvalidStateError, e'))) /\
  sourceNode e' = Some (length (graph e)) /\
  nextPlayTime e' = nextPlayTime e /\
  audioBuffer e' = audioBuffer e /\
  gainNode e' = gainNode e.
Proof.
  intros Hwf Hb Hin. cbn zeta. unfold eval, exec.
  pose proof (play_from_stopped now startOffset e Hwf Hin Hb) as Hplay.
  split; [| split].
  - intros Hoff. rewrite play_ok by assumption. cbn [fst snd].
    repeat split. apply intact_restarted.
  - intros Hoff. rewrite play_negative by assumption. cbn [fst snd].
    assert (Hwf' : well_formed (start_failed now startOffset e))
      by (apply well_formed_start_failed; assumption).
    pose proof (intact_start_failed now startOffset e) as Hin'.
    repeat split.
    + apply stop_broken, Hin'.
    + intros later offset. apply play_broken; [exact Hwf' | exact Hin' |].
      exact Hb.
  - rewrite Hplay. destruct (Qle_bool 0 startOffset); repeat split.
Qed.

(** *** The flag and the node *)

Lemma agrees_same (e e' : Engine) :
  sourceNode e' = sourceNode e -> graph e' = graph e ->
  isPlaying e' = isPlaying e ->
  current_node_agrees e -> current_node_agrees e'.
Proof.
  unfold current_node_agrees. intros -> -> ->. exact (fun H => H).
Qed.

Lemma agrees_grown (e e' : Engine) (new : list AudioBufferSourceNode) :
  sourceNode e' = sourceNode e -> graph e' = graph e ++ new ->
  isPlaying e' = isPlaying e ->
  current_node_agrees e -> current_node_agrees e'.
Proof.
  unfold current_node_agrees. intros -> -> ->.
  destruct (sourceNode e) as [i |]; [| exact (fun H => H)].
  intros (n & Hn & Hrest). exists n. split; [| exact Hrest].
  rewrite lookup_app_l; [exact Hn |]. eapply lookup_lt_Some, Hn.
Qed.

Lemma agrees_new_node (e : Engine) (n : AudioBufferSourceNode)
  (g : list AudioBufferSourceNode) :
  sourceNode e = Some (length g) -> graph e = g ++ [n] ->
  isPlaying e = truthy (node_started n) && negb (node_stopped n) ->
  current_node_agrees e.
Proof.
  unfold current_node_agrees. intros -> -> Hp. exists n.
  split; [| exact Hp].
  rewrite lookup_app_r by lia. rewrite Nat.sub_diag. reflexivity.
Qed.

Lemma agrees_play (now offset : Q) (e : Engine) :
  well_formed e -> current_node_agrees e ->
  current_node_agrees (exec (play now offset) e).
Proof.
  intros Hwf Hag. unfold exec.
  destruct (truthy (audioBuffer e)) eqn:Hb;
    [| rewrite play_guard by (left; exact Hb); exact Hag].
  destruct (intact e) eqn:Hin;
    [| rewrite play_broken by assumption; exact Hag].
  rewrite play_from_stopped by assumption.
  destruct (Qle_bool 0 offset); cbn [snd];
    (eapply agrees_new_node;
     [cbn [sourceNode restarted start_failed];
      rewrite <- (length_graph_after_stop e); reflexivity
     | reflexivity | reflexivity]).
Qed.

Lemma agrees_paused (now : Q) (e : Engine) :
  isPlaying e = true -> current_node_agrees e ->
  current_node_agrees (paused now e).
Proof.
  unfold current_node_agrees, paused, graph_after_stop. js_fields e. cbn.
  intros ->. destruct src as [i |]; [| discriminate].
  intros (n & Hn & Hflag). exists (stopped_node n). split.
  - rewrite list_lookup_alter, decide_True by reflexivity.
    rewrite Hn. reflexivity.
  - cbn. rewrite andb_false_r. reflexivity.
Qed.

Lemma agrees_pause (now : Q) (e : Engine) :
  well_formed e -> current_node_agrees e ->
  current_node_agrees (exec (pause now) e).
Proof.
  intros Hwf Hag. unfold exec. destruct (isPlaying e) eqn:Hp.
  - rewrite pause_playing by assumption. apply agrees_paused; assumption.
  - rewrite pause_paused by exact Hp. exact Hag.
Qed.

Lemma agrees_stop (e : Engine) :
  current_node_agrees e -> current_node_agrees (exec stop e).
Proof.
  intros Hag. unfold exec. destruct (intact e) eqn:Hin.
  - rewrite stop_intact by exact Hin. reflexivity.
  - rewrite stop_broken by exact Hin. exact Hag.
Qed.

Lemma agrees_seek (now time : Q) (e : Engine) :
  well_formed e -> current_node_agrees e ->
  current_node_agrees (exec (seek now time) e).
Proof.
  intros Hwf Hag. destruct (isPlaying e) eqn:Hp.
  - destruct (seek_playing now time e Hp) as [-> _].
    apply agrees_play; assumption.
  - unfold exec. rewrite seek_paused by exact Hp.
    apply (agrees_same e); [| | | exact Hag]; reflexivity.
Qed.

(** *** Corrections settle *)

Lemma drift_zero (q target : Q) :
  q == target -> Qgtb (Qabs (q - target)) 0.05 = false.
Proof.
  intros H. apply Qgtb_false, Qabs_le. lra.
Qed.

Lemma syncWithHost_near
  (e : Engine) (perfNow now hostTime hostTimestamp : Q) :
  well_formed e ->
  isPlaying e = false \/
  0 <= hostTime + (perfNow - hostTimestamp) / 2 / 1000 ->
  let projected := hostTime + (perfNow - hostTimestamp) / 2 / 1000 in
  let e' := exec (syncWithHost perfNow now hostTime hostTimestamp) e in
  eval (syncWithHost perfNow now hostTime hostTimestamp) e = Normal tt /\
  (exists p, eval (getCurrentTime now) e' = Normal p /\
             Qabs (p - projected) <= 0.05) /\
  isPlaying e' = isPlaying e.
Proof.
  intros Hwf Hok projected e'.
  pose proof (getCurrentTime_well_formed now e Hwf) as Hcur.
  destruct (Qgtb (Qabs ((if isPlaying e then now - startTime e else pauseTime e)
                        - projected)) 0.05) eqn:Hgt.
  - assert (He' : e' = exec (seek now projected) e)
      by exact (syncWithHost_reseek _ _ _ _ _ _ Hcur Hgt).
    destruct (seek_position now projected e Hwf Hok) as (q & Hq & Hqeq).
    destruct (seek_sets_position now projected e Hwf Hok) as (Hret & Hpl & _).
    rewrite <- He' in Hq, Hpl. split; [| split].
    + rewrite (syncWithHost_reseek_eval _ _ _ _ _ _ Hcur Hgt). exact Hret.
    + exists q. split; [exact Hq |]. apply Qabs_le. lra.
    + exact Hpl.
  - assert (He' : e' = e) by exact (syncWithHost_keep _ _ _ _ _ _ Hcur Hgt).
    rewrite He'. split; [| split; [| reflexivity]].
    + exact (syncWithHost_keep_eval _ _ _ _ _ _ Hcur Hgt).
    + eexists. split; [exact Hcur |]. apply Qgtb_false, Hgt.
Qed.

Lemma syncWithHost_settled
  (perfNow now hostTime hostTimestamp p : Q) (e : Engine) :
  eval (getCurrentTime now) e = Normal p ->
  Qabs (p - (hostTime + (perfNow - hostTimestamp) / 2 / 1000)) <= 0.05 ->
  syncWithHost perfNow now hostTime hostTimestamp e = (Normal tt, e).
Proof.
  intros Hp Hnear. apply Qgtb_false in Hnear.
  pose proof (syncWithHost_keep _ _ _ _ _ _ Hp Hnear) as Hexec.
  pose proof (syncWithHost_keep_eval _ _ _ _ _ _ Hp Hnear) as Heval.
  unfold exec, eval in *.
  destruct (syncWithHost perfNow now hostTime hostTimestamp e) as [c e'].
  cbn in *. congruence.
Qed.

(** After a syncWithHost that finds the engine paused, or projects a
    host position that is not negative, the call has returned normally,
    the engine is within the 0.05 s threshold of the projected host
    position, it is playing if and only if it was, and the same
    correction applied again changes nothing. *)
Theorem syncWithHost_settles
  (e : Engine) (perfNow now hostTime hostTimestamp : Q) :
  well_formed e ->
  isPlaying e = false \/
  0 <= hostTime + (perfNow - hostTimestamp) / 2 / 1000 ->
  let projected := hostTime + (perfNow - hostTimestamp) / 2 / 1000 in
  let e' := exec (syncWithHost perfNow now hostTime hostTimestamp) e in
  eval (syncWithHost perfNow now hostTime hostTimestamp) e = Normal tt /\
  (exists p, eval (getCurrentTime now) e' = Normal p /\
             Qabs (p - projected) <= 0.05) /\
  isPlaying e' = isPlaying e /\
  syncWithHost perfNow now hostTime hostTimestamp e' = (Normal tt, e').
Proof.
  intros Hwf Hok projected e'.
  destruct (syncWithHost_near e perfNow now hostTime hostTimestamp Hwf Hok)
    as (Hret & (p & Hp & Hnear) & Hpl).
  split; [exact Hret |]. split; [exists p; split; assumption |].
  split; [exact Hpl |].
  exact (syncWithHost_settled _ _ _ _ p _ Hp Hnear).
Qed.


(** *** Volume *)

Lemma setVolume_result (now volume : Q) (e : Engine) (g : GainNode) :
  truthy (audioContext e) = true -> gainNode e = Some g ->
  exec (setVolume now volume) e =
  with_gainNode (Some (setValueAtTime volume now g)) e.
Proof.
  js_fields e. js_unfold. cbn. intros Hctx ->.
  destruct ctx; [reflexivity | discriminate].
Qed.

(** Of two setVolume calls the later one wins from its own instant on,
    the earlier one holds in between, and before the first the gain
    curve is what it was.  The playback clock, the graph and the chunk
    schedule are not touched. *)
Theorem setVolume_last_wins (e : Engine) (t1 v1 t2 v2 : Q) :
  truthy (audioContext e) = true -> truthy (gainNode e) = true ->
  t1 <= t2 ->
  let e' := exec (setVolume t2 v2) (exec (setVolume t1 v1) e) in
  (forall t, t2 <= t -> volume_at e' t = v2) /\
  (forall t, t1 <= t -> t < t2 -> volume_at e' t = v1) /\
  (forall t, t < t1 -> volume_at e' t = volume_at e t) /\
  clock_state e' = clock_state e /\
  graph e' = graph e /\
  nextPlayTime e' = nextPlayTime e.
Proof.
  intros Hctx Hgn Hle e'. subst e'.
  destruct (gainNode e) as [g |] eqn:Hg; [| discriminate].
  rewrite (setVolume_result t1 v1 e g Hctx Hg).
  rewrite (setVolume_result t2 v2 _ (setValueAtTime v1 t1 g)) by
    (destruct e; first [exact Hctx | reflexivity]).
  unfold volume_at. rewrite Hg. cbn [gainNode with_gainNode].
  repeat split; intros t Ht; try intros Ht';
    rewrite !gain_value_setValueAtTime.
  - apply Qle_bool_iff in Ht. rewrite Ht. reflexivity.
  - apply Qle_bool_iff in Ht. rewrite Ht.
    destruct (Qle_bool t2 t) eqn:E; [| reflexivity].
    apply Qle_bool_iff in E. lra.
  - destruct (Qle_bool t2 t) eqn:E2;
      [apply Qle_bool_iff in E2; lra |].
    destruct (Qle_bool t1 t) eqn:E1;
      [apply Qle_bool_iff in E1; lra | reflexivity].
Qed.

(** *** File playback and the chunk schedule do not interfere *)

(** What [stop] does to the chunk schedule and to a node that is not
    current, in every state. *)
Lemma stop_leaves_others (e : Engine) (j : nat) :
  sourceNode e <> Some j ->
  nextPlayTime (exec stop e) = nextPlayTime e /\
  graph (exec stop e) !! j = graph e !! j /\
  length (graph (exec stop e)) = length (graph e) /\
  audioBuffer (exec stop e) = audioBuffer e /\
  audioContext (exec stop e) = audioContext e /\
  gainNode (exec stop e) = gainNode e.
Proof.
  intros Hj. unfold exec. destruct (intact e) eqn:Hin.
  - rewrite stop_intact by exact Hin.
    unfold stopped, graph_after_stop. js_fields e. cbn in *.
    destruct src as [i |]; rewrite ?length_alter; repeat split.
    apply list_lookup_alter_ne. congruence.
  - rewrite stop_broken by exact Hin. repeat split.
Qed.

Arguments stop : simpl never.

Lemma play_leaves_others (now offset : Q) (e : Engine) (j : nat) :
  sourceNode e <> Some j -> (j < length (graph e))%nat ->
  nextPlayTime (exec (play now offset) e) = nextPlayTime e /\
  graph (exec (play now offset) e) !! j = graph e !! j.
Proof.
  intros Hj Hlt.
  destruct (stop_leaves_others e j Hj) as (Hnext & Hnode & Hlen & Hb & Hc & Hg).
  revert Hnext Hnode Hlen Hb Hc Hg.
  unfold play, exec, bind, get, ret.
  destruct (audioBuffer e) as [b |]; cbn; [| repeat split].
  destruct (audioContext e) as [c |] eqn:Hctx; cbn; [| repeat split].
  destruct (stop e) as [[[] | err] e1]; cbn; [| intros; split; assumption].
  intros Hnext Hnode Hlen _ Hc Hg. js_fields e1. cbn in *. subst ctx gn npt.
  js_unfold. cbn.
  destruct (gainNode e); cbn;
    [| split; [reflexivity |]; rewrite ?alter_new_node;
       rewrite lookup_app_l by lia; exact Hnode].
  rewrite !alter_new_node. cbn.
  destruct (Qle_bool 0 offset); cbn; rewrite ?alter_new_node;
    (split; [reflexivity |]); rewrite lookup_app_l by lia; exact Hnode.
Qed.

Lemma pause_leaves_others (now : Q) (e : Engine) (j : nat) :
  sourceNode e <> Some j ->
  nextPlayTime (exec (pause now) e) = nextPlayTime e /\
  graph (exec (pause now) e) !! j = graph e !! j.
Proof.
  intros Hj. js_fields e. cbn in Hj. js_unfold. unfold started. cbn.
  destruct src as [i |]; [| repeat split].
  destruct playing; [| repeat split].
  destruct ctx; cbn; [| repeat split].
  destruct (g !! i) as [n |]; cbn; [| repeat split].
  destruct (node_started n); cbn; [| repeat split].
  split; [reflexivity |]. apply list_lookup_alter_ne. congruence.
Qed.

(** play, pause, seek and stop leave nextPlayTime alone and touch no
    node but the current source node: the nodes of scheduled chunks go
    on playing. *)
Theorem playback_leaves_chunks_alone
  (e : Engine) (now : Q) (c : PlaybackCall) (j : nat) :
  sourceNode e <> Some j -> (j < length (graph e))%nat ->
  nextPlayTime (exec (playback_call now c) e) = nextPlayTime e /\
  graph (exec (playback_call now c) e) !! j = graph e !! j /\
  nextPlayTime (exec stop e) = nextPlayTime e /\
  graph (exec stop e) !! j = graph e !! j.
Proof.
  intros Hj Hlt.
  destruct (stop_leaves_others e j Hj) as (Hnext & Hnode & _).
  enough (nextPlayTime (exec (playback_call now c) e) = nextPlayTime e /\
          graph (exec (playback_call now c) e) !! j = graph e !! j)
    by tauto.
  destruct c as [offset | | time]; cbn [playback_call];
    rewrite ?exec_discard.
  - apply play_leaves_others; assumption.
  - apply pause_leaves_others; assumption.
  - destruct (isPlaying e) eqn:Hp.
    + destruct (seek_playing now time e Hp) as [-> _].
      apply play_leaves_others; assumption.
    + unfold exec. rewrite seek_paused by exact Hp. split; reflexivity.
Qed.

(** *** Which calls throw *)

Lemma stop_eval (e : Engine) :
  eval stop e = if intact e then Normal tt else Throw InvalidStateError.
Proof.
  unfold eval. destruct (intact e) eqn:Hin.
  - rewrite stop_intact by exact Hin. reflexivity.
  - rewrite stop_broken by exact Hin. reflexivity.
Qed.

Lemma play_eval (now offset : Q) (e : Engine) :
  well_formed e ->
  eval (play now offset) e =
  if truthy (audioBuffer e)
  then if intact e
       then if Qle_bool 0 offset then Normal true else Throw RangeError
       else Throw InvalidStateError
  else Normal false.
Proof.
  intros Hwf. unfold eval.
  destruct (truthy (audioBuffer e)) eqn:Hb;
    [| rewrite play_guard by (left; exact Hb); reflexivity].
  destruct (intact e) eqn:Hin;
    [| rewrite play_broken by assumption; reflexivity].
  rewrite play_from_stopped by assumption.
  destruct (Qle_bool 0 offset); reflexivity.
Qed.

Lemma seek_eval (now time : Q) (e : Engine) :
  well_formed e ->
  eval (seek now time) e =
  if isPlaying e && negb (Qle_bool 0 time)
  then Throw RangeError else Normal tt.
Proof.
  intros Hwf. destruct (isPlaying e) eqn:Hp; cbn [andb].
  - destruct (seek_playing now time e Hp) as [_ ->].
    rewrite (play_eval now time e Hwf).
    rewrite (playing_loaded e Hwf Hp), (playing_intact e Hwf Hp).
    destruct (Qle_bool 0 time); reflexivity.
  - unfold eval. rewrite seek_paused by exact Hp. reflexivity.
Qed.

Lemma setVolume_returns (now volume : Q) (e : Engine) :
  well_formed e -> eval (setVolume now volume) e = Normal tt.
Proof.
  unfold well_formed. js_fields e. js_unfold. cbn.
  intros (_ & _ & _ & Hctx). destruct gn, ctx; cbn in *;
    try reflexivity; discriminate.
Qed.

Lemma syncWithHost_eval (perfNow now hostTime hostTimestamp : Q)
  (e : Engine) :
  well_formed e ->
  eval (syncWithHost perfNow now hostTime hostTimestamp) e = Normal tt \/
  eval (syncWithHost perfNow now hostTime hostTimestamp) e =
  eval (seek now (hostTime + (perfNow - hostTimestamp) / 2 / 1000)) e.
Proof.
  intros Hwf.
  pose proof (getCurrentTime_well_formed now e Hwf) as Hcur.
  destruct (Qgtb (Qabs ((if isPlaying e then now - startTime e else pauseTime e)
                        - (hostTime + (perfNow - hostTimestamp) / 2 / 1000)))
                 0.05) eqn:Hgt.
  - right. exact (syncWithHost_reseek_eval _ _ _ _ _ _ Hcur Hgt).
  - left. exact (syncWithHost_keep_eval _ _ _ _ _ _ Hcur Hgt).
Qed.

Section OnAnyBrowser.

Context {browser : Browser}.

Lemma agrees_call (e : Engine) (c : Call) :
  well_formed e -> current_node_agrees e ->
  current_node_agrees (exec (call c) e).
Proof.
  intros Hwf Hag.
  destruct c as [nc | file | now off | now | | now v
                | perfNow now h ht | now t | now data ts rate];
    cbn [call]; rewrite ?exec_discard.
  - apply (agrees_same e); [| | | exact Hag];
      unfold initialize, exec, try_catch, bind, lift, modify, ret;
      destruct nc; reflexivity.
  - apply (agrees_same e); [| | | exact Hag]; unfold exec;
      destruct (loadAudioFile_cases file e) as [(d & ->) | ->]; reflexivity.
  - apply agrees_play; assumption.
  - apply agrees_pause; assumption.
  - apply agrees_stop; assumption.
  - apply (agrees_same e); [| | | exact Hag];
      js_fields e; js_unfold; cbn; destruct gn, ctx; reflexivity.
  - destruct (syncWithHost_cases perfNow now h ht e) as [-> | ->];
      [exact Hag | apply agrees_seek; assumption].
  - apply agrees_seek; assumption.
  - destruct (ingest_cases now {| audioData := data; timestamp := ts;
                                  sampleRate := rate |} e)
      as (_ & Hclock & Hsrc & _ & _ & _ & (new & Hg) & _).
    cbn zeta in *. injection Hclock as _ _ Hpl.
    eapply agrees_grown; eassumption.
Qed.

(** In every state a history of calls can reach - whatever their
    arguments, and whether or not they threw - the isPlaying flag
    agrees with the current source node: the reference points at a node
    of the graph, and the engine is playing exactly when that node has
    been started and not stopped; with no current node the engine is
    not playing. *)
Theorem flag_agrees_with_node (e : Engine) :
  reachable e -> current_node_agrees e.
Proof.
  intros Hr.
  enough (well_formed e /\ current_node_agrees e) by tauto.
  induction Hr as [| e c Hr [Hwf Hag]].
  - split; [apply well_formed_new | reflexivity].
  - split; [apply well_formed_call, Hwf | apply agrees_call; assumption].
Qed.

(** Which calls throw, in every state a history of calls can reach.
    Reading the position returns a number, and initialize,
    loadAudioFile, pause, setVolume and playAudioChunk return normally:
    their null dereferences cannot be reached.  stop() throws
    InvalidStateError exactly when the current source node was never
    started.  play(t) on a loaded engine throws InvalidStateError in
    that case too, and otherwise RangeError exactly when t is negative.
    seek(t) throws RangeError exactly when the engine is playing and t
    is negative, and syncWithHost only throws what its seek throws. *)
Theorem start_and_stop_are_what_throws (e : Engine) (c : Call) (now : Q) :
  reachable e ->
  (exists p, eval (getCurrentTime now) e = Normal p) /\
  match c with
  | Stop =>
      eval (call c) e =
      if intact e then Normal tt else Throw InvalidStateError
  | Play _ startOffset =>
      eval (call c) e =
      if truthy (audioBuffer e)
      then if intact e
           then if Qle_bool 0 startOffset then Normal tt
                else Throw RangeError
           else Throw InvalidStateError
      else Normal tt
  | Seek _ time =>
      eval (call c) e =
      if isPlaying e && negb (Qle_bool 0 time)
      then Throw RangeError else Normal tt
  | SyncWithHost perfNow _ hostTime hostTimestamp =>
      (isPlaying e = false \/
       0 <= hostTime + (perfNow - hostTimestamp) / 2 / 1000 ->
       eval (call c) e = Normal tt) /\
      (forall err, eval (call c) e = Throw err ->
                   err = RangeError /\ isPlaying e = true)
  | _ => eval (call c) e = Normal tt
  end.
Proof.
  intros Hr. apply reachable_well_formed in Hr as Hwf.
  split; [eexists; apply getCurrentTime_well_formed, Hwf |].
  destruct c as [nc | file | t off | t | | t v
                | perfNow t h ht | t time | t data ts rate];
    cbn [call].
  - apply eval_discard with (a := match nc with Normal _ => true | _ => false end).
    unfold initialize, eval, try_catch, bind, lift, modify, ret.
    destruct nc; reflexivity.
  - destruct (loadAudioFile_cases file e) as [(d & H) | H];
      [apply eval_discard with (a := true)
      | apply eval_discard with (a := false)];
      unfold eval; rewrite H; reflexivity.
  - pose proof (play_eval t off e Hwf) as Hplay.
    unfold eval, bind, ret in *.
    destruct (play t off e) as [[b | err] e']; cbn in *;
      destruct (truthy (audioBuffer e)), (intact e), (Qle_bool 0 off);
      congruence.
  - apply pause_freezes, Hwf.
  - apply stop_eval.
  - apply setVolume_returns, Hwf.
  - pose proof (seek_eval t (h + (perfNow - ht) / 2 / 1000) e Hwf) as Hseek.
    destruct (syncWithHost_eval perfNow t h ht e Hwf) as [Hs | Hs];
      rewrite Hs; [split; [reflexivity | discriminate] |].
    rewrite Hseek. split.
    + intros [Hp | Hpos].
      * rewrite Hp. reflexivity.
      * rewrite (Qle_bool_true _ _ Hpos), andb_false_r. reflexivity.
    + intros err. destruct (isPlaying e); cbn [andb]; [| discriminate].
      destruct (Qle_bool 0 _); cbn [negb]; [discriminate |].
      intros [= <-]. split; reflexivity.
  - apply seek_eval, Hwf.
  - apply (ingest_cases t {| audioData := data; timestamp := ts;
                             sampleRate := rate |} e).
Qed.

(** *** Chunks *)

(** A received chunk never disturbs file playback: whatever the state
    and whatever the chunk, playAudioChunk leaves the playback clock,
    the current source node, the loaded buffer and the gain node as
    they were, and only ever adds nodes to the graph. *)
Theorem chunks_leave_playback_alone
  (e : Engine) (arrivals : list (Q * Chunk)) :
  let e' := run_chunks arrivals e in
  clock_state e' = clock_state e /\
  sourceNode e' = sourceNode e /\
  audioBuffer e' = audioBuffer e /\
  gainNode e' = gainNode e /\
  exists new, graph e' = graph e ++ new.
Proof.
  revert e. induction arrivals as [| [now c] arrivals IH]; intros e.
  - cbn. repeat split. exists []. rewrite app_nil_r. reflexivity.
  - change (run_chunks ((now, c) :: arrivals) e)
      with (run_chunks arrivals (exec (ingest (now, c)) e)).
    destruct (IH (exec (ingest (now, c)) e))
      as (H1 & H2 & H3 & H4 & (new2 & H5)).
    destruct (ingest_cases now c e)
      as (_ & G1 & G2 & G3 & _ & G4 & (new1 & G5) & _).
    cbn zeta in *.
    rewrite H1, H2, H3, H4, H5, G1, G2, G3, G4, G5.
    repeat split. exists (new1 ++ new2). rewrite app_assoc. reflexivity.
Qed.

(** A chunk that cannot be played is dropped without a trace: on an
    engine without an audio context, or when createBuffer refuses the
    chunk, playAudioChunk returns normally and changes no field. *)
Theorem unplayable_chunk_is_dropped (e : Engine) (now : Q) (c : Chunk) :
  truthy (audioContext e) = false \/ acceptable c = false ->
  ingest (now, c) e = (Normal tt, e).
Proof.
  intros [H | H];
    [apply playAudioChunk_no_context | apply playAudioChunk_refused];
    exact H.
Qed.

(** loadAudioFile before initialize: without an audio context nothing
    decodes, whatever the file. *)
Theorem loadAudioFile_needs_context (file : File) (e : Engine) :
  truthy (audioContext e) = false ->
  loadAudioFile file e = (Normal false, e).
Proof.
  js_unfold_platform. destruct (audioContext e); [discriminate |].
  intros _. destruct (file_arrayBuffer file); reflexivity.
Qed.

Section PositiveRates.

Hypothesis rateSupported_positive : forall r, rateSupported r = true -> 0 < r.

(** nextPlayTime never moves back: whatever chunks arrive, in whatever
    state, the end of the schedule only advances. *)
Theorem nextPlayTime_never_moves_back
  (e : Engine) (arrivals : list (Q * Chunk)) :
  nextPlayTime e <= nextPlayTime (run_chunks arrivals e).
Proof using rateSupported_positive.
  revert e. induction arrivals as [| [now c] arrivals IH]; intros e.
  - cbn. lra.
  - change (run_chunks ((now, c) :: arrivals) e)
      with (run_chunks arrivals (exec (ingest (now, c)) e)).
    specialize (IH (exec (ingest (now, c)) e)).
    destruct (ingest_cases now c e)
      as (_ & _ & _ & _ & _ & _ & _ & [H | [Hok H]]);
      cbn zeta in H; rewrite H in IH; [exact IH |].
    pose proof (chunk_duration_nonneg rateSupported_positive c Hok).
    pose proof (Q.le_max_r now (nextPlayTime e)). lra.
Qed.

End PositiveRates.

Lemma schedule_not_before_arrival (next : Q) (arrivals : list (Q * Chunk))
  (k : nat) (now : Q) (c : Chunk) (start stop : Q) :
  arrivals !! k = Some (now, c) ->
  schedule next arrivals !! k = Some (start, stop) ->
  now <= start.
Proof.
  revert next k. induction arrivals as [| [now0 c0] arrivals IH];
    intros next k Hk Hs; [discriminate |].
  destruct k as [| k]; cbn in *.
  - injection Hk as -> ->. injection Hs as <- _. apply Q.le_max_l.
  - exact (IH _ _ Hk Hs).
Qed.

Lemma final_slot_unstarved (rest : list (Q * Chunk)) (x previousEnd : Q) :
  x == previousEnd -> never_starves previousEnd rest ->
  final_slot x (schedule x rest) == previousEnd + total_duration rest.
Proof.
  revert x previousEnd.
  induction rest as [| [now c] rest IH]; intros x previousEnd Hx Hns.
  - cbn. lra.
  - destruct Hns as [Hnow Hns]. cbn [schedule final_slot total_duration].
    rewrite (IH _ (previousEnd + chunk_duration c)); [lra | | exact Hns].
    rewrite Q.max_r by lra. lra.
Qed.

(** No chunk is scheduled in the past, and a stream that never starves
    plays for exactly the sum of its chunks' durations: on an
    initialised engine, with chunks createBuffer accepts, every chunk
    starts at or after the audio time at which it arrived; and when
    each chunk after the first arrives no later than the end of the one
    before, nextPlayTime ends at the first chunk's start plus the total
    duration. *)
Theorem unstarved_stream_length
  (e : Engine) (now : Q) (c : Chunk) (rest : list (Q * Chunk)) :
  truthy (audioContext e) = true -> truthy (gainNode e) = true ->
  Forall (fun a => acceptable (snd a) = true) ((now, c) :: rest) ->
  let e' := run_chunks ((now, c) :: rest) e in
  let firstStart := Qmax now (nextPlayTime e) in
  (forall k arrival chunk,
     ((now, c) :: rest) !! k = Some (arrival, chunk) ->
     exists start,
       graph e' !! (length (graph e) + k)%nat = Some (chunk_node chunk start) /\
       arrival <= start) /\
  (never_starves (firstStart + chunk_duration c) rest ->
   nextPlayTime e' == firstStart + total_duration ((now, c) :: rest)).
Proof.
  intros Hctx Hgn Hall e' firstStart.
  assert (He' : e' = _) by exact (run_chunks_scheduled _ e Hctx Hgn Hall).
  split.
  - intros k arrival chunk Hk.
    destruct (scheduled_nodes_lookup (nextPlayTime e) _ k arrival chunk Hk)
      as (start & stop & Hslot & _ & Hnode).
    exists start. split.
    + rewrite He'. cbn [graph with_nextPlayTime with_graph].
      rewrite lookup_app_r by lia.
      replace (length (graph e) + k - length (graph e))%nat with k by lia.
      exact Hnode.
    + exact (schedule_not_before_arrival _ _ _ _ _ _ _ Hk Hslot).
  - intros Hns. rewrite He'. cbn [nextPlayTime with_nextPlayTime].
    cbn [schedule final_slot total_duration].
    rewrite (final_slot_unstarved rest _ (firstStart + chunk_duration c));
      [lra | reflexivity | exact Hns].
Qed.

End OnAnyBrowser.
(** *** The laws on concrete engines *)

Lemma reachable_playing_engine :
  reachable (browser := standard_browser) playing_engine.
Proof.
  unfold playing_engine. do 3 apply reachable_call. apply reachable_new.
Defined.

Lemma reachable_broken_engine :
  reachable (browser := standard_browser) broken_engine.
Proof.
  unfold broken_engine. apply reachable_call, reachable_playing_engine.
Defined.

Lemma well_formed_playing_engine : well_formed playing_engine.
Proof.
  exact (reachable_well_formed (browser := standard_browser) playing_engine
           reachable_playing_engine).
Defined.

Lemma well_formed_initialized_engine : well_formed initialized_engine.
Proof.
  unfold well_formed. cbn. intuition congruence.
Defined.

Lemma arrivals_acceptable :
  Forall (fun a => acceptable (browser := standard_browser) (snd a) = true)
         [(3, first_chunk); (3, second_chunk)].
Proof.
  repeat constructor.
Defined.

Lemma play_restarts_or_breaks_example :
  well_formed playing_engine /\
  truthy (audioBuffer playing_engine) = true /\
  intact playing_engine = true /\
  (0 <= 3 /\
   eval (play 7 3) playing_engine = Normal true /\
   graph (exec (play 7 3) playing_engine) =
     graph_after_stop playing_engine ++
     [file_node (audioBuffer playing_engine) 3]) /\
  (-1 < 0 /\
   eval (play 7 (-1)) playing_engine = Throw RangeError /\
   stop (exec (play 7 (-1)) playing_engine) =
     (Throw InvalidStateError, exec (play 7 (-1)) playing_engine)).
Proof.
  assert (Hpos : 0 <= 3) by lra.
  assert (Hneg : -1 < 0) by lra.
  split; [exact well_formed_playing_engine |]. split; [reflexivity |].
  split; [reflexivity |].
  destruct (play_restarts_or_breaks playing_engine 7 3
              well_formed_playing_engine eq_refl eq_refl) as (Hok & _).
  destruct (play_restarts_or_breaks playing_engine 7 (-1)
              well_formed_playing_engine eq_refl eq_refl) as (_ & Hbreaks & _).
  destruct (Hok Hpos) as (Hret & Hgraph & _).
  destruct (Hbreaks Hneg) as (Hthrow & _ & _ & _ & Hstop & _).
  split; [split; [exact Hpos | split; [exact Hret | exact Hgraph]] |].
  split; [exact Hneg |]. split; [exact Hthrow | exact Hstop].
Defined.

Lemma flag_agrees_with_node_example :
  reachable (browser := standard_browser) broken_engine /\
  current_node_agrees broken_engine.
Proof.
  split; [exact reachable_broken_engine |].
  exact (flag_agrees_with_node (browser := standard_browser) broken_engine
           reachable_broken_engine).
Defined.

Lemma start_and_stop_are_what_throws_example :
  reachable (browser := standard_browser) broken_engine /\
  (exists p, eval (getCurrentTime 7) broken_engine = Normal p) /\
  eval (call (browser := standard_browser) Stop) broken_engine =
    Throw InvalidStateError.
Proof.
  split; [exact reachable_broken_engine |].
  exact (start_and_stop_are_what_throws (browser := standard_browser)
           broken_engine Stop 7 reachable_broken_engine).
Defined.

Lemma syncWithHost_settles_example :
  well_formed playing_engine /\
  (isPlaying playing_engine = false \/
   0 <= 10 + (1040 - 1000) / 2 / 1000) /\
  isPlaying (exec (syncWithHost 1040 6 10 1000) playing_engine) = true /\
  syncWithHost 1040 6 10 1000
    (exec (syncWithHost 1040 6 10 1000) playing_engine) =
  (Normal tt, exec (syncWithHost 1040 6 10 1000) playing_engine).
Proof.
  assert (Hpos : isPlaying playing_engine = false \/
                 0 <= 10 + (1040 - 1000) / 2 / 1000)
    by (right; vm_compute; discriminate).
  split; [exact well_formed_playing_engine |]. split; [exact Hpos |].
  destruct (syncWithHost_settles playing_engine 1040 6 10 1000
              well_formed_playing_engine Hpos) as (_ & _ & Hplaying & Hagain).
  split; [exact Hplaying | exact Hagain].
Defined.


Lemma setVolume_last_wins_example :
  truthy (audioContext initialized_engine) = true /\
  truthy (gainNode initialized_engine) = true /\
  2 <= 3 /\
  (forall t, 3 <= t ->
     volume_at (exec (setVolume 3 0.25)
                  (exec (setVolume 2 0.5) initialized_engine)) t = 0.25) /\
  (forall t, 2 <= t -> t < 3 ->
     volume_at (exec (setVolume 3 0.25)
                  (exec (setVolume 2 0.5) initialized_engine)) t = 0.5).
Proof.
  assert (Horder : 2 <= 3) by lra.
  split; [reflexivity |]. split; [reflexivity |]. split; [exact Horder |].
  destruct (setVolume_last_wins initialized_engine 2 0.5 3 0.25
              eq_refl eq_refl Horder) as (Hlate & Hbetween & _).
  split; [exact Hlate | exact Hbetween].
Defined.

Lemma playback_leaves_chunks_alone_example :
  sourceNode streaming_engine <> Some 0%nat /\
  (0 < length (graph streaming_engine))%nat /\
  nextPlayTime (exec (playback_call 4 (CallSeek 1)) streaming_engine) =
    nextPlayTime streaming_engine /\
  graph (exec stop streaming_engine) !! 0%nat =
    graph streaming_engine !! 0%nat.
Proof.
  assert (Hother : sourceNode streaming_engine <> Some 0%nat)
    by (vm_compute; discriminate).
  assert (Hin : (0 < length (graph streaming_engine))%nat)
    by (vm_compute; lia).
  split; [exact Hother |]. split; [exact Hin |].
  destruct (playback_leaves_chunks_alone streaming_engine 4 (CallSeek 1)
              0%nat Hother Hin) as (Hnext & _ & _ & Hnode).
  split; [exact Hnext | exact Hnode].
Defined.

Lemma unplayable_chunk_is_dropped_example :
  let silence := {| audioData := []; timestamp := 0;
                    sampleRate := Some 44100 |} in
  acceptable (browser := standard_browser) silence = false /\
  ingest (browser := standard_browser) (3, silence) initialized_engine =
    (Normal tt, initialized_engine).
Proof.
  cbn zeta. split; [reflexivity |].
  apply (unplayable_chunk_is_dropped (browser := standard_browser)).
  right. reflexivity.
Defined.

Lemma loadAudioFile_needs_context_example :
  truthy (audioContext new_engine) = false /\
  loadAudioFile (browser := standard_browser) (Some ten_seconds) new_engine =
    (Normal false, new_engine).
Proof.
  split; [reflexivity |].
  apply (loadAudioFile_needs_context (browser := standard_browser)).
  reflexivity.
Defined.

Lemma nextPlayTime_never_moves_back_example :
  (forall r, rateSupported (Browser := standard_browser) r = true -> 0 < r) /\
  nextPlayTime playing_engine <=
  nextPlayTime (run_chunks (browser := standard_browser)
                  [(3, first_chunk); (3, second_chunk)] playing_engine).
Proof.
  split; [exact standard_rates_positive |].
  apply (nextPlayTime_never_moves_back (browser := standard_browser)
           standard_rates_positive).
Defined.

Lemma unstarved_stream_length_example :
  truthy (audioContext initialized_engine) = true /\
  truthy (gainNode initialized_engine) = true /\
  Forall (fun a => acceptable (browser := standard_browser) (snd a) = true)
         [(3, first_chunk); (3, second_chunk)] /\
  never_starves (Qmax 3 (nextPlayTime initialized_engine) +
                 chunk_duration first_chunk) [(3, second_chunk)] /\
  nextPlayTime streaming_engine ==
    Qmax 3 (nextPlayTime initialized_engine) +
    total_duration [(3, first_chunk); (3, second_chunk)].
Proof.
  assert (Hfed : never_starves (Qmax 3 (nextPlayTime initialized_engine) +
                                chunk_duration first_chunk)
                               [(3, second_chunk)])
    by (split; [vm_compute; discriminate | exact I]).
  split; [reflexivity |]. split; [reflexivity |].
  split; [exact arrivals_acceptable |]. split; [exact Hfed |].
  destruct (unstarved_stream_length (browser := standard_browser)
              initialized_engine 3 first_chunk [(3, second_chunk)]
              eq_refl eq_refl arrivals_acceptable) as (_ & Hlength).
  exact (Hlength Hfed).
Defined.

End EngineLaws.

(** ** Further properties of the manager *)

Module ManagerLaws.

Import P2PManager.
Import ManagerRuns.

Open Scope js_scope.

Section Laws.

Variable Data : Type.

Lemma sendData_open (m : Manager Data) (d : Data) :
  channel_is_open m = true ->
  channel_is_open (exec (sendData d) m) = true /\
  transmitted (exec (sendData d) m) = transmitted m ++ [d] /\
  peerConnection (exec (sendData d) m) = peerConnection m /\
  isHost (exec (sendData d) m) = isHost m /\
  connectionState (exec (sendData d) m) = connectionState m.
Proof.
  destruct m as [pc [[[] log] |] host state]; cbn; intros H;
    try discriminate; repeat split; reflexivity.
Qed.

Lemma sendData_not_open (m : Manager Data) (d : Data) :
  channel_is_open m = false -> exec (sendData d) m = m.
Proof.
  destruct m as [pc [[[] log] |] host state]; cbn; intros H;
    try discriminate; reflexivity.
Qed.

Lemma send_all_not_open (m : Manager Data) (payloads : list Data) :
  channel_is_open m = false -> send_all payloads m = m.
Proof.
  revert m. induction payloads as [| d payloads IH]; intros m Hclosed.
  - reflexivity.
  - change (send_all (d :: payloads) m)
      with (send_all payloads (exec (sendData d) m)).
    rewrite (sendData_not_open m d Hclosed). apply IH, Hclosed.
Qed.

(** Over an open channel sendData is first in, first out: the payloads
    are handed to the channel in the order of the calls, none lost and
    none repeated, and no other field changes.  Over a channel that is
    not open, or without one, none of them leaves a trace. *)
Theorem sendData_in_order (m : Manager Data) (payloads : list Data) :
  let m' := send_all payloads m in
  (channel_is_open m = true ->
   transmitted m' = transmitted m ++ payloads /\
   channel_is_open m' = true /\
   peerConnection m' = peerConnection m /\
   isHost m' = isHost m /\
   connectionState m' = connectionState m) /\
  (channel_is_open m = false -> m' = m).
Proof.
  cbn zeta. split.
  - revert m. induction payloads as [| d payloads IH]; intros m Hopen.
    + cbn. rewrite app_nil_r. repeat split; assumption.
    + destruct (sendData_open m d Hopen) as (H1 & H2 & H3 & H4 & H5).
      change (send_all (d :: payloads) m)
        with (send_all payloads (exec (sendData d) m)).
      destruct (IH _ H1) as (G1 & G2 & G3 & G4 & G5).
      rewrite G1, G3, G4, G5, H2, H3, H4, H5, <- app_assoc.
      repeat split; assumption.
  - apply send_all_not_open.
Qed.

(** close() is final and never throws: afterwards the channel is not
    open, so whatever is sent later is dropped and the log of the
    channel stays as it was; an initialised manager is in its closed
    phase, where a late candidate is rejected without effect; the
    connectionState field is not written; closing again changes
    nothing. *)
Theorem close_is_final (m : Manager Data) (payloads : list Data)
  (c : IceCandidate) :
  let m' := exec close m in
  eval close m = Normal tt /\
  channel_is_open m' = false /\
  send_all payloads m' = m' /\
  transmitted m' = transmitted m /\
  (truthy (peerConnection m) = true ->
   phase m' = closed /\ exec (addIceCandidate c) m' = m') /\
  connectionState m' = connectionState m /\
  exec close m' = m'.
Proof.
  cbn zeta.
  assert (Hclosed : channel_is_open (exec close m) = false)
    by (destruct m as [[pc |] [[[] log] |] host state]; reflexivity).
  split; [destruct m as [[pc |] [[[] log] |] host state]; reflexivity |].
  split; [exact Hclosed |].
  split; [apply send_all_not_open, Hclosed |].
  destruct m as [[[pcs ld rd cands] |] [[[] log] |] host state];
    repeat split; try reflexivity; try discriminate.
Qed.

(** Before initialize every method is a guarded no-op: createOffer and
    createAnswer return null, handleAnswer, addIceCandidate, sendData
    and close return normally, and no field changes. *)
Theorem uninitialised_manager_is_inert
  (m : Manager Data) (offer answer : SessionDescription)
  (c : IceCandidate) (d : Data) :
  peerConnection m = None -> dataChannel m = None ->
  createOffer offer m = (Normal None, m) /\
  createAnswer offer answer m = (Normal None, m) /\
  handleAnswer answer m = (Normal tt, m) /\
  addIceCandidate c m = (Normal tt, m) /\
  sendData d m = (Normal tt, m) /\
  close m = (Normal tt, m).
Proof.
  destruct m as [pc ch host state]. cbn. intros -> ->.
  repeat split; reflexivity.
Qed.

(** initialize(isHost) starts a fresh negotiation in either role; only
    the host creates the data channel, and it is still connecting:
    what a host sends before the channel opens is dropped.  A client
    keeps whatever channel it had. *)
Theorem initialize_roles (m : Manager Data) (host : bool)
  (payloads : list Data) :
  let m' := exec (initialize host) m in
  eval (initialize host) m = Normal tt /\
  isHost m' = host /\
  peerConnection m' = Some new_RTCPeerConnection /\
  connectionState m' = connectionState m /\
  (host = true ->
   dataChannel m' = Some (new_RTCDataChannel Data) /\
   phase m' = negotiating /\
   send_all payloads m' = m') /\
  (host = false -> dataChannel m' = dataChannel m).
Proof.
  cbn zeta.
  destruct host; cbn; repeat split; try reflexivity; try discriminate.
  apply send_all_not_open. reflexivity.
Qed.

End Laws.

Lemma uninitialised_manager_is_inert_example :
  peerConnection (new_manager string) = None /\
  dataChannel (new_manager string) = None /\
  createOffer "offer"%string (new_manager string) =
    (Normal None, new_manager string) /\
  sendData "hello"%string (new_manager string) =
    (Normal tt, new_manager string).
Proof.
  split; [reflexivity |]. split; [reflexivity |].
  destruct (uninitialised_manager_is_inert string (new_manager string)
              "offer"%string "answer"%string "candidate"%string
              "hello"%string eq_refl eq_refl)
    as (Hoffer & _ & _ & _ & Hsend & _).
  split; [exact Hoffer | exact Hsend].
Defined.

End ManagerLaws.

(** ** Properties of live capture *)

Module CaptureLaws.

Import AudioSyncEngine.
Import LiveCapture.

Open Scope js_scope.

Section Laws.

Variable Callback : Type.

Ltac capture_unfold :=
  unfold exec, eval, startLiveBroadcast, stopLiveBroadcast,
    requestMicrophoneAccess, onaudioprocess, try_catch, bind, ret, get,
    modify, throw, lift.

Lemma stopLiveBroadcast_result (b : Broadcaster Callback) :
  stopLiveBroadcast b =
  (Normal tt,
   {| playback := playback b; mediaStream := None;
      isLiveBroadcasting := false; onAudioChunk := onAudioChunk b;
      scriptProcessor := None; sourceAudioNode := None;
      streams := match mediaStream b with
                 | Some i => alter stop_tracks i (streams b)
                 | None => streams b
                 end |}).
Proof.
  destruct b as [e ms live cb sp src store]. capture_unfold. cbn.
  destruct sp, src, ms; reflexivity.
Qed.

Lemma stop_tracks_released (stream : MediaStream) :
  stream_released (stop_tracks stream).
Proof.
  unfold stream_released, stop_tracks. cbn.
  induction (tracks_stopped stream); constructor; [reflexivity | assumption].
Qed.

(** stopLiveBroadcast never throws and releases the microphone: the
    flag is cleared, the two nodes and the stream are dropped, and every
    track of the stream that was held is stopped.  Playback is not
    touched, and stopping again changes nothing. *)
Theorem stopLiveBroadcast_releases (b : Broadcaster Callback) :
  let b' := exec stopLiveBroadcast b in
  eval stopLiveBroadcast b = Normal tt /\
  isLiveBroadcasting b' = false /\
  mediaStream b' = None /\
  scriptProcessor b' = None /\
  sourceAudioNode b' = None /\
  playback b' = playback b /\
  (forall i stream,
     mediaStream b = Some i -> streams b !! i = Some stream ->
     exists stream', streams b' !! i = Some stream' /\
                     stream_released stream') /\
  exec stopLiveBroadcast b' = b'.
Proof.
  cbn zeta. unfold exec, eval. rewrite stopLiveBroadcast_result.
  cbn [fst snd playback mediaStream isLiveBroadcasting scriptProcessor
       sourceAudioNode streams].
  do 6 (split; [reflexivity |]). split.
  - intros i stream -> Hi. exists (stop_tracks stream).
    split; [| apply stop_tracks_released].
    rewrite list_lookup_alter, decide_True by reflexivity.
    rewrite Hi. reflexivity.
  - rewrite stopLiveBroadcast_result. reflexivity.
Qed.

(** A broadcast that was stopped cannot be started again as it is:
    stopLiveBroadcast drops the stream, so startLiveBroadcast returns
    false and changes nothing until requestMicrophoneAccess has
    succeeded again. *)
Theorem restart_needs_microphone
  (b : Broadcaster Callback) (sourceCreated processorCreated : Completion unit)
  (callback : Callback) (stream : MediaStream) :
  let stopped := exec stopLiveBroadcast b in
  startLiveBroadcast sourceCreated processorCreated callback stopped =
  (Normal false, stopped) /\
  (truthy (audioContext (playback b)) = true ->
   truthy (gainNode (playback b)) = true ->
   let again := exec (requestMicrophoneAccess (Normal stream)) stopped in
   eval (startLiveBroadcast (Normal tt) (Normal tt) callback) again =
   Normal true).
Proof.
  cbn zeta. unfold exec. rewrite stopLiveBroadcast_result. cbn [snd].
  split; [reflexivity |].
  capture_unfold. cbn.
  destruct (audioContext (playback b)); [| discriminate].
  destruct (gainNode (playback b)); [reflexivity | discriminate].
Qed.

(** What startLiveBroadcast leaves behind.  When the browser creates
    both nodes it returns true with the chain microphone, processor,
    gain node connected.  When a node cannot be created it returns
    false, but the flag isLiveBroadcasting and the callback have
    already been set and stay set.  Playback is not touched either
    way. *)
Theorem startLiveBroadcast_outcome
  (b : Broadcaster Callback) (sourceCreated processorCreated : Completion unit)
  (callback : Callback) (stream : nat) :
  mediaStream b = Some stream ->
  truthy (audioContext (playback b)) = true ->
  truthy (gainNode (playback b)) = true ->
  let result := startLiveBroadcast sourceCreated processorCreated callback b in
  let b' := snd result in
  isLiveBroadcasting b' = true /\
  onAudioChunk b' = Some callback /\
  playback b' = playback b /\
  mediaStream b' = mediaStream b /\
  match sourceCreated, processorCreated with
  | Normal _, Normal _ =>
      fst result = Normal true /\
      sourceAudioNode b' =
        Some {| source_stream := stream; source_to_processor := true |} /\
      scriptProcessor b' =
        Some {| bufferSize := 4096; processor_to_gain := true |}
  | Normal _, Throw _ =>
      fst result = Normal false /\ scriptProcessor b' = scriptProcessor b
  | Throw _, _ =>
      fst result = Normal false /\
      scriptProcessor b' = scriptProcessor b /\
      sourceAudioNode b' = sourceAudioNode b
  end.
Proof.
  destruct b as [e ms live cb sp src store]. cbn.
  intros -> Hctx Hgn. capture_unfold. cbn.
  destruct (audioContext e); [| discriminate].
  destruct (gainNode e); [| discriminate].
  destruct sourceCreated as [[] |], processorCreated as [[] |]; cbn;
    repeat split; reflexivity.
Qed.

(** The capture handler hands a frame to the application exactly while
    the engine is broadcasting and a callback is registered; the chunk
    carries the frame's samples unchanged, stamped with
    performance.now() and the context's sample rate.  It changes no
    field, and after stopLiveBroadcast a late event emits nothing. *)
Theorem onaudioprocess_emits
  (b : Broadcaster Callback) (inputData : list Q) (perfNow contextRate : Q) :
  exec (onaudioprocess inputData perfNow contextRate) b = b /\
  (isLiveBroadcasting b = false ->
   eval (onaudioprocess inputData perfNow contextRate) b = Normal None) /\
  (onAudioChunk b = None ->
   eval (onaudioprocess inputData perfNow contextRate) b = Normal None) /\
  (forall callback,
     isLiveBroadcasting b = true -> onAudioChunk b = Some callback ->
     truthy (audioContext (playback b)) = true ->
     eval (onaudioprocess inputData perfNow contextRate) b =
     Normal (Some (callback,
                   {| audioData := inputData; timestamp := perfNow;
                      sampleRate := Some contextRate |}))) /\
  eval (onaudioprocess inputData perfNow contextRate)
       (exec stopLiveBroadcast b) = Normal None.
Proof.
  split; [| split; [| split; [| split]]].
  - capture_unfold. destruct (isLiveBroadcasting b), (onAudioChunk b);
      cbn; try reflexivity. destruct (audioContext (playback b)); reflexivity.
  - capture_unfold. intros ->. reflexivity.
  - capture_unfold. intros ->. destruct (isLiveBroadcasting b); reflexivity.
  - capture_unfold. intros callback -> ->. cbn.
    destruct (audioContext (playback b)); [reflexivity | discriminate].
  - unfold exec. rewrite stopLiveBroadcast_result. reflexivity.
Qed.

End Laws.

Lemma startLiveBroadcast_outcome_example :
  mediaStream armed_broadcaster = Some 0%nat /\
  truthy (audioContext (playback armed_broadcaster)) = true /\
  truthy (gainNode (playback armed_broadcaster)) = true /\
  eval (startLiveBroadcast (Normal tt) (Throw NotSupportedError) tt)
       armed_broadcaster = Normal false /\
  isLiveBroadcasting
    (exec (startLiveBroadcast (Normal tt) (Throw NotSupportedError) tt)
          armed_broadcaster) = true.
Proof.
  split; [reflexivity |]. split; [reflexivity |]. split; [reflexivity |].
  pose proof (startLiveBroadcast_outcome unit armed_broadcaster (Normal tt)
                (Throw NotSupportedError) tt 0%nat eq_refl eq_refl eq_refl)
    as H.
  cbn zeta in H. destruct H as (Hflag & _ & _ & _ & Hresult & _).
  split; [exact Hresult | exact Hflag].
Defined.

End CaptureLaws.

(** ** Properties of the session component *)

Module SessionLaws.

Import P2PManager.
Import App.
Import LiveCapture.
Import Session.

Open Scope js_scope.
Open Scope string_scope.
Open Scope list_scope.
Open Scope Q_scope.

(** *** [formatTime] *)

Lemma Qfloor_unique (x : Q) (z : Z) :
  inject_Z z <= x -> x < inject_Z (z + 1) -> Qfloor x = z.
Proof.
  intros Hle Hlt.
  pose proof (Qfloor_le x) as H1. pose proof (Qlt_floor x) as H2.
  assert (z < Qfloor x + 1)%Z
    by (rewrite Zlt_Qlt; eapply Qle_lt_trans; eassumption).
  assert (Qfloor x < z + 1)%Z
    by (rewrite Zlt_Qlt; eapply Qle_lt_trans; eassumption).
  lia.
Qed.

Lemma floor_of_minutes (seconds : Q) :
  0 <= seconds -> Qfloor (seconds / 60) = (Qfloor seconds / 60)%Z.
Proof.
  intros Hpos.
  pose proof (Qfloor_le seconds) as H1. pose proof (Qlt_floor seconds) as H2.
  set (F := Qfloor seconds) in *.
  pose proof (Z.mul_div_le F 60 ltac:(lia)) as Hlo.
  pose proof (Z.mul_succ_div_gt F 60 ltac:(lia)) as Hhi.
  rewrite Zle_Qle in Hlo.
  assert (Hhi' : (F + 1 <= 60 * (F / 60 + 1))%Z) by lia.
  rewrite Zle_Qle in Hhi'.
  rewrite ?inject_Z_mult, ?inject_Z_plus in *.
  change (inject_Z 60) with 60 in *. change (inject_Z 1) with 1 in *.
  apply Qfloor_unique; rewrite ?inject_Z_plus; change (inject_Z 1) with 1;
    unfold Qdiv; change (/ 60) with (1 # 60); lra.
Qed.

Lemma floor_of_seconds (seconds : Q) :
  0 <= seconds ->
  Qfloor (js_remainder seconds 60) = (Qfloor seconds mod 60)%Z.
Proof.
  intros Hpos. unfold js_remainder, Qtruncate.
  assert (Hq : Qle_bool 0 (seconds / 60) = true).
  { apply Qle_bool_iff. unfold Qdiv. change (/ 60) with (1 # 60). lra. }
  rewrite Hq, (floor_of_minutes seconds Hpos).
  pose proof (Qfloor_le seconds) as H1. pose proof (Qlt_floor seconds) as H2.
  set (F := Qfloor seconds) in *.
  rewrite Z.mod_eq by lia.
  apply Qfloor_unique; unfold Z.sub;
    rewrite ?inject_Z_plus, ?inject_Z_opp, ?inject_Z_mult in *;
    change (inject_Z 60) with 60; change (inject_Z 1) with 1 in *; lra.
Qed.

(** The seconds field of every value below sixty: two characters that
    read back as the value. *)
Definition two_digits_ok (secs : Z) : bool :=
  (String.length (padStart 2 "0"%char (toString secs)) =? 2)%nat &&
  match parseInt (padStart 2 "0"%char (toString secs)) with
  | Some z => (z =? secs)%Z
  | None => false
  end.

Lemma two_digits (secs : Z) :
  (0 <= secs < 60)%Z -> two_digits_ok secs = true.
Proof.
  intros H.
  assert (Hall : forallb two_digits_ok (map Z.of_nat (seq 0 60)) = true)
    by (vm_compute; reflexivity).
  rewrite forallb_forall in Hall. apply Hall.
  apply in_map_iff. exists (Z.to_nat secs). split; [lia |].
  apply in_seq. lia.
Qed.

(** For a time between 0 and 2^53 seconds - the range in which a
    number holds every whole second exactly - formatTime shows the
    whole seconds as minutes, a colon and seconds: the seconds are
    below sixty and always take two characters, and both fields read
    back as numbers with 60 * minutes + seconds = floor(seconds). *)
Theorem formatTime_reads_back (seconds : Q) :
  0 <= seconds -> seconds <= 9007199254740992 ->
  exists mins secs : Z,
    formatTime seconds =
      (toString mins ++ ":" ++ padStart 2 "0"%char (toString secs))%string /\
    (0 <= mins)%Z /\ (0 <= secs < 60)%Z /\
    (60 * mins + secs)%Z = Qfloor seconds /\
    parseInt (toString mins) = Some mins /\
    parseInt (padStart 2 "0"%char (toString secs)) = Some secs /\
    String.length (padStart 2 "0"%char (toString secs)) = 2%nat.
Proof.
  intros Hpos _.
  exists (Qfloor seconds / 60)%Z, (Qfloor seconds mod 60)%Z.
  assert (HF : (0 <= Qfloor seconds)%Z).
  { change 0%Z with (Qfloor 0). apply Qfloor_resp_le, Hpos. }
  pose proof (Z.mod_pos_bound (Qfloor seconds) 60 ltac:(lia)) as Hmod.
  pose proof (two_digits _ Hmod) as Hok.
  unfold two_digits_ok in Hok. apply andb_true_iff in Hok as [Hlen Hparse].
  split; [| split; [| split; [| split; [| split; [| split]]]]].
  - unfold formatTime.
    rewrite (floor_of_minutes seconds Hpos), (floor_of_seconds seconds Hpos).
    reflexivity.
  - apply Z.div_pos; lia.
  - exact Hmod.
  - rewrite (Z.div_mod (Qfloor seconds) 60) at 3 by lia. reflexivity.
  - unfold parseInt, toString. rewrite NilEmpty.isi. cbn.
    rewrite DecimalZ.of_to. reflexivity.
  - destruct (parseInt _) as [z |]; [| discriminate].
    apply Z.eqb_eq in Hparse. congruence.
  - apply Nat.eqb_eq, Hlen.
Qed.

(** *** Running the engine from the component *)

Section Laws.

Context {browser : AudioSyncEngine.Browser}.

Lemma on_player_run {A : Type} (m : M AudioSyncEngine.Engine A) (s : Component) :
  on_player m s =
  (eval m (player s),
   with_audioEngine (with_playback (exec m (player s)) (audioEngine s)) s).
Proof.
  unfold on_player, on_engine, on_playback, zoom, player, eval, exec.
  destruct (m (playback (audioEngine s))); reflexivity.
Qed.

Lemma player_put (e : AudioSyncEngine.Engine) (s : Component) :
  player (with_audioEngine (with_playback e (audioEngine s)) s) = e.
Proof. reflexivity. Qed.

Lemma player_keep (s : Component) :
  with_audioEngine (with_playback (player s) (audioEngine s)) s = s.
Proof.
  destruct s as [? ? ? ? ? ? ? ? ? [] ? ?]. reflexivity.
Qed.

(** *** The playback controls *)

(** togglePlayback does nothing outside host mode.  In host mode a
    component that shows playing pauses the engine and shows paused; one
    that shows paused starts the engine at the time it shows and shows
    playing only if play succeeded: with no file loaded the click
    changes nothing.  With a file loaded play succeeds when the time
    shown is not negative and the engine's current source node, if any,
    was started; otherwise play throws, the click throws with it, the
    engine is not playing and the component goes on showing paused. *)
Theorem togglePlayback_cases (s : Component) (now : Q) :
  let s' := exec (togglePlayback now) s in
  (mode s <> "host" -> togglePlayback now s = (Normal tt, s)) /\
  (mode s = "host" -> isPlaying s = true ->
   AudioSyncEngine.well_formed (player s) ->
   player s' = exec (AudioSyncEngine.pause now) (player s) /\
   AudioSyncEngine.isPlaying (player s') = false /\
   isPlaying s' = false) /\
  (mode s = "host" -> isPlaying s = false ->
   truthy (AudioSyncEngine.audioBuffer (player s)) = false ->
   togglePlayback now s = (Normal tt, s)) /\
  (mode s = "host" -> isPlaying s = false ->
   AudioSyncEngine.well_formed (player s) ->
   truthy (AudioSyncEngine.audioBuffer (player s)) = true ->
   AudioSyncEngine.intact (player s) = true -> 0 <= currentTime s ->
   AudioSyncEngine.position_is (player s') now (currentTime s) /\
   AudioSyncEngine.isPlaying (player s') = true /\
   isPlaying s' = true) /\
  (mode s = "host" -> isPlaying s = false ->
   AudioSyncEngine.well_formed (player s) ->
   truthy (AudioSyncEngine.audioBuffer (player s)) = true ->
   AudioSyncEngine.intact (player s) = false \/ currentTime s < 0 ->
   (exists err, eval (togglePlayback now) s = Throw err) /\
   AudioSyncEngine.isPlaying (player s') = false /\
   isPlaying s' = false).
Proof.
  cbn zeta. unfold exec, eval, togglePlayback, bind, get, ret.
  split; [| split; [| split; [| split]]].
  - intros Hmode. apply String.eqb_neq in Hmode. rewrite Hmode. reflexivity.
  - intros Hmode Hplay Hwf. rewrite Hmode, Hplay, String.eqb_refl.
    cbn [negb]. rewrite on_player_run.
    destruct (AudioSyncEngineFacts.pause_freezes now _ Hwf)
      as (Hret & Hpl & _).
    rewrite Hret. cbn. repeat split. exact Hpl.
  - intros Hmode Hplay Hbuf. rewrite Hmode, Hplay, String.eqb_refl. cbn [negb].
    rewrite on_player_run. unfold eval, exec.
    rewrite (AudioSyncEngineFacts.play_guard now _ _ (or_introl Hbuf)). cbn.
    rewrite player_keep. reflexivity.
  - intros Hmode Hplay Hwf Hbuf Hin Htime.
    rewrite Hmode, Hplay, String.eqb_refl. cbn [negb].
    rewrite on_player_run.
    destruct (AudioSyncEngineFacts.play_loaded now (currentTime s) _
                Hwf Hin Hbuf Htime) as (Hret & Hst & Hpl & _).
    rewrite Hret. cbn. repeat split; [| exact Hpl].
    apply AudioSyncEngineFacts.position_is_well_formed;
      [apply AudioSyncEngineFacts.well_formed_play, Hwf |].
    rewrite Hpl, Hst. lra.
  - intros Hmode Hplay Hwf Hbuf Hbad.
    rewrite Hmode, Hplay, String.eqb_refl. cbn [negb].
    rewrite on_player_run.
    pose proof (EngineLaws.play_eval now (currentTime s) _ Hwf) as Hret.
    rewrite Hbuf in Hret.
    assert (Hthrow : exists err,
               eval (AudioSyncEngine.play now (currentTime s)) (player s) =
               Throw err /\
               AudioSyncEngine.isPlaying
                 (exec (AudioSyncEngine.play now (currentTime s)) (player s)) =
               false).
    { unfold exec. destruct (AudioSyncEngine.intact (player s)) eqn:Hin.
      - destruct Hbad as [Hbad | Hneg]; [discriminate |].
        rewrite (AudioSyncEngineFacts.Qle_bool_false _ _ Hneg) in Hret.
        rewrite (AudioSyncEngineFacts.play_negative now _ _ Hwf Hin Hbuf Hneg).
        eexists. split; [exact Hret | reflexivity].
      - rewrite (AudioSyncEngineFacts.play_broken now _ _ Hwf Hin Hbuf).
        eexists. split; [exact Hret |]. cbn [snd].
        destruct (AudioSyncEngine.isPlaying (player s)) eqn:Hp;
          [| reflexivity].
        rewrite (AudioSyncEngineFacts.playing_intact _ Hwf Hp) in Hin.
        discriminate. }
    destruct Hthrow as (err & Herr & Hpl). rewrite Herr. cbn.
    split; [exists err; reflexivity |]. split; [exact Hpl | exact Hplay].
Qed.

(** The skip buttons clamp on the side they move to: skipping back
    never seeks before 0 and skipping forward never seeks past the
    duration shown.  They seek from the time the component shows, which
    they do not update: a second press before the next tick seeks to the
    same target again.  (The engine is paused or the forward target is
    not negative, as it is when neither the time nor the duration shown
    is.) *)
Theorem skip_buttons_clamp (s : Component) (now now2 : Q) :
  AudioSyncEngine.well_formed (player s) ->
  AudioSyncEngine.isPlaying (player s) = false \/
  0 <= Qmin (duration s) (currentTime s + 10) ->
  let back := exec (skipBack now) s in
  let forward := exec (skipForward now) s in
  AudioSyncEngine.position_is (player back) now
    (Qmax 0 (currentTime s - 10)) /\
  0 <= Qmax 0 (currentTime s - 10) /\
  AudioSyncEngine.position_is (player forward) now
    (Qmin (duration s) (currentTime s + 10)) /\
  Qmin (duration s) (currentTime s + 10) <= duration s /\
  currentTime forward = currentTime s /\
  AudioSyncEngine.position_is
    (player (exec (skipForward now2) forward)) now2
    (Qmin (duration s) (currentTime s + 10)).
Proof.
  intros Hwf Hforward. cbn zeta.
  assert (Hback : 0 <= Qmax 0 (currentTime s - 10)) by apply Q.le_max_l.
  assert (Hagain :
            AudioSyncEngine.isPlaying
              (exec (AudioSyncEngine.seek now
                       (Qmin (duration s) (currentTime s + 10))) (player s)) =
            false \/
            0 <= Qmin (duration s) (currentTime s + 10)).
  { destruct Hforward as [Hp | Hp]; [left | right; exact Hp].
    destruct (AudioSyncEngineFacts.seek_sets_position now
                (Qmin (duration s) (currentTime s + 10)) _ Hwf
                (or_introl Hp)) as (_ & -> & _).
    exact Hp. }
  unfold exec, skipBack, skipForward, bind, get.
  rewrite !on_player_run. cbn [snd].
  repeat split.
  - apply AudioSyncEngineFacts.seek_position; [exact Hwf | right; exact Hback].
  - exact Hback.
  - apply AudioSyncEngineFacts.seek_position; assumption.
  - apply Q.le_min_l.
  - exact (AudioSyncEngineFacts.seek_position now2
             (Qmin (duration s) (currentTime s + 10)) _
             (AudioSyncEngineFacts.well_formed_seek now
                (Qmin (duration s) (currentTime s + 10)) _ Hwf)
             Hagain).
Qed.

(** *** Messages from the host *)

(** Only a client follows the host.  A handler created in any other
    mode ignores every data-channel message.  On a client a sync_state
    corrects the engine's position and sets the time and the playing
    flag the component shows, but never starts or stops the engine
    itself (the engine being paused, as a client's is, or the projected
    position not negative); an audio_chunk goes to playAudioChunk and
    changes nothing the component shows. *)
Theorem only_clients_follow_the_host
  (s : Component) (captured : string) (perfNow now : Q) (data : DataMessage) :
  let s' := exec (handleP2PData captured perfNow now data) s in
  (captured <> "client" ->
   handleP2PData captured perfNow now data s = (Normal tt, s)) /\
  (captured = "client" -> AudioSyncEngine.well_formed (player s) ->
   match data with
   | sync_state position playing stamp =>
       AudioSyncEngine.isPlaying (player s) = false \/
       0 <= position + (perfNow - stamp) / 2 / 1000 ->
       player s' =
         exec (AudioSyncEngine.syncWithHost perfNow now position stamp)
              (player s) /\
       AudioSyncEngine.isPlaying (player s') =
         AudioSyncEngine.isPlaying (player s) /\
       currentTime s' = position /\ isPlaying s' = playing
   | audio_chunk samples stamp rate =>
       player s' =
         exec (AudioSyncEngine.playAudioChunk now samples stamp rate)
              (player s) /\
       currentTime s' = currentTime s /\ isPlaying s' = isPlaying s
   | other_data _ => s' = s
   end).
Proof.
  cbn zeta. unfold exec, handleP2PData. split.
  - intros Hmode. apply String.eqb_neq in Hmode. rewrite Hmode.
    destruct data; reflexivity.
  - intros -> Hwf. rewrite String.eqb_refl.
    destruct data as [position playing stamp | samples stamp rate | type].
    + intros Hok. unfold bind. rewrite on_player_run.
      destruct (EngineLaws.syncWithHost_near (player s) perfNow now position
                  stamp Hwf Hok) as (Hret & _ & Hpl).
      rewrite Hret. cbn. repeat split. exact Hpl.
    + rewrite on_player_run. cbn. repeat split.
    + reflexivity.
Qed.

(** *** Choosing a file *)

(** handleFileUpload loads only files whose type starts with audio/.
    Such a file is recorded as the chosen file before it is decoded, so
    it stays recorded when decoding fails, with the engine and the
    duration shown unchanged; when decoding succeeds the engine holds
    the decoded buffer and the component shows its duration. *)
Theorem handleFileUpload_cases
  (s : Component) (upload : option (string * AudioSyncEngine.File)) :
  let s' := exec (handleFileUpload upload) s in
  eval (handleFileUpload upload) s = Normal tt /\
  match upload with
  | None => s' = s
  | Some (type, file) =>
      if String.prefix "audio/" type
      then
        audioFile s' = Some file /\
        ((exists decoded,
            AudioSyncEngine.loadAudioFile file (player s) =
              (Normal true,
               AudioSyncEngine.with_audioBuffer (Some decoded) (player s)) /\
            player s' =
              AudioSyncEngine.with_audioBuffer (Some decoded) (player s) /\
            duration s' = AudioSyncEngine.duration decoded) \/
         (AudioSyncEngine.loadAudioFile file (player s) =
            (Normal false, player s) /\
          player s' = player s /\ duration s' = duration s))
      else s' = s
  end.
Proof.
  cbn zeta. unfold exec, eval, handleFileUpload.
  destruct upload as [[type file] |]; [| split; reflexivity].
  destruct (String.prefix "audio/" type); [| split; reflexivity].
  unfold bind, setAudioFile, modify, get, ret. rewrite on_player_run.
  change (player (with_audioFile (Some file) s)) with (player s).
  unfold eval, exec.
  destruct (AudioSyncEngineFacts.loadAudioFile_cases file (player s))
    as [(decoded & H) | H]; rewrite H; cbn.
  - split; [reflexivity |]. split; [reflexivity |]. left.
    exists decoded. repeat split.
  - split; [reflexivity |]. split; [reflexivity |]. right. repeat split.
Qed.

(** *** Calls on the manager and the relay *)

Lemma on_manager_run {A : Type} (m : M (Manager DataMessage) A)
  (s : Component) (manager : Manager DataMessage) :
  p2pManager s = Some manager ->
  on_manager m s =
  (eval m manager, with_p2pManager (Some (exec m manager)) s).
Proof.
  unfold on_manager, eval, exec. intros ->.
  destruct (m manager); reflexivity.
Qed.

Lemma on_relay_run {A : Type} (m : M (State DataMessage) A) (s : Component) :
  on_relay m s = (eval m (relay s), with_relay (exec m (relay s)) s).
Proof.
  unfold on_relay, zoom, eval, exec. destruct (m (relay s)); reflexivity.
Qed.

Lemma sendData_returns (manager : Manager DataMessage) (d : DataMessage) :
  eval (sendData d) manager = Normal tt.
Proof.
  destruct manager as [pc [[[] log] |] host state]; reflexivity.
Qed.

(** *** The host's sync ticks *)

(** The host ticks only while it plays, and says so: a tick exists only
    for a render in host mode that shows playing, and every sync_state
    it sends carries is_playing = true together with the engine's
    position at the tick and the tick's performance.now().  The tick
    shows that position as the current time and leaves the engine
    alone; without an open channel it sends nothing. *)
Theorem sync_ticks_report_playing
  (render s : Component) (tick : Q -> Q -> M Component unit)
  (perfNow now : Q) :
  syncInterval render = Some tick ->
  AudioSyncEngine.well_formed (player s) ->
  mode render = "host" /\ isPlaying render = true /\
  let s' := exec (tick perfNow now) s in
  exists position,
    eval (AudioSyncEngine.getCurrentTime now) (player s) = Normal position /\
    currentTime s' = position /\
    player s' = player s /\
    match p2pManager s with
    | Some manager =>
        sent_to_peers s' =
        sent_to_peers s ++
        (if channel_is_open manager
         then [sync_state position true perfNow]
         else [])
    | None => sent_to_peers s' = []
    end.
Proof.
  unfold syncInterval. intros Htick Hwf.
  destruct (String.eqb (mode render) "host") eqn:Hmode; [| discriminate].
  destruct (isPlaying render) eqn:Hplay; [| discriminate].
  injection Htick as <-.
  apply String.eqb_eq in Hmode. split; [exact Hmode |].
  split; [reflexivity |]. cbn zeta.
  pose proof (AudioSyncEngineFacts.getCurrentTime_well_formed now _ Hwf) as Hpos.
  eexists. split; [exact Hpos |].
  unfold exec, sync_tick, bind, setCurrentTime, modify, get, ret.
  rewrite on_player_run, Hpos, AudioSyncEngineFacts.getCurrentTime_pure.
  rewrite player_keep. cbn [snd p2pManager with_currentTime].
  unfold sent_to_peers.
  destruct (p2pManager s) as [manager |] eqn:Hm;
    [| cbn; rewrite ?Hm; repeat split; reflexivity].
  rewrite (on_manager_run _ _ manager) by exact Hm.
  cbn [snd p2pManager with_p2pManager currentTime player audioEngine
       with_currentTime].
  split; [reflexivity |]. split; [reflexivity |]. rewrite Hplay.
  destruct manager as [pc [[[] log] |] host state]; cbn;
    rewrite ?app_nil_r; reflexivity.
Qed.

(** *** Live audio from the microphone to the client's speakers *)

(** A captured frame reaches the listener intact.  While the host is
    broadcasting over an open channel, the frame the browser delivers to
    the script processor is sent as one audio_chunk carrying the frame's
    samples, performance.now() and the context's sample rate; and a
    client that handles this message schedules one node holding exactly
    these samples at that rate, at max(currentTime, nextPlayTime). *)
Theorem captured_frame_reaches_client
  (host client : Component) (manager : Manager DataMessage)
  (callback : ChunkCallback) (frame : list Q)
  (perfNow contextRate perfNow' now : Q) :
  LiveCapture.isLiveBroadcasting (audioEngine host) = true ->
  onAudioChunk (audioEngine host) = Some callback ->
  truthy (AudioSyncEngine.audioContext (player host)) = true ->
  p2pManager host = Some manager -> channel_is_open manager = true ->
  truthy (AudioSyncEngine.audioContext (player client)) = true ->
  truthy (AudioSyncEngine.gainNode (player client)) = true ->
  let chunk := {| AudioSyncEngine.audioData := frame;
                  AudioSyncEngine.timestamp := perfNow;
                  AudioSyncEngine.sampleRate := Some contextRate |} in
  AudioSyncEngine.acceptable chunk = true ->
  let message := audio_chunk frame perfNow (Some contextRate) in
  let host' := exec (capture_event frame perfNow contextRate) host in
  let client' := exec (handleP2PData "client" perfNow' now message) client in
  sent_to_peers host' = sent_to_peers host ++ [message] /\
  player host' = player host /\
  AudioSyncEngine.graph (player client') =
    AudioSyncEngine.graph (player client) ++
    [AudioSyncEngine.chunk_node chunk
       (Qmax now (AudioSyncEngine.nextPlayTime (player client)))] /\
  AudioSyncEngine.nextPlayTime (player client') =
    Qmax now (AudioSyncEngine.nextPlayTime (player client)) +
    AudioSyncEngine.chunk_duration chunk.
Proof.
  intros Hlive Hcb Hctx Hm Hopen Hcctx Hcgn chunk Hok message host' client'.
  split; [| split].
  - subst host' message. unfold exec, capture_event, bind, on_engine, zoom.
    unfold onaudioprocess, bind, get, ret. rewrite Hlive, Hcb. cbn [negb].
    unfold player in Hctx.
    destruct (AudioSyncEngine.audioContext (playback (audioEngine host)));
      [| discriminate].
    cbn. unfold chunk_callback, bind, get.
    cbn [p2pManager with_audioEngine]. rewrite Hm.
    rewrite (on_manager_run _ _ manager) by exact Hm.
    unfold sent_to_peers. cbn [snd p2pManager with_p2pManager]. rewrite Hm.
    destruct manager as [pc [[[] log] |] h st]; try discriminate.
    reflexivity.
  - subst host'. unfold exec, capture_event, bind, on_engine, zoom.
    unfold onaudioprocess, bind, get, ret. rewrite Hlive, Hcb. cbn [negb].
    unfold player in *.
    destruct (AudioSyncEngine.audioContext (playback (audioEngine host)));
      [| discriminate].
    cbn. unfold chunk_callback, bind, get.
    cbn [p2pManager with_audioEngine]. rewrite Hm.
    rewrite (on_manager_run _ _ manager) by exact Hm.
    destruct host as [? ? ? ? ? ? ? ? ? [] ? ?]. reflexivity.
  - subst client' message. unfold exec, handleP2PData.
    rewrite String.eqb_refl.
    rewrite on_player_run. cbn [snd]. rewrite player_put.
    change (AudioSyncEngine.playAudioChunk now frame perfNow (Some contextRate))
      with (AudioSyncEngine.ingest (now, chunk)).
    unfold exec.
    rewrite (AudioSyncEngineFacts.playAudioChunk_scheduled now chunk _
               Hcctx Hcgn Hok).
    split; reflexivity.
Qed.

(** A live broadcast that was switched off does not come back on.  The
    component still shows microphone access, so the next press of the
    button does not ask for the microphone again, while the engine has
    dropped its stream: startLiveBroadcast returns false and the press
    changes nothing. *)
Theorem live_broadcast_does_not_restart
  (s : Component) (getUserMedia1 getUserMedia2 : Completion MediaStream)
  (source1 processor1 source2 processor2 : Completion unit) :
  hasMicrophoneAccess s = true -> isLiveBroadcasting s = true ->
  let off := exec (toggleLiveBroadcast getUserMedia1 source1 processor1) s in
  let again := toggleLiveBroadcast getUserMedia2 source2 processor2 off in
  isLiveBroadcasting off = false /\
  isPlaying off = false /\
  hasMicrophoneAccess off = true /\
  LiveCapture.isLiveBroadcasting (audioEngine off) = false /\
  mediaStream (audioEngine off) = None /\
  again = (Normal tt, off).
Proof.
  intros Hmic Hlive. cbn zeta.
  assert (Hoff :
    toggleLiveBroadcast getUserMedia1 source1 processor1 s =
    (Normal tt,
     with_isPlaying false
       (with_isLiveBroadcasting false
          (with_audioEngine (exec LiveCapture.stopLiveBroadcast (audioEngine s))
             s)))).
  { unfold toggleLiveBroadcast, bind, get. rewrite Hlive.
    unfold stopLiveBroadcast, bind, on_engine, zoom,
      setIsLiveBroadcasting, setIsPlaying, modify, exec.
    rewrite (CaptureLaws.stopLiveBroadcast_result ChunkCallback (audioEngine s)).
    reflexivity. }
  apply (f_equal snd) in Hoff. cbn [snd] in Hoff.
  change (snd (toggleLiveBroadcast getUserMedia1 source1 processor1 s))
    with (exec (toggleLiveBroadcast getUserMedia1 source1 processor1) s)
    in Hoff.
  rewrite Hoff. unfold exec.
  rewrite (CaptureLaws.stopLiveBroadcast_result ChunkCallback (audioEngine s)).
  cbn [snd isLiveBroadcasting isPlaying hasMicrophoneAccess audioEngine
       with_isLiveBroadcasting with_isPlaying with_audioEngine
       LiveCapture.isLiveBroadcasting mediaStream].
  do 5 (split; [first [reflexivity | exact Hmic] |]).
  unfold toggleLiveBroadcast, startLiveBroadcast, bind, get, ret.
  cbn [isLiveBroadcasting hasMicrophoneAccess with_isLiveBroadcasting
       with_isPlaying with_audioEngine].
  rewrite Hmic. cbn [negb].
  unfold on_engine, zoom, LiveCapture.startLiveBroadcast, bind, get, ret.
  cbn. reflexivity.
Qed.

(** *** Negotiation through the relay *)

Lemma sendWebSocketMessage_outbox (message : Envelope DataMessage)
  (r : State DataMessage) :
  eval (sendWebSocketMessage message) r = Normal tt /\
  outbox (exec (sendWebSocketMessage message) r) =
  outbox r ++ (if socket_is_open r then [message] else []).
Proof.
  destruct r as [[[[] log] |] state]; cbn; rewrite ?app_nil_r;
    split; reflexivity.
Qed.

(** Offers are broadcast, answers go back to the sender.  A host's
    initializeP2P sends its offer to the relay addressed to 'broadcast';
    a client's sends nothing.  A client that holds a manager with a
    usable connection answers an offer with one webrtc_answer addressed
    to the offer's from_id, after applying the offer and its own answer
    to the connection.  In any other mode, or without a manager, an
    offer is ignored.  (Nothing is sent while the relay socket is not
    open.) *)
Theorem offers_broadcast_answers_return
  (s : Component) (offer answer : SessionDescription) (fromId : string) :
  let h := exec (initializeP2P true offer) s in
  let c := exec (initializeP2P false offer) s in
  outbox (relay h) =
    outbox (relay s) ++
    (if socket_is_open (relay s)
     then [webrtc_offer (Some offer) "broadcast"] else []) /\
  relay c = relay s /\
  (forall manager pc,
     p2pManager s = Some manager -> peerConnection manager = Some pc ->
     is_closed pc = false ->
     let a := exec (handleWebRTCOffer "client" offer fromId answer) s in
     outbox (relay a) =
       outbox (relay s) ++
       (if socket_is_open (relay s)
        then [webrtc_answer (Some answer) fromId] else []) /\
     exists manager' pc',
       p2pManager a = Some manager' /\ peerConnection manager' = Some pc' /\
       remoteDescription pc' = Some offer /\
       localDescription pc' = Some answer) /\
  (forall captured,
     captured <> "client" \/ p2pManager s = None ->
     handleWebRTCOffer captured offer fromId answer s = (Normal tt, s)).
Proof.
  cbn zeta. split; [| split; [| split]].
  - unfold exec, initializeP2P, bind, modify.
    rewrite (on_manager_run _ _ (new_manager DataMessage)) by reflexivity.
    cbn [eval exec fst snd].
    match goal with
    | |- context [on_manager (createOffer offer) ?st] =>
        rewrite (on_manager_run (createOffer offer) st
                   (exec (initialize true) (new_manager DataMessage)))
          by reflexivity
    end.
    change (eval (createOffer offer)
              (exec (initialize true) (new_manager DataMessage)))
      with (@Normal (option SessionDescription) (Some offer)).
    cbv iota beta. rewrite on_relay_run. cbn [snd relay with_relay].
    apply (sendWebSocketMessage_outbox _ (relay s)).
  - unfold exec, initializeP2P, bind, modify.
    rewrite (on_manager_run _ _ (new_manager DataMessage)) by reflexivity.
    reflexivity.
  - intros manager pc Hm Hpc Hopen. cbn zeta.
    unfold exec, handleWebRTCOffer, bind, get. rewrite Hm, String.eqb_refl.
    rewrite (on_manager_run _ _ manager) by exact Hm.
    assert (Hanswer :
      createAnswer offer answer manager =
      (Normal (Some answer),
       with_peerConnection
         (Some {| pc_connectionState := pc_connectionState pc;
                  localDescription := Some answer;
                  remoteDescription := Some offer;
                  remoteCandidates := remoteCandidates pc |}) manager)).
    { destruct manager as [pc0 ch host st]. cbn in Hpc. subst pc0.
      unfold createAnswer, bind, get, lift, modify, ret,
        setRemoteDescription, setLocalDescription. cbn.
      rewrite Hopen. cbn. unfold is_closed in *. cbn. rewrite Hopen.
      reflexivity. }
    unfold eval, exec. rewrite Hanswer. cbn [fst snd].
    rewrite on_relay_run. cbn [snd relay with_relay with_p2pManager].
    split; [apply (sendWebSocketMessage_outbox _ (relay s)) |].
    eexists _, _. cbn [p2pManager with_relay with_p2pManager].
    split; [reflexivity |]. repeat split.
  - intros captured [Hmode | Hnone].
    + apply String.eqb_neq in Hmode.
      unfold handleWebRTCOffer, bind, get, ret. rewrite Hmode.
      destruct (p2pManager s); reflexivity.
    + unfold handleWebRTCOffer, bind, get, ret. rewrite Hnone. reflexivity.
Qed.

End Laws.

(** *** The laws on a concrete session *)

Lemma well_formed_file_host : AudioSyncEngine.well_formed (player file_host).
Proof.
  unfold AudioSyncEngine.well_formed. cbn. intuition congruence.
Defined.

Lemma formatTime_reads_back_example :
  0 <= 125.5 /\ 125.5 <= 9007199254740992 /\
  exists mins secs : Z,
    formatTime 125.5 =
      (toString mins ++ ":" ++ padStart 2 "0"%char (toString secs))%string /\
    (0 <= mins)%Z /\ (0 <= secs < 60)%Z /\
    (60 * mins + secs)%Z = Qfloor 125.5 /\
    parseInt (toString mins) = Some mins /\
    parseInt (padStart 2 "0"%char (toString secs)) = Some secs /\
    String.length (padStart 2 "0"%char (toString secs)) = 2%nat.
Proof.
  assert (H : 0 <= 125.5) by lra.
  assert (Hbound : 125.5 <= 9007199254740992) by lra.
  split; [exact H |].
  split; [exact Hbound | exact (formatTime_reads_back 125.5 H Hbound)].
Defined.

Lemma well_formed_playing_host :
  AudioSyncEngine.well_formed (player playing_host).
Proof.
  split; [intros _; exists 0%nat; split; reflexivity |].
  split; [intros _; reflexivity |].
  split; [intros _; reflexivity | reflexivity].
Defined.

Lemma skip_buttons_clamp_example :
  AudioSyncEngine.well_formed (player playing_host) /\
  (AudioSyncEngine.isPlaying (player playing_host) = false \/
   0 <= Qmin (duration playing_host) (currentTime playing_host + 10)) /\
  AudioSyncEngine.position_is (player (exec (skipBack 7) playing_host)) 7
    (Qmax 0 (currentTime playing_host - 10)) /\
  AudioSyncEngine.position_is (player (exec (skipForward 7) playing_host)) 7
    (Qmin (duration playing_host) (currentTime playing_host + 10)).
Proof.
  assert (Htarget : AudioSyncEngine.isPlaying (player playing_host) = false \/
                    0 <= Qmin (duration playing_host)
                              (currentTime playing_host + 10))
    by (right; vm_compute; discriminate).
  split; [exact well_formed_playing_host |]. split; [exact Htarget |].
  destruct (skip_buttons_clamp playing_host 7 8 well_formed_playing_host
              Htarget)
    as (Hback & _ & Hforward & _).
  split; [exact Hback | exact Hforward].
Defined.

Lemma sync_ticks_report_playing_example :
  syncInterval playing_host = Some (sync_tick playing_host) /\
  AudioSyncEngine.well_formed (player playing_host) /\
  exists position,
    eval (AudioSyncEngine.getCurrentTime 7) (player playing_host) =
      Normal position /\
    sent_to_peers (exec (sync_tick playing_host 1000 7) playing_host) =
    sent_to_peers playing_host ++ [sync_state position true 1000].
Proof.
  pose proof well_formed_playing_host as Hwf.
  split; [reflexivity |]. split; [exact Hwf |].
  destruct (sync_ticks_report_playing playing_host playing_host
              (sync_tick playing_host) 1000 7 eq_refl Hwf)
    as (_ & _ & position & Hposition & _ & _ & Hsent).
  exists position. split; [exact Hposition | exact Hsent].
Defined.

Lemma captured_frame_reaches_client_example :
  let frame := [0.5; 0.25] in
  let chunk := {| AudioSyncEngine.audioData := frame;
                  AudioSyncEngine.timestamp := 1000;
                  AudioSyncEngine.sampleRate := Some 44100 |} in
  let message := audio_chunk frame 1000 (Some 44100) in
  LiveCapture.isLiveBroadcasting (audioEngine live_host) = true /\
  onAudioChunk (audioEngine live_host) = Some send_chunk_to_peers /\
  p2pManager live_host = Some open_manager /\
  channel_is_open open_manager = true /\
  AudioSyncEngine.acceptable
    (browser := AudioSyncEngine.standard_browser) chunk = true /\
  sent_to_peers (exec (capture_event frame 1000 44100) live_host) =
    sent_to_peers live_host ++ [message] /\
  AudioSyncEngine.graph
    (player (exec (handleP2PData "client" 1020 3 message) client_component)) =
  AudioSyncEngine.graph (player client_component) ++
  [AudioSyncEngine.chunk_node chunk
     (Qmax 3 (AudioSyncEngine.nextPlayTime (player client_component)))].
Proof.
  cbn zeta.
  split; [reflexivity |]. split; [reflexivity |]. split; [reflexivity |].
  split; [reflexivity |]. split; [reflexivity |].
  destruct (captured_frame_reaches_client live_host client_component
              open_manager send_chunk_to_peers [0.5; 0.25] 1000 44100 1020 3
              eq_refl eq_refl eq_refl eq_refl eq_refl eq_refl eq_refl eq_refl)
    as (Hsent & _ & Hgraph & _).
  split; [exact Hsent | exact Hgraph].
Defined.

Lemma live_broadcast_does_not_restart_example :
  hasMicrophoneAccess live_host = true /\
  isLiveBroadcasting live_host = true /\
  toggleLiveBroadcast (Normal microphone) (Normal tt) (Normal tt)
    (exec (toggleLiveBroadcast (Normal microphone) (Normal tt) (Normal tt))
          live_host) =
  (Normal tt,
   exec (toggleLiveBroadcast (Normal microphone) (Normal tt) (Normal tt))
        live_host).
Proof.
  split; [reflexivity |]. split; [reflexivity |].
  destruct (live_broadcast_does_not_restart live_host
              (Normal microphone) (Normal microphone)
              (Normal tt) (Normal tt) (Normal tt) (Normal tt)
              eq_refl eq_refl)
    as (_ & _ & _ & _ & _ & Hagain).
  exact Hagain.
Defined.

End SessionLaws.
